(** * CaskOS: a shallow embedding of the storage plane

    The development follows the Go packages of the repository:
    - [sha256], [hex]: the two standard-library functions the object
      identifier and the ring hash are built from (FIPS 180-4 and
      [encoding/hex]);
    - [hashring]: the consistent-hash ring (internal/hashring);
    - [os]: the file-system calls the node store makes;
    - [storage]: the node store and the replication manager
      (internal/storage/node.go, internal/storage/manager.go);
    - [api]: the upload handler and the self-healer (internal/api/server.go).

    Definitions come first, theorems afterwards. *)

From Stdlib Require Import ZArith Lia Strings.Byte Ascii String.
From stdpp Require Import gmap strings list fin_maps sorting.

Local Open Scope Z_scope.

(** ** Bytes and machine words *)

(** A Go [uint32] is a [Z] kept in [0, 2^32) by [w32]. *)
Definition w32 (x : Z) : Z := x mod 2 ^ 32.

Definition byte_to_Z (b : byte) : Z := Z.of_N (Byte.to_N b).

Definition byte_of_Z (x : Z) : byte :=
  match Byte.of_N (Z.to_N (x mod 256)) with
  | Some b => b
  | None => x00
  end.

(** Permission bits in octal: [oct 7 5 5] is Go's [0755]. *)
Definition oct (u g o : Z) : Z := u * 64 + g * 8 + o.

#[global] Instance byte_eq_dec : EqDecision byte.
Proof.
  intros x y. destruct (Byte.eqb x y) eqn:E.
  - left. by apply Byte.byte_dec_bl.
  - right. intros ->. by rewrite Byte.byte_dec_lb in E.
Defined.

(** [[]byte(s)] for a Go string [s]. *)
Definition bytes_of_string (s : string) : list byte := list_byte_of_string s.

(** ** crypto/sha256 *)

Module sha256.

Definition add32 (x y : Z) : Z := w32 (x + y).
Definition rotr (n x : Z) : Z := Z.lor (Z.shiftr x n) (w32 (Z.shiftl x (32 - n))).
Definition not32 (x : Z) : Z := w32 (Z.lnot x).

Definition Ch (x y z : Z) : Z := Z.lxor (Z.land x y) (Z.land (not32 x) z).
Definition Maj (x y z : Z) : Z :=
  Z.lxor (Z.lxor (Z.land x y) (Z.land x z)) (Z.land y z).
Definition bigsigma0 (x : Z) : Z := Z.lxor (Z.lxor (rotr 2 x) (rotr 13 x)) (rotr 22 x).
Definition bigsigma1 (x : Z) : Z := Z.lxor (Z.lxor (rotr 6 x) (rotr 11 x)) (rotr 25 x).
Definition sigma0 (x : Z) : Z := Z.lxor (Z.lxor (rotr 7 x) (rotr 18 x)) (Z.shiftr x 3).
Definition sigma1 (x : Z) : Z := Z.lxor (Z.lxor (rotr 17 x) (rotr 19 x)) (Z.shiftr x 10).

(** The constants of FIPS 180-4 are derived as the standard defines them:
    the first 32 bits of the fractional parts of the cube roots (for [K])
    and of the square roots (for the initial hash value) of the first
    primes.  Go's [crypto/sha256] holds the same numbers as literals. *)
Definition isPrime (n : nat) : bool :=
  forallb (fun d => negb (n mod d =? 0)%nat) (seq 2 (n - 2)).

Definition primes : list Z := Z.of_nat <$> filter (fun n => isPrime n = true) (seq 2 310).

(** The integer cube root, one bit at a time from bit [b] down. *)
Fixpoint cbrt_bits (b : nat) (n r : Z) : Z :=
  let try_bit k := if (r + 2 ^ k) ^ 3 <=? n then r + 2 ^ k else r in
  match b with
  | O => try_bit 0
  | S b' => cbrt_bits b' n (try_bit (Z.of_nat b))
  end.

Definition frac_cbrt (p : Z) : Z := w32 (cbrt_bits 35 (p * 2 ^ 96) 0).
Definition frac_sqrt (p : Z) : Z := w32 (Z.sqrt (p * 2 ^ 64)).

Definition K : list Z := Eval vm_compute in frac_cbrt <$> primes.

(** The eight working variables, and the chaining value. *)
Record digest := Digest {
  h0 : Z; h1 : Z; h2 : Z; h3 : Z; h4 : Z; h5 : Z; h6 : Z; h7 : Z
}.

Definition init : digest :=
  Eval vm_compute in
    Digest (frac_sqrt 2) (frac_sqrt 3) (frac_sqrt 5) (frac_sqrt 7)
           (frac_sqrt 11) (frac_sqrt 13) (frac_sqrt 17) (frac_sqrt 19).

(** Padding: a one bit, zeros up to 56 mod 64, the bit length on 64 bits. *)
Definition be_bytes (n : nat) (x : Z) : list byte :=
  map (fun i => byte_of_Z (Z.shiftr x (8 * Z.of_nat i))) (rev (seq 0 n)).

Definition pad (msg : list byte) : list byte :=
  let len := Z.of_nat (length msg) in
  let zeros := Z.to_nat ((55 - len) mod 64) in
  msg ++ [x80] ++ repeat x00 zeros ++ be_bytes 8 ((8 * len) mod 2 ^ 64).

Definition be32 (b0 b1 b2 b3 : byte) : Z :=
  Z.lor (Z.lor (Z.lor (Z.shiftl (byte_to_Z b0) 24) (Z.shiftl (byte_to_Z b1) 16))
               (Z.shiftl (byte_to_Z b2) 8))
        (byte_to_Z b3).

Fixpoint words (bs : list byte) : list Z :=
  match bs with
  | b0 :: b1 :: b2 :: b3 :: rest => be32 b0 b1 b2 b3 :: words rest
  | _ => []
  end.

(** One round on the working variables, with round constant [k] and
    schedule word [w]. *)
Definition round (s : digest) (k w : Z) : digest :=
  let t1 := add32 (add32 (add32 (add32 (h7 s) (bigsigma1 (h4 s)))
                                (Ch (h4 s) (h5 s) (h6 s))) k) w in
  let t2 := add32 (bigsigma0 (h0 s)) (Maj (h0 s) (h1 s) (h2 s)) in
  Digest (add32 t1 t2) (h0 s) (h1 s) (h2 s) (add32 (h3 s) t1) (h4 s) (h5 s) (h6 s).

(** The message schedule as a sliding window of sixteen words: the head is
    the word of the current round. *)
Definition next_word (win : list Z) : Z :=
  add32 (add32 (add32 (sigma1 (nth 14 win 0)) (nth 9 win 0))
               (sigma0 (nth 1 win 0)))
        (nth 0 win 0).

Fixpoint rounds (ks : list Z) (win : list Z) (s : digest) : digest :=
  match ks with
  | [] => s
  | k :: ks' =>
      rounds ks' (tl win ++ [next_word win]) (round s k (nth 0 win 0))
  end.

Definition block (h : digest) (ws : list Z) : digest :=
  let s := rounds K ws h in
  Digest (add32 (h0 h) (h0 s)) (add32 (h1 h) (h1 s)) (add32 (h2 h) (h2 s))
         (add32 (h3 h) (h3 s)) (add32 (h4 h) (h4 s)) (add32 (h5 h) (h5 s))
         (add32 (h6 h) (h6 s)) (add32 (h7 h) (h7 s)).

Fixpoint blocks (n : nat) (ws : list Z) (h : digest) : digest :=
  match n with
  | O => h
  | S n' => blocks n' (skipn 16 ws) (block h (firstn 16 ws))
  end.

Definition digest_bytes (h : digest) : list byte :=
  be_bytes 4 (h0 h) ++ be_bytes 4 (h1 h) ++ be_bytes 4 (h2 h) ++ be_bytes 4 (h3 h) ++
  be_bytes 4 (h4 h) ++ be_bytes 4 (h5 h) ++ be_bytes 4 (h6 h) ++ be_bytes 4 (h7 h).

(** [sha256.Sum256]: the 32-byte checksum of [data]. *)
Definition Sum256 (data : list byte) : list byte :=
  let ws := words (pad data) in
  digest_bytes (blocks (length ws / 16)%nat ws init).

End sha256.

(** ** encoding/hex *)

Module hex.

Definition hextable : string := "0123456789abcdef".

Definition digit (x : Z) : ascii :=
  match String.get (Z.to_nat x) hextable with
  | Some c => c
  | None => "0"%char
  end.

(** [hex.EncodeToString]: two characters per byte, high nibble first. *)
Fixpoint EncodeToString (src : list byte) : string :=
  match src with
  | [] => EmptyString
  | v :: rest =>
      String (digit (Z.shiftr (byte_to_Z v) 4))
             (String (digit (Z.land (byte_to_Z v) 0x0f)) (EncodeToString rest))
  end.

(** A lowercase hexadecimal digit, and a string made of such digits. *)
Definition isLowerHex (c : ascii) : bool :=
  let n := nat_of_ascii c in
  ((48 <=? n) && (n <=? 57) || (97 <=? n) && (n <=? 102))%nat.

Fixpoint allLowerHex (s : string) : bool :=
  match s with
  | EmptyString => true
  | String c rest => isLowerHex c && allLowerHex rest
  end.

End hex.

(** ** Results of Go calls

    A call returns normally ([Ok]), returns a non-nil [error] ([Err]),
    panics ([Panic], e.g. an index out of range), or is cut off by the
    fuel of a loop ([Timeout]; shown unreachable for the loops below). *)

(** [errno]: the causes the operating system reports. *)
Inductive errno := ENOENT | EEXIST | ENOTDIR | EISDIR | ENOTEMPTY | EIO.

(** The [error] values the packages build with [fmt.Errorf]; [%w] wraps a
    cause. *)
#[warnings="-register-all"]
Inductive error :=
  | PathError (op : string) (path : list string) (e : errno)
  | ErrReader (msg : string)
  | ErrCreateDir (cause : error)      (* failed to create object directory: %w *)
  | ErrCreateFile (cause : error)     (* failed to create object file: %w *)
  | ErrWriteData (cause : error)      (* failed to write object data: %w *)
  | ErrObjectNotFound (id : string)   (* object not found: %s *)
  | ErrOpenFile (cause : error)       (* failed to open object file: %w *)
  | ErrDelete (cause : error)         (* failed to delete object: %w *)
  | ErrStat (cause : error)           (* failed to stat object: %w *)
  | ErrCreateNodeDir (cause : error)  (* failed to create storage node directory: %w *)
  | ErrNoNodes                        (* no storage nodes available *)
  | ErrReadData (cause : error)       (* failed to read object data: %w *)
  | ErrStoreAny (cause : option error) (* failed to store object on any node: %w *)
  | ErrNotFoundAny (id : string)      (* object not found on any available node: %s *)
  | ErrRetrieveForReplication (cause : error)
  | ErrTargetNotFound (id : string)   (* target node not found: %s *)
  | ErrReplicate (cause : error)      (* failed to replicate object to node: %w *)
  | ErrMetadata (msg : string).

Inductive res (A : Type) :=
  | Ok (a : A)
  | Err (e : error)
  | Panic (msg : string)
  | Timeout.
Arguments Ok {A} a.
Arguments Err {A} e.
Arguments Panic {A} msg.
Arguments Timeout {A}.

Definition isOk {A} (r : res A) : bool :=
  match r with Ok _ => true | _ => false end.

(** The value of a call that returned, [d] otherwise. *)
Definition fromOk {A} (d : A) (r : res A) : A :=
  match r with Ok a => a | _ => d end.

(** The calls into [os] and [io] neither panic nor loop: they return a
    value or an error ([ret]), or just a possibly nil error
    ([option error]). *)
Inductive ret (A : Type) :=
  | Val (a : A)
  | Fail (e : error).
Arguments Val {A} a.
Arguments Fail {A} e.

(** ** fmt and sort *)

Module fmt.

Definition digit_char (d : Z) : ascii := ascii_of_nat (48 + Z.to_nat d).

Fixpoint utoa (fuel : nat) (n : Z) (acc : string) : string :=
  match fuel with
  | O => acc
  | S fuel' =>
      let acc' := String (digit_char (n mod 10)) acc in
      if n / 10 =? 0 then acc' else utoa fuel' (n / 10) acc'
  end.

(** The verb [%d] on an [int]. *)
Definition itoa (n : Z) : string :=
  if n <? 0 then String "-"%char (utoa (S (Z.to_nat (Z.log2 (- n)))) (- n) EmptyString)
  else utoa (S (Z.to_nat (Z.log2 n))) n EmptyString.

End fmt.

Module sort.

(** [sort.Search(n, f)]: binary search for the least index in [0, n) at
    which [f] holds, [n] if there is none.  The loop [for i < j] halves
    [j - i], so [fuel = n] iterations are more than it takes. *)
Fixpoint search_loop (fuel : nat) (f : Z -> bool) (i j : Z) : Z :=
  match fuel with
  | O => i
  | S fuel' =>
      if i <? j then
        let h := (i + j) / 2 in
        if negb (f h) then search_loop fuel' f (h + 1) j
        else search_loop fuel' f i h
      else i
  end.

Definition Search (n : Z) (f : Z -> bool) : Z :=
  search_loop (Z.to_nat n) f 0 n.

(** [sort.Slice] with [less = (<)] on [uint32] values: the result is the
    ordered rearrangement of the slice (equal values are
    indistinguishable, so the missing stability does not show). *)
Definition Slice (l : list Z) : list Z := merge_sort Z.le l.

End sort.

(** ** internal/hashring *)

Module hashring.

Record Node := mkNode { ID : string; Replicas : Z }.

Record HashRing := mkHashRing {
  nodes : gmap string Node;
  sortedHashes : list Z;
  hashToNode : gmap Z string;
  virtualNodes : Z
}.

Definition NewHashRing (virtualNodes : Z) : HashRing :=
  mkHashRing ∅ [] ∅ virtualNodes.

(** [hashKey]: the first four bytes of the SHA-256 of the key, big-endian. *)
Definition hashKey (key : string) : Z :=
  let h := sha256.Sum256 (bytes_of_string key) in
  Z.lor (Z.lor (Z.lor (w32 (Z.shiftl (byte_to_Z (nth 0 h x00)) 24))
                      (w32 (Z.shiftl (byte_to_Z (nth 1 h x00)) 16)))
               (w32 (Z.shiftl (byte_to_Z (nth 2 h x00)) 8)))
        (byte_to_Z (nth 3 h x00)).

(** [fmt.Sprintf("%s:%d", nodeID, i)] *)
Definition virtualKey (nodeID : string) (i : Z) : string :=
  (nodeID ++ ":" ++ fmt.itoa i)%string.

(** One iteration of the loop that adds the virtual nodes. *)
Definition addVirtual (nodeID : string) (hr : HashRing) (i : Z) : HashRing :=
  let hash := hashKey (virtualKey nodeID i) in
  mkHashRing (nodes hr) (sortedHashes hr ++ [hash])
             (<[hash := nodeID]> (hashToNode hr)) (virtualNodes hr).

Definition AddNode (nodeID : string) (hr : HashRing) : HashRing :=
  match nodes hr !! nodeID with
  | Some _ => hr
  | None =>
      let node := mkNode nodeID (virtualNodes hr) in
      let hr1 := mkHashRing (<[nodeID := node]> (nodes hr)) (sortedHashes hr)
                            (hashToNode hr) (virtualNodes hr) in
      let hr2 := foldl (addVirtual nodeID) hr1 (seqZ 0 (virtualNodes hr)) in
      mkHashRing (nodes hr2) (sort.Slice (sortedHashes hr2))
                 (hashToNode hr2) (virtualNodes hr2)
  end.

(** One iteration of the loop of [RemoveNode] over [sortedHashes]: the
    accumulator is [newHashes] and the map being emptied. *)
Definition removeStep (nodeID : string) (acc : list Z * gmap Z string) (hash : Z)
  : list Z * gmap Z string :=
  if decide (default EmptyString (acc.2 !! hash) ≠ nodeID)
  then (acc.1 ++ [hash], acc.2)
  else (acc.1, delete hash acc.2).

Definition RemoveNode (nodeID : string) (hr : HashRing) : HashRing :=
  match nodes hr !! nodeID with
  | None => hr
  | Some _ =>
      let acc := foldl (removeStep nodeID) ([], hashToNode hr) (sortedHashes hr) in
      mkHashRing (delete nodeID (nodes hr)) acc.1 acc.2 (virtualNodes hr)
  end.

Definition len {A} (l : list A) : Z := Z.of_nat (length l).

(** [findNodeIndex]: the index of the first hash [>= keyHash], wrapping
    to 0. *)
Definition findNodeIndex (hr : HashRing) (keyHash : Z) : Z :=
  let idx := sort.Search (len (sortedHashes hr))
               (fun i => default 0 (sortedHashes hr !! Z.to_nat i) >=? keyHash) in
  if idx =? len (sortedHashes hr) then 0 else idx.

(** The loop [for len(nodes) < count] of [GetNodes]. *)
Fixpoint collect (fuel : nat) (hr : HashRing) (hash count idx : Z)
         (nodes_ : list string) (seen : gset string) : res (list string) :=
  if len nodes_ <? count then
    match fuel with
    | O => Timeout
    | S fuel' =>
        if (idx <? 0) || (len (sortedHashes hr) <=? idx)
        then Panic "index out of range"
        else
          let nodeHash := default 0 (sortedHashes hr !! Z.to_nat idx) in
          let nodeID := default EmptyString (hashToNode hr !! nodeHash) in
          let nodes' := if decide (nodeID ∈ seen) then nodes_ else nodes_ ++ [nodeID] in
          let seen' := if decide (nodeID ∈ seen) then seen else {[nodeID]} ∪ seen in
          let idx' := (idx + 1) mod len (sortedHashes hr) in
          if (idx' =? findNodeIndex hr hash) && (len nodes' <? count)
          then Ok nodes'
          else collect fuel' hr hash count idx' nodes' seen'
    end
  else Ok nodes_.

Definition GetNodes (hr : HashRing) (key : string) (count : Z) : res (list string) :=
  if Z.of_nat (size (nodes hr)) =? 0 then Ok []
  else
    let count := if count >? Z.of_nat (size (nodes hr))
                 then Z.of_nat (size (nodes hr)) else count in
    let hash := hashKey key in
    if count <? 0 then Panic "makeslice: cap out of range"
    else
      let idx := findNodeIndex hr hash in
      if idx =? -1 then Ok []
      else collect (S (length (sortedHashes hr))) hr hash count idx [] ∅.

(** [ListNodes] ranges over a Go map, whose order is not specified: the
    order of [map_to_list] stands for one such order. *)
Definition ListNodes (hr : HashRing) : list string := (map_to_list (nodes hr)).*1.

Definition NodeCount (hr : HashRing) : Z := Z.of_nat (size (nodes hr)).

(** *** Vocabulary of the ring's specification *)

(** The owner of each ring position, as [GetNodes] resolves it: a hash
    missing from [hashToNode] reads as the empty string. *)
Definition owners (hr : HashRing) : list string :=
  (λ h, default EmptyString (hashToNode hr !! h)) <$> sortedHashes hr.

Definition ownerAt (hr : HashRing) (idx : Z) : string :=
  default EmptyString (owners hr !! Z.to_nat idx).

(** The ring is consistent when the owners of its positions are exactly
    its physical nodes. *)
Definition ring_ok (hr : HashRing) : Prop :=
  dom (nodes hr) = list_to_set (owners hr).

(** The hashes of the virtual nodes [AddNode] inserts for [nodeID]. *)
Definition virtualHashes (hr : HashRing) (nodeID : string) : list Z :=
  (λ i, hashKey (virtualKey nodeID i)) <$> seqZ 0 (virtualNodes hr).

End hashring.

(** ** path/filepath

    A cleaned path is kept as the list of its components, with ["/"] in
    front when the path is rooted; [[]] is the path ["."]. *)

Module filepath.

Definition path := list string.

(** [strings.Split(s, "/")]. *)
Fixpoint split (s : string) : list string :=
  match s with
  | EmptyString => [EmptyString]
  | String c rest =>
      if Ascii.eqb c "/" then EmptyString :: split rest
      else match split rest with
           | [] => [String c EmptyString]
           | x :: xs => String c x :: xs
           end
  end.

Definition isAbs (s : string) : bool :=
  match s with
  | String c _ => Ascii.eqb c "/"
  | EmptyString => false
  end.

(** One component of [Clean]'s scan; [stk] holds the components kept so
    far, last first.  Empty and ["."] components are dropped, [".."]
    removes the component before it, is dropped at the root, and is kept
    in front of a relative path. *)
Definition cleanStep (rooted : bool) (stk : list string) (c : string) : list string :=
  if bool_decide (c = EmptyString ∨ c = ".") then stk
  else if bool_decide (c = "..") then
    match stk with
    | top :: rest => if bool_decide (top = "..") then c :: stk else rest
    | [] => if rooted then [] else [c]
    end
  else c :: stk.

Definition mkpath (rooted : bool) (stk : list string) : path :=
  (if rooted then ["/"] else []) ++ rev stk.

(** [filepath.Clean]. *)
Definition Clean (s : string) : path :=
  mkpath (isAbs s) (foldl (cleanStep (isAbs s)) [] (split s)).

Definition nonempty (elems : list string) : list string :=
  filter (λ e, e ≠ EmptyString) elems.

Fixpoint concat (sep : string) (l : list string) : string :=
  match l with
  | [] => EmptyString
  | [x] => x
  | x :: rest => (x ++ sep ++ concat sep rest)%string
  end.

(** [filepath.Join(elems...)]: empty elements are ignored, the rest is
    joined with separators and cleaned. *)
Definition Join (elems : list string) : path :=
  Clean (concat "/" (nonempty elems)).

Definition rooted (p : path) : bool :=
  match p with
  | c :: _ => bool_decide (c = "/")
  | [] => false
  end.

(** [filepath.Join(dir, elems...)] for a [dir] that is already clean:
    the scan goes on from the components of [dir]. *)
Definition JoinPath (dir : path) (elems : list string) : path :=
  let stk := rev (if rooted dir then tl dir else dir) in
  mkpath (rooted dir)
    (foldl (cleanStep (rooted dir)) stk (split (concat "/" (nonempty elems)))).

(** The path and its ancestors, innermost first: the directories
    [os.MkdirAll] walks up through. *)
Fixpoint chainRev (rp : list string) : list path :=
  match rp with
  | [] => []
  | _ :: rp' => rev rp :: chainRev rp'
  end.

Definition chain (p : path) : list path := chainRev (rev p).

Definition parent (p : path) : path := removelast p.

(** The string a path stands for, as [Clean] and [Join] return it. *)
Definition show (p : path) : string :=
  match p with
  | [] => "."
  | c :: rest => if bool_decide (c = "/") then ("/" ++ concat "/" rest)%string
                 else concat "/" p
  end.

(** A name without separators and dots: it is one component, and [Clean]
    keeps it as it is. *)
Fixpoint plain (s : string) : bool :=
  match s with
  | EmptyString => true
  | String c rest => negb (Ascii.eqb c "/") && negb (Ascii.eqb c ".") && plain rest
  end.

End filepath.

(** ** os and io

    The file system maps cleaned paths to directories and regular files
    with their permission bits.  A call fails for the structural reasons
    below, or because the environment makes it fail: [faults] lists the
    calls (operation and path) that return an I/O error. *)

Module os.
Import filepath.

Inductive inode :=
  | Dir (mode : Z)
  | File (mode : Z) (data : list byte).

Inductive sysop := OpMkdir | OpCreate | OpWrite | OpRemove | OpStat | OpOpen.

#[global] Instance sysop_eq_dec : EqDecision sysop.
Proof. solve_decision. Defined.

Record FS := mkFS {
  entries : gmap path inode;
  umask : Z;
  faults : list (sysop * path)
}.

Definition fault (fs : FS) (op : sysop) (p : path) : bool :=
  bool_decide ((op, p) ∈ faults fs).

(** The current directory and the root always exist. *)
Definition isRoot (p : path) : bool :=
  match p with
  | [] => true
  | [c] => bool_decide (c = "/")
  | _ => false
  end.

Definition lookup (fs : FS) (p : path) : option inode :=
  if isRoot p then Some (Dir (oct 7 5 5)) else entries fs !! p.

Definition update (fs : FS) (p : path) (i : inode) : FS :=
  mkFS (<[p := i]> (entries fs)) (umask fs) (faults fs).

Definition unlink (fs : FS) (p : path) : FS :=
  mkFS (delete p (entries fs)) (umask fs) (faults fs).

(** The same files once every fault is gone: all nodes are live and
    error-free. *)
Definition recovered (fs : FS) : FS := mkFS (entries fs) (umask fs) [].

(** Permission bits of a new entry: [perm &^ umask]. *)
Definition masked (fs : FS) (perm : Z) : Z := Z.ldiff perm (umask fs).

Definition Mkdir (p : path) (perm : Z) (fs : FS) : option error * FS :=
  if fault fs OpMkdir p then (Some (PathError "mkdir" p EIO), fs)
  else match lookup fs p with
       | Some _ => (Some (PathError "mkdir" p EEXIST), fs)
       | None =>
           match lookup fs (parent p) with
           | Some (Dir _) => (None, update fs p (Dir (masked fs perm)))
           | Some (File _ _) => (Some (PathError "mkdir" p ENOTDIR), fs)
           | None => (Some (PathError "mkdir" p ENOENT), fs)
           end
       end.

(** [os.MkdirAll]: nothing to do for a directory that exists; otherwise
    the parent first, then the directory itself. *)
Fixpoint mkdirAll (ch : list path) (perm : Z) (fs : FS) : option error * FS :=
  match ch with
  | [] => (None, fs)
  | p :: up =>
      match lookup fs p with
      | Some (Dir _) => (None, fs)
      | Some (File _ _) => (Some (PathError "mkdir" p ENOTDIR), fs)
      | None =>
          match mkdirAll up perm fs with
          | (None, fs1) => Mkdir p perm fs1
          | (Some e, fs1) => (Some e, fs1)
          end
      end
  end.

Definition MkdirAll (p : path) (perm : Z) (fs : FS) : option error * FS :=
  mkdirAll (chain p) perm fs.

(** [os.Create]: [O_RDWR|O_CREATE|O_TRUNC] with mode [0666] before the
    umask; an existing file is truncated and keeps its mode.  The handle
    returned is the path. *)
Definition Create (p : path) (fs : FS) : ret path * FS :=
  if fault fs OpCreate p then (Fail (PathError "open" p EIO), fs)
  else match lookup fs p with
       | Some (Dir _) => (Fail (PathError "open" p EISDIR), fs)
       | Some (File mode _) => (Val p, update fs p (File mode []))
       | None =>
           match lookup fs (parent p) with
           | Some (Dir _) => (Val p, update fs p (File (masked fs (oct 6 6 6)) []))
           | Some (File _ _) => (Fail (PathError "open" p ENOTDIR), fs)
           | None => (Fail (PathError "open" p ENOENT), fs)
           end
       end.

(** Is there an entry strictly below [p]? *)
Definition hasChildren (fs : FS) (p : path) : bool :=
  bool_decide (Exists (λ q, p `prefix_of` q ∧ q ≠ p) (map_to_list (entries fs)).*1).

Definition Remove (p : path) (fs : FS) : option error * FS :=
  if fault fs OpRemove p then (Some (PathError "remove" p EIO), fs)
  else match lookup fs p with
       | None => (Some (PathError "remove" p ENOENT), fs)
       | Some (File _ _) => (None, unlink fs p)
       | Some (Dir _) =>
           if hasChildren fs p then (Some (PathError "remove" p ENOTEMPTY), fs)
           else (None, unlink fs p)
       end.

Definition Stat (p : path) (fs : FS) : ret inode :=
  if fault fs OpStat p then Fail (PathError "stat" p EIO)
  else match lookup fs p with
       | Some i => Val i
       | None => Fail (PathError "stat" p ENOENT)
       end.

(** [os.Open]: read-only; a directory opens too (reading it fails). *)
Definition Open (p : path) (fs : FS) : ret path :=
  if fault fs OpOpen p then Fail (PathError "open" p EIO)
  else match lookup fs p with
       | Some _ => Val p
       | None => Fail (PathError "open" p ENOENT)
       end.

Definition IsNotExist (e : error) : bool :=
  match e with
  | PathError _ _ ENOENT => true
  | _ => false
  end.

(** [info.Size()]; the size of a directory is system-dependent and is
    left at 0. *)
Definition Size (i : inode) : Z :=
  match i with
  | File _ data => Z.of_nat (length data)
  | Dir _ => 0
  end.

End os.

Module io.
Import filepath os.

(** An [io.Reader]: bytes in memory followed by end-of-file or by an
    error, or an open file, which is read when the reader is consumed. *)
Inductive Reader :=
  | BytesReader (data : list byte) (err : option error)
  | FileReader (p : path).

(** Everything the reader delivers, and the error that ends it, if any. *)
Definition drain (fs : FS) (r : Reader) : list byte * option error :=
  match r with
  | BytesReader data err => (data, err)
  | FileReader p =>
      match os.lookup fs p with
      | Some (File _ data) => (data, None)
      | Some (Dir _) => ([], Some (PathError "read" p EISDIR))
      | None => ([], Some (PathError "read" p ENOENT))
      end
  end.

(** [io.ReadAll] *)
Definition ReadAll (r : Reader) (fs : FS) : ret (list byte) :=
  match drain fs r with
  | (data, None) => Val data
  | (_, Some e) => Fail e
  end.

(** [io.Copy(file, src)] into the file just opened at [dst]: what [src]
    delivers is written from offset 0; a write fault stops the copy
    before anything is written, an error of [src] after what it
    delivered. *)
Definition Copy (dst : path) (src : Reader) (fs : FS) : option error * FS :=
  let '(data, rerr) := drain fs src in
  if fault fs OpWrite dst then (Some (PathError "write" dst EIO), fs)
  else
    (rerr, match os.lookup fs dst with
           | Some (File mode _) => update fs dst (File mode data)
           | _ => fs
           end).

(** What [Read] and [ReadAt] report when they report something: [io.EOF]
    or another error. *)
Inductive status :=
  | EOF
  | Failed (msg : string).

(** An [io.ReaderAt]: the bytes [ReadAt(p, off)] puts into a buffer [p]
    of the given length, and what it reports. *)
Definition ReaderAt := nat → Z → list byte * option status.

(** [Read(p)] of the [io.SectionReader] that [io.NewSectionReader(r, 0,
    limit)] makes, at the offset [off] it has reached: the bytes, what it
    reports, and the new offset. *)
Definition sectionRead (r : ReaderAt) (limit off : Z) (plen : nat)
  : list byte * option status * Z :=
  if off >=? limit then ([], Some EOF, off)
  else
    let plen' := if Z.of_nat plen >? limit - off then Z.to_nat (limit - off)
                 else plen in
    let '(bs, err) := r plen' off in
    (bs, err, off + Z.of_nat (length bs)).

(** The loop of [io.ReadAll] on such a section reader: [b] is what it
    has read, [room (length b)] the free capacity [cap(b) - len(b)] it
    hands to [Read], which [append] keeps positive; [io.EOF] ends the
    loop without error. *)
Fixpoint readAllLoop (fuel : nat) (r : ReaderAt) (limit : Z) (room : nat → nat)
         (off : Z) (b : list byte) : option (list byte * option status) :=
  match fuel with
  | O => None
  | S fuel' =>
      let '(bs, err, off') := sectionRead r limit off (room (length b)) in
      match err with
      | Some EOF => Some (b ++ bs, None)
      | Some e => Some (b ++ bs, Some e)
      | None => readAllLoop fuel' r limit room off' (b ++ bs)
      end
  end.

End io.

(** ** internal/storage *)

Module storage.
Import filepath os io.

(** *** node.go *)

Record Node := mkNode { ID : string; BasePath : string }.

(** The slice expression [s[lo:hi]] of a string. *)
Definition slice (s : string) (lo hi : nat) : res string :=
  if (hi <=? String.length s)%nat then Ok (substring lo (hi - lo) s)
  else Panic "slice bounds out of range".

Definition NewNode (id basePath : string) (fs : FS) : res Node * FS :=
  match MkdirAll (Clean basePath) (oct 7 5 5) fs with
  | (Some e, fs1) => (Err (ErrCreateNodeDir e), fs1)
  | (None, fs1) => (Ok (mkNode id basePath), fs1)
  end.

Definition Store (n : Node) (objectID : string) (data : Reader) (fs : FS)
  : res unit * FS :=
  match slice objectID 0 2 with
  | Ok dir1 =>
      match slice objectID 2 4 with
      | Ok dir2 =>
          let objectDir := Join [BasePath n; dir1; dir2] in
          match MkdirAll objectDir (oct 7 5 5) fs with
          | (Some e, fs1) => (Err (ErrCreateDir e), fs1)
          | (None, fs1) =>
              let objectPath := JoinPath objectDir [objectID] in
              match Create objectPath fs1 with
              | (Fail e, fs2) => (Err (ErrCreateFile e), fs2)
              | (Val file, fs2) =>
                  match Copy file data fs2 with
                  | (Some e, fs3) =>
                      (Err (ErrWriteData e), (Remove objectPath fs3).2)
                  | (None, fs3) => (Ok (), fs3)
                  end
              end
          end
      | _ => (Panic "slice bounds out of range", fs)
      end
  | _ => (Panic "slice bounds out of range", fs)
  end.

(** [filepath.Join(n.BasePath, dir1, dir2, objectID)], as [Retrieve],
    [Exists], [Delete] and [GetSize] compute it. *)
Definition objectPath (n : Node) (objectID : string) : res path :=
  match slice objectID 0 2 with
  | Ok dir1 =>
      match slice objectID 2 4 with
      | Ok dir2 => Ok (Join [BasePath n; dir1; dir2; objectID])
      | _ => Panic "slice bounds out of range"
      end
  | _ => Panic "slice bounds out of range"
  end.

Definition Retrieve (n : Node) (objectID : string) (fs : FS) : res Reader :=
  match objectPath n objectID with
  | Ok objectPath =>
      match Open objectPath fs with
      | Fail e =>
          if IsNotExist e then Err (ErrObjectNotFound objectID)
          else Err (ErrOpenFile e)
      | Val file => Ok (FileReader file)
      end
  | _ => Panic "slice bounds out of range"
  end.

Definition Exists (n : Node) (objectID : string) (fs : FS) : res bool :=
  match objectPath n objectID with
  | Ok objectPath =>
      match Stat objectPath fs with
      | Val _ => Ok true
      | Fail _ => Ok false
      end
  | _ => Panic "slice bounds out of range"
  end.

Definition Delete (n : Node) (objectID : string) (fs : FS) : res unit * FS :=
  match objectPath n objectID with
  | Ok objectPath =>
      match Remove objectPath fs with
      | (Some e, fs1) =>
          if negb (IsNotExist e) then (Err (ErrDelete e), fs1) else (Ok (), fs1)
      | (None, fs1) => (Ok (), fs1)
      end
  | _ => (Panic "slice bounds out of range", fs)
  end.

Definition GetSize (n : Node) (objectID : string) (fs : FS) : res Z :=
  match objectPath n objectID with
  | Ok objectPath =>
      match Stat objectPath fs with
      | Fail e =>
          if IsNotExist e then Err (ErrObjectNotFound objectID)
          else Err (ErrStat e)
      | Val info => Ok (Size info)
      end
  | _ => Panic "slice bounds out of range"
  end.

(** *** manager.go *)

(** [HashRingInterface]: what the manager asks of a ring. *)
Record HashRingInterface := mkRing {
  GetNodes : string → Z → res (list string);
  ListNodes : list string;
  NodeCount : Z
}.

(** [*hashring.HashRing] implements the interface. *)
Definition ringOf (hr : hashring.HashRing) : HashRingInterface :=
  mkRing (hashring.GetNodes hr) (hashring.ListNodes hr) (hashring.NodeCount hr).

Record Manager := mkManager {
  nodes : gmap string Node;
  hashRing : HashRingInterface;
  replication : Z
}.

Definition NewManager (hashRing : HashRingInterface) (replication : Z) : Manager :=
  mkManager ∅ hashRing replication.

Definition AddNode (nodeID : string) (node : Node) (m : Manager) : Manager :=
  mkManager (<[nodeID := node]> (nodes m)) (hashRing m) (replication m).

Definition len {A} (l : list A) : Z := Z.of_nat (length l).

(** The loop of [StoreObject] over [targetNodes]; [replicatedNodes] and
    [lastErr] are its accumulators.  Each node gets a fresh reader on the
    bytes held in memory. *)
Fixpoint storeLoop (m : Manager) (objectID : string) (dataBytes : list byte)
         (targetNodes replicatedNodes : list string) (lastErr : option error)
         (fs : FS) : res (list string * option error) * FS :=
  match targetNodes with
  | [] => (Ok (replicatedNodes, lastErr), fs)
  | nodeID :: rest =>
      match nodes m !! nodeID with
      | None => storeLoop m objectID dataBytes rest replicatedNodes lastErr fs
      | Some node =>
          let reader := BytesReader dataBytes None in
          match Store node objectID reader fs with
          | (Err err, fs1) =>
              storeLoop m objectID dataBytes rest replicatedNodes (Some err) fs1
          | (Ok _, fs1) =>
              storeLoop m objectID dataBytes rest (replicatedNodes ++ [nodeID])
                        lastErr fs1
          | (Panic msg, fs1) => (Panic msg, fs1)
          | (Timeout, fs1) => (Timeout, fs1)
          end
      end
  end.

Definition StoreObject (m : Manager) (objectID : string) (data : Reader) (size : Z)
           (fs : FS) : res (list string) * FS :=
  match GetNodes (hashRing m) objectID (replication m) with
  | Ok targetNodes =>
      if len targetNodes =? 0 then (Err ErrNoNodes, fs)
      else
        match ReadAll data fs with
        | Fail err => (Err (ErrReadData err), fs)
        | Val dataBytes =>
            match storeLoop m objectID dataBytes targetNodes [] None fs with
            | (Ok (replicatedNodes, lastErr), fs1) =>
                if len replicatedNodes =? 0 then (Err (ErrStoreAny lastErr), fs1)
                else (Ok replicatedNodes, fs1)
            | (Err e, fs1) => (Err e, fs1)
            | (Panic msg, fs1) => (Panic msg, fs1)
            | (Timeout, fs1) => (Timeout, fs1)
            end
        end
  | Err e => (Err e, fs)
  | Panic msg => (Panic msg, fs)
  | Timeout => (Timeout, fs)
  end.

(** The loop of [RetrieveObject]: the first target that is registered,
    has the object and opens. *)
Fixpoint retrieveLoop (m : Manager) (objectID : string) (targetNodes : list string)
         (fs : FS) : res Reader :=
  match targetNodes with
  | [] => Err (ErrNotFoundAny objectID)
  | nodeID :: rest =>
      match nodes m !! nodeID with
      | None => retrieveLoop m objectID rest fs
      | Some node =>
          match Exists node objectID fs with
          | Ok false => retrieveLoop m objectID rest fs
          | Ok true =>
              match Retrieve node objectID fs with
              | Ok reader => Ok reader
              | Err _ => retrieveLoop m objectID rest fs
              | Panic msg => Panic msg
              | Timeout => Timeout
              end
          | Err e => Err e
          | Panic msg => Panic msg
          | Timeout => Timeout
          end
      end
  end.

Definition RetrieveObject (m : Manager) (objectID : string) (fs : FS) : res Reader :=
  match GetNodes (hashRing m) objectID (replication m) with
  | Ok targetNodes => retrieveLoop m objectID targetNodes fs
  | Err e => Err e
  | Panic msg => Panic msg
  | Timeout => Timeout
  end.

Definition ReplicateObject (m : Manager) (objectID targetNodeID : string) (fs : FS)
  : res unit * FS :=
  match RetrieveObject m objectID fs with
  | Err err => (Err (ErrRetrieveForReplication err), fs)
  | Ok sourceReader =>
      match nodes m !! targetNodeID with
      | None => (Err (ErrTargetNotFound targetNodeID), fs)
      | Some targetNode =>
          match Store targetNode objectID sourceReader fs with
          | (Err err, fs1) => (Err (ErrReplicate err), fs1)
          | r => r
          end
      end
  | Panic msg => (Panic msg, fs)
  | Timeout => (Timeout, fs)
  end.

(** The loop of [CheckReplicas] over the map [m.nodes].  Go leaves the
    order of a map range open; [map_to_list] stands for one order. *)
Fixpoint checkLoop (objectID : string) (ns : list (string * Node))
         (availableNodes : list string) (fs : FS) : res (list string) :=
  match ns with
  | [] => Ok availableNodes
  | (nodeID, node) :: rest =>
      match Exists node objectID fs with
      | Ok true => checkLoop objectID rest (availableNodes ++ [nodeID]) fs
      | Ok false => checkLoop objectID rest availableNodes fs
      | Err e => Err e
      | Panic msg => Panic msg
      | Timeout => Timeout
      end
  end.

Definition CheckReplicas (m : Manager) (objectID : string) (fs : FS)
  : res (list string) :=
  checkLoop objectID (map_to_list (nodes m)) [] fs.

Definition GetTargetNodes (m : Manager) (objectID : string) : res (list string) :=
  GetNodes (hashRing m) objectID (replication m).

Definition GenerateObjectID (data : list byte) : string :=
  hex.EncodeToString (sha256.Sum256 data).

(** [byteReader.ReadAt] (the same method is declared in manager.go and
    in server.go): the bytes copied into the buffer are its result
    [n]. *)
Definition ReadAt (data : list byte) : ReaderAt := λ plen off,
  if off <? 0 then ([], Some (Failed "negative offset"))
  else if off >=? len data then ([], Some EOF)
  else
    let copied := take plen (drop (Z.to_nat off) data) in
    (copied, if (length copied <? plen)%nat then Some EOF else None).

(** *** Vocabulary of the node store's specification *)

(** Where a node keeps the blob of [objectID]:
    [<base>/<id[0:2]>/<id[2:4]>/<id>]. *)
Definition shardDir (n : Node) (objectID : string) : path :=
  Join [BasePath n; substring 0 2 objectID; substring 2 2 objectID].

Definition blobPath (n : Node) (objectID : string) : path :=
  Join [BasePath n; substring 0 2 objectID; substring 2 2 objectID; objectID].

(** The node holds a regular file with these bytes under [objectID]. *)
Definition holds (n : Node) (objectID : string) (data : list byte) (fs : FS) : Prop :=
  ∃ mode, lookup fs (blobPath n objectID) = Some (File mode data).


(** A reader [Store] can consume to the end: bytes in memory that end
    without error, or a regular file other than the destination. *)
Definition readable (fs : FS) (n : Node) (objectID : string) (data : Reader) : Prop :=
  match data with
  | BytesReader _ err => err = None
  | FileReader q =>
      q ≠ blobPath n objectID ∧ ∃ mode d, lookup fs q = Some (File mode d)
  end.

(** Nothing is in the way of the blob of [objectID] on the node: no
    regular file where a directory is needed, no directory where the blob
    goes. *)
Definition storable (fs : FS) (n : Node) (objectID : string) : Prop :=
  (∀ q mode d, q ∈ chain (shardDir n objectID) → lookup fs q ≠ Some (File mode d)) ∧
  (∀ mode, lookup fs (blobPath n objectID) ≠ Some (Dir mode)).

(** *** The environment the replication properties are stated for *)

(** No call of the operation [op] is made to fail. *)
Definition noFault (fs : FS) (op : sysop) : Prop :=
  Forall (λ f, f.1 ≠ op) (faults fs).

(** Content-addressing integrity for [objectID] on a node: what the node
    has under the identifier, if anything, is a regular file with the
    bytes [data]. *)
Definition cleanCopy (objectID : string) (data : list byte) (fs : FS) (n : Node) : bool :=
  match lookup fs (blobPath n objectID) with
  | None => true
  | Some (File _ d) => bool_decide (d = data)
  | Some (Dir _) => false
  end.

Definition intact (m : Manager) (objectID : string) (data : list byte) (fs : FS) : Prop :=
  map_Forall (λ _ n, cleanCopy objectID data fs n = true) (nodes m).

(** The nodes registered under different identifiers keep the blob in
    places that do not overlap: no blob path is another one or one of its
    ancestors. *)
Definition separated (m : Manager) (objectID : string) : Prop :=
  map_Forall (λ t n,
    map_Forall (λ t' n', t = t' ∨ blobPath n objectID ∉ chain (blobPath n' objectID))
               (nodes m)) (nodes m).

(** The registered nodes that have something under [objectID], in the
    order of the range over [m.nodes]. *)
Definition holders (m : Manager) (objectID : string) (fs : FS) : list string :=
  (filter (λ kv, is_Some (lookup fs (blobPath kv.2 objectID)))
          (map_to_list (nodes m))).*1.

(** Nothing is in the way on any registered node. *)
Definition unobstructed (m : Manager) (objectID : string) (fs : FS) : Prop :=
  map_Forall (λ _ n, storable fs n objectID) (nodes m).

Definition isFile (i : option inode) : bool :=
  match i with Some (File _ _) => true | _ => false end.

Definition isDir (i : option inode) : bool :=
  match i with Some (Dir _) => true | _ => false end.

#[global] Instance storable_dec fs n objectID : Decision (storable fs n objectID).
Proof.
  refine (cast_if (decide (Forall (λ q, isFile (lookup fs q) = false)
                                  (chain (shardDir n objectID)) ∧
                           isDir (lookup fs (blobPath n objectID)) = false))).
  - destruct a as [Hall Hd]. split.
    + intros q mode d Hq Hl.
      apply (proj1 (Forall_forall _ _) Hall) in Hq. by rewrite Hl in Hq.
    + intros mode Hl. by rewrite Hl in Hd.
  - intros [Hf Hd]. apply n0. split.
    + apply Forall_forall. intros q Hq.
      destruct (lookup fs q) as [[|mode d]|] eqn:Hl; try done. by destruct (Hf q mode d).
    + destruct (lookup fs (blobPath n objectID)) as [[mode|]|] eqn:Hl; try done.
      by destruct (Hd mode).
Defined.

#[global] Instance unobstructed_dec m objectID fs : Decision (unobstructed m objectID fs).
Proof. unfold unobstructed. apply _. Defined.

#[global] Instance noFault_dec fs op : Decision (noFault fs op).
Proof. unfold noFault. apply _. Defined.

#[global] Instance intact_dec m objectID data fs : Decision (intact m objectID data fs).
Proof. unfold intact. apply _. Defined.

#[global] Instance separated_dec m objectID : Decision (separated m objectID).
Proof. unfold separated. apply _. Defined.

(** *** The write and read paths in the words of the specification *)

(** Step 2 of the write path: the registered targets in ring order, each
    with what its [Store] returned, and the file system they leave. *)
Fixpoint attempts (m : Manager) (objectID : string) (bytes : list byte)
         (targets : list string) (fs : FS) : list (string * res unit) * FS :=
  match targets with
  | [] => ([], fs)
  | t :: rest =>
      match nodes m !! t with
      | None => attempts m objectID bytes rest fs
      | Some node =>
          let r := Store node objectID (BytesReader bytes None) fs in
          let rs := attempts m objectID bytes rest r.2 in
          ((t, r.1) :: rs.1, rs.2)
      end
  end.

(** The achieved-replicas list, and the last underlying error. *)
Definition achieved (att : list (string * res unit)) : list string :=
  omap (λ a, match a.2 with Ok _ => Some a.1 | _ => None end) att.

Definition lastError (att : list (string * res unit)) : option error :=
  last (omap (λ a, match a.2 with Err e => Some e | _ => None end) att).

(** Step 2 of the read path: a target yields a reader when it is
    registered, reports [Exists] and opens. *)
Definition usable (m : Manager) (objectID : string) (fs : FS) (t : string) : bool :=
  match nodes m !! t with
  | Some node =>
      match Exists node objectID fs, Retrieve node objectID fs with
      | Ok true, Ok _ => true
      | _, _ => false
      end
  | None => false
  end.

Definition readerOf (m : Manager) (objectID : string) (fs : FS) (t : string)
  : res Reader :=
  match nodes m !! t with
  | Some node => Retrieve node objectID fs
  | None => Err (ErrTargetNotFound t)
  end.

(** Steps 2 and 3 of the read path: the reader of the first usable
    target, [NotFound] when no target yields one. *)
Definition firstUsable (m : Manager) (objectID : string) (fs : FS)
           (targets : list string) : res Reader :=
  match List.find (usable m objectID fs) targets with
  | Some t => readerOf m objectID fs t
  | None => Err (ErrNotFoundAny objectID)
  end.

End storage.

(** ** internal/metadata *)

Module metadata.

(** The descriptor the upload handler builds ([metadata.ObjectMetadata]);
    [CreatedAt] is a point in time. *)
Record ObjectMetadata := mkMeta {
  ID : string;
  Size : Z;
  ContentType : string;
  CreatedAt : Z;
  Replicas : list string
}.

(** Modelled from the spec: internal/metadata/store.go is not among the
    sources.  Section 4.5 has a directory of per-object files named by
    the identifier, with [Save] (write a temporary file, rename it over
    the final path), [Get] (the descriptor or [NotFound]) and [Exists];
    section 7 lets the file-system operations of [Save] fail
    ([IOFailure]).  The directory is a map from identifiers to
    descriptors; [readOnly] makes [Save] fail. *)
Record Store := mkStore {
  objects : gmap string ObjectMetadata;
  readOnly : bool
}.

Definition Save (meta : ObjectMetadata) (st : Store) : option error * Store :=
  if readOnly st then (Some (ErrMetadata "failed to write metadata"), st)
  else (None, mkStore (<[ID meta := meta]> (objects st)) (readOnly st)).

Definition Get (objectID : string) (st : Store) : ret ObjectMetadata :=
  match objects st !! objectID with
  | Some meta => Val meta
  | None => Fail (ErrMetadata "metadata not found")
  end.

Definition Exists (objectID : string) (st : Store) : bool :=
  bool_decide (is_Some (objects st !! objectID)).

End metadata.

(** ** internal/api *)

Module api.
Import os io storage.

Record Server := mkServer {
  storageManager : Manager;
  replication : Z
}.

(** What the handlers act on: the file system of the nodes and the
    metadata directory. *)
Record World := mkWorld {
  fs : FS;
  meta : metadata.Store
}.

Definition setReplicas (m : metadata.ObjectMetadata) (replicas : list string)
  : metadata.ObjectMetadata :=
  metadata.mkMeta (metadata.ID m) (metadata.Size m) (metadata.ContentType m)
                  (metadata.CreatedAt m) replicas.

(** The loop of [ensureReplication] over [targetNodes]; [replicated] is
    its counter, [available] the length of [availableReplicas]. *)
Fixpoint healLoop (s : Server) (objectID : string) (available : Z)
         (availableSet : gset string) (targetNodes : list string) (replicated : Z)
         (fs : FS) : res Z * FS :=
  match targetNodes with
  | [] => (Ok replicated, fs)
  | targetNodeID :: rest =>
      if decide (targetNodeID ∈ availableSet)
      then healLoop s objectID available availableSet rest replicated fs
      else
        match ReplicateObject (storageManager s) objectID targetNodeID fs with
        | (Err _, fs1) => healLoop s objectID available availableSet rest replicated fs1
        | (Ok _, fs1) =>
            if available + (replicated + 1) >=? replication s
            then (Ok (replicated + 1), fs1)
            else healLoop s objectID available availableSet rest (replicated + 1) fs1
        | (Panic msg, fs1) => (Panic msg, fs1)
        | (Timeout, fs1) => (Timeout, fs1)
        end
  end.

(** [ensureReplication]; the result is the descriptor [meta] points to
    when the function returns. *)
Definition ensureReplication (s : Server) (objectID : string)
           (meta : metadata.ObjectMetadata) (w : World)
  : res metadata.ObjectMetadata * World :=
  match CheckReplicas (storageManager s) objectID (fs w) with
  | Ok availableReplicas =>
      if storage.len availableReplicas >=? replication s then (Ok meta, w)
      else
        match GetTargetNodes (storageManager s) objectID with
        | Ok targetNodes =>
            let availableSet : gset string := list_to_set availableReplicas in
            match healLoop s objectID (storage.len availableReplicas) availableSet
                           targetNodes 0 (fs w) with
            | (Ok replicated, fs1) =>
                if replicated >? 0 then
                  match CheckReplicas (storageManager s) objectID fs1 with
                  | Ok updatedReplicas =>
                      let meta' := setReplicas meta updatedReplicas in
                      (Ok meta', mkWorld fs1 (metadata.Save meta' (api.meta w)).2)
                  | Err e => (Err e, mkWorld fs1 (api.meta w))
                  | Panic msg => (Panic msg, mkWorld fs1 (api.meta w))
                  | Timeout => (Timeout, mkWorld fs1 (api.meta w))
                  end
                else (Ok meta, mkWorld fs1 (api.meta w))
            | (Err e, fs1) => (Err e, mkWorld fs1 (api.meta w))
            | (Panic msg, fs1) => (Panic msg, mkWorld fs1 (api.meta w))
            | (Timeout, fs1) => (Timeout, mkWorld fs1 (api.meta w))
            end
        | Err e => (Err e, w)
        | Panic msg => (Panic msg, w)
        | Timeout => (Timeout, w)
        end
  | Err e => (Err e, w)
  | Panic msg => (Panic msg, w)
  | Timeout => (Timeout, w)
  end.

(** A request as the handlers read it: the method, the path value [id],
    and the multipart form, which does not parse, has no part ["file"],
    or has one with its [Content-Type] header. *)
Inductive Form :=
  | BadForm
  | NoFile
  | FormFile (file : Reader) (contentType : string).

Record Request := mkRequest {
  Method : string;
  PathValue : string;
  form : Form
}.

Inductive Body :=
  | Text (msg : string)
  | Metadata (m : metadata.ObjectMetadata)
  | Bytes (data : list byte).

Record Response := mkResponse {
  StatusCode : Z;
  body : Body
}.

(** What a handler leaves behind: its response, the world, and the
    self-heal it started with [go], if any, which runs later. *)
Record Handled := mkHandled {
  response : Response;
  world : World;
  spawned : option (string * metadata.ObjectMetadata)
}.

(** [UploadHandler]; [now] is what [time.Now()] returns. *)
Definition UploadHandler (s : Server) (r : Request) (now : Z) (w : World) : res Handled :=
  if negb (String.eqb (Method r) "POST")
  then Ok (mkHandled (mkResponse 405 (Text "Method not allowed")) w None)
  else
    match form r with
    | BadForm => Ok (mkHandled (mkResponse 400 (Text "Failed to parse form")) w None)
    | NoFile => Ok (mkHandled (mkResponse 400 (Text "Failed to get file")) w None)
    | FormFile file header =>
        match ReadAll file (fs w) with
        | Fail _ => Ok (mkHandled (mkResponse 500 (Text "Failed to read file")) w None)
        | Val data =>
            let objectID := GenerateObjectID data in
            let existing :=
              if metadata.Exists objectID (meta w)
              then match metadata.Get objectID (meta w) with
                   | Val existingMeta => Some existingMeta
                   | Fail _ => None
                   end
              else None in
            match existing with
            | Some existingMeta =>
                Ok (mkHandled (mkResponse 200 (Metadata existingMeta)) w None)
            | None =>
                match StoreObject (storageManager s) objectID (BytesReader data None)
                                  (storage.len data) (fs w) with
                | (Err _, fs1) =>
                    Ok (mkHandled (mkResponse 500 (Text "Failed to store object"))
                                  (mkWorld fs1 (meta w)) None)
                | (Ok replicatedNodes, fs1) =>
                    let contentType :=
                      if String.eqb header "" then "application/octet-stream"%string
                      else header in
                    let meta' := metadata.mkMeta objectID (storage.len data) contentType
                                                 now replicatedNodes in
                    let w1 := mkWorld fs1 (metadata.Save meta' (meta w)).2 in
                    Ok (mkHandled (mkResponse 201 (Metadata meta')) w1
                                  (Some (objectID, meta')))
                | (Panic msg, _) => Panic msg
                | (Timeout, _) => Timeout
                end
            end
        end
    end.

(** What [GetObjectHandler] sends: the status and the body, and the
    [Content-Type] header when the handler sets it itself. *)
Record Served := mkServed {
  answer : Response;
  contentType : option string
}.

(** [GetObjectHandler]; the body is what [io.Copy] gets out of the
    reader before it ends. *)
Definition GetObjectHandler (s : Server) (r : Request) (w : World) : res Served :=
  if negb (String.eqb (Method r) "GET")
  then Ok (mkServed (mkResponse 405 (Text "Method not allowed")) None)
  else if String.eqb (PathValue r) ""
  then Ok (mkServed (mkResponse 400 (Text "Object ID is required")) None)
  else
    match RetrieveObject (storageManager s) (PathValue r) (fs w) with
    | Err _ => Ok (mkServed (mkResponse 404 (Text "Object not found")) None)
    | Ok reader =>
        let header :=
          match metadata.Get (PathValue r) (meta w) with
          | Val m => if String.eqb (metadata.ContentType m) "" then None
                     else Some (metadata.ContentType m)
          | Fail _ => None
          end in
        Ok (mkServed (mkResponse 200 (Bytes (drain (fs w) reader).1)) header)
    | Panic msg => Panic msg
    | Timeout => Timeout
    end.

(** [GetMetadataHandler]. *)
Definition GetMetadataHandler (s : Server) (r : Request) (w : World) : res Handled :=
  if negb (String.eqb (Method r) "GET")
  then Ok (mkHandled (mkResponse 405 (Text "Method not allowed")) w None)
  else if String.eqb (PathValue r) ""
  then Ok (mkHandled (mkResponse 400 (Text "Object ID is required")) w None)
  else
    match metadata.Get (PathValue r) (meta w) with
    | Fail _ => Ok (mkHandled (mkResponse 404 (Text "Metadata not found")) w None)
    | Val m =>
        match CheckReplicas (storageManager s) (PathValue r) (fs w) with
        | Ok availableReplicas =>
            let m' := setReplicas m availableReplicas in
            Ok (mkHandled (mkResponse 200 (Metadata m')) w
                  (if storage.len availableReplicas <? replication s
                   then Some (PathValue r, m') else None))
        | Err e => Err e
        | Panic msg => Panic msg
        | Timeout => Timeout
        end
    end.

(** The world after the self-heal a handler started has run, or has not
    run yet. *)
Definition afterHeal (s : Server) (h : Handled) (ran : bool) : World :=
  match spawned h, ran with
  | Some (objectID, m), true => (ensureReplication s objectID m (world h)).2
  | _, _ => world h
  end.

End api.

(** ** cmd/caskos *)

Module main.
Import filepath os storage.

(** The flags [main] reads. *)
Record Flags := mkFlags {
  dataDir : string;
  nodeCount : Z;
  replication : Z;
  virtualNodes : Z
}.

Definition defaults : Flags := mkFlags "./data" 3 2 150.

(** What the loop over the storage nodes builds: the ring and the nodes
    of the manager.  The manager holds the ring it was made with by
    pointer, so it sees the nodes added to it afterwards. *)
Record Setup := mkSetup {
  ring : hashring.HashRing;
  registered : gmap string Node
}.

Definition managerOf (flags : Flags) (st : Setup) : Manager :=
  mkManager (registered st) (ringOf (ring st)) (replication flags).

Definition serverOf (flags : Flags) (st : Setup) : api.Server :=
  api.mkServer (managerOf flags st) (replication flags).

(** One iteration of the loop; an error of [NewNode] ends the process
    ([os.Exit(1)]). *)
Definition createNode (flags : Flags) (st : Setup) (i : Z) (fs : FS)
  : res Setup * FS :=
  let nodeID := ("node" ++ fmt.itoa (i + 1))%string in
  let nodePath := show (Join [dataDir flags; nodeID]) in
  match NewNode nodeID nodePath fs with
  | (Ok node, fs1) =>
      (Ok (mkSetup (hashring.AddNode nodeID (ring st))
                   (<[nodeID := node]> (registered st))), fs1)
  | (Err e, fs1) => (Err e, fs1)
  | (Panic msg, fs1) => (Panic msg, fs1)
  | (Timeout, fs1) => (Timeout, fs1)
  end.

Fixpoint createNodes (flags : Flags) (st : Setup) (ixs : list Z) (fs : FS)
  : res Setup * FS :=
  match ixs with
  | [] => (Ok st, fs)
  | i :: rest =>
      match createNode flags st i fs with
      | (Ok st1, fs1) => createNodes flags st1 rest fs1
      | (Err e, fs1) => (Err e, fs1)
      | (Panic msg, fs1) => (Panic msg, fs1)
      | (Timeout, fs1) => (Timeout, fs1)
      end
  end.

(** The ring, the manager and the storage nodes of [main], from
    [hashring.NewHashRing] to the end of the loop [for i := 0; i <
    *nodeCount; i++]. *)
Definition setup (flags : Flags) (fs : FS) : res Setup * FS :=
  createNodes flags (mkSetup (hashring.NewHashRing (virtualNodes flags)) ∅)
              (seqZ 0 (nodeCount flags)) fs.

(** What holds of the ring, the registered nodes and the files after the
    rounds [ixs] of the loop: the manager and the ring have the same
    nodes, named [node<i+1>], each with its base directory in place. *)
Definition ready (flags : Flags) (ixs : list Z) (st : Setup) (fs : FS) : Prop :=
  dom (registered st) = dom (hashring.nodes (ring st)) ∧
  hashring.virtualNodes (ring st) = virtualNodes flags ∧
  Sorted Z.le (hashring.sortedHashes (ring st)) ∧
  (∀ t, t ∈ dom (registered st) ↔
        ∃ i, i ∈ ixs ∧ t = ("node" ++ fmt.itoa (i + 1))%string) ∧
  (∀ t n, registered st !! t = Some n →
          ID n = t ∧ BasePath n = show (Join [dataDir flags; t]) ∧
          ∃ mode, lookup fs (Clean (BasePath n)) = Some (Dir mode)).

End main.

(** ** Concrete scenarios

    The inputs of the repository's tests and of the scenarios of the
    specification, for the examples below. *)

Module scenario.
Import os io storage.

(** The bytes of S1: ["hello world\n"]. *)
Definition hello_world : list byte := bytes_of_string "hello world" ++ [x0a].

(** The node, identifier and data of the node tests ([TestNode_...]). *)
Definition test_node : Node := mkNode "test-node" "/tmp/storage-test".
Definition test_id : string := "abcdef1234567890abcdef1234567890".
Definition test_data : list byte := bytes_of_string "Test data".

(** An empty file system with a given umask and no faults. *)
Definition empty_fs (umask : Z) : FS := mkFS ∅ umask [].

(** A reader that fails after five bytes. *)
Definition broken_reader : Reader :=
  BytesReader (bytes_of_string "Test ") (Some (ErrReader "unexpected EOF")).

(** Two node identifiers whose only virtual keys, ["node11190:0"] and
    ["node89602:0"], hash to the same ring position [0x36ac3e6f]. *)
Definition collision_ring : hashring.HashRing :=
  hashring.AddNode "node89602" (hashring.AddNode "node11190" (hashring.NewHashRing 1)).

(** S1: three nodes under [data/], three virtual nodes each as in the
    repository's tests, replication factor 2. *)
Definition ring3 : hashring.HashRing :=
  hashring.AddNode "node3" (hashring.AddNode "node2"
    (hashring.AddNode "node1" (hashring.NewHashRing 3))).

(** The ring of S1 before [node3] joins. *)
Definition ring2 : hashring.HashRing :=
  hashring.AddNode "node2" (hashring.AddNode "node1" (hashring.NewHashRing 3)).

Definition node1 : Node := mkNode "node1" "data/node1".
Definition node2 : Node := mkNode "node2" "data/node2".
Definition node3 : Node := mkNode "node3" "data/node3".

Definition manager3 : Manager :=
  AddNode "node3" node3 (AddNode "node2" node2 (AddNode "node1" node1
    (NewManager (ringOf ring3) 2))).

Definition hello_id : string := GenerateObjectID hello_world.

(** The file system after the upload of S1; the ring targets of the
    object are [node1] and [node2]. *)
Definition stored_fs : FS :=
  (StoreObject manager3 hello_id (BytesReader hello_world None) 12
     (empty_fs (oct 0 2 2))).2.

(** S4: the copy on the first-choice target is removed. *)
Definition lost_fs : FS := (Delete node1 hello_id stored_fs).2.

(** The file system of the node tests after the object is stored. *)
Definition test_fs : FS :=
  (Store test_node test_id (BytesReader test_data None) (empty_fs (oct 0 2 2))).2.

(** A copy of the object of S1 on [node3], which is none of its ring
    targets, and the file system after the object is stored again. *)
Definition stale_fs : FS := (ReplicateObject manager3 hello_id "node3" stored_fs).2.

Definition restored_fs : FS :=
  (StoreObject manager3 hello_id (BytesReader hello_world None) 12 stale_fs).2.

(** The object of S1 survives on [node3] only, which is no target. *)
Definition orphan_fs : FS :=
  (Delete node2 hello_id (Delete node1 hello_id stale_fs).2).2.

(** S3: the upload of S1 while creating the blob on [node2] fails. *)
Definition degraded_fs : FS :=
  mkFS ∅ (oct 0 2 2) [(OpCreate, blobPath node2 hello_id)].

Definition partial_fs : FS :=
  (StoreObject manager3 hello_id (BytesReader hello_world None) 12 degraded_fs).2.

(** The copy of the object of S1 on [node1] emptied by a replication onto
    [node1] itself, and the same files while the blob on [node1] cannot be
    created. *)
Definition emptied_fs : FS := (ReplicateObject manager3 hello_id "node1" stored_fs).2.

Definition unwritable_fs : FS :=
  mkFS (entries emptied_fs) (umask emptied_fs) [(OpCreate, blobPath node1 hello_id)].

(** An identifier that climbs out of its shard directory into the place of
    the object of the node tests. *)
Definition climbing_id : string := ("xxyy/../../../ab/cd/" ++ test_id)%string.

(** The descriptor of the object of S1 with a given replica list, and an
    empty metadata store. *)
Definition descriptor (replicas : list string) : metadata.ObjectMetadata :=
  metadata.mkMeta hello_id 12 "text/plain" 1000 replicas.

Definition store0 : metadata.Store := metadata.mkStore ∅ false.

(** The server of S1 on an empty data directory, and the upload of the
    bytes of S1 at a given time. *)
Definition server3 : api.Server := api.mkServer manager3 2.

Definition world0 : api.World := api.mkWorld (empty_fs (oct 0 2 2)) store0.

Definition upload (now : Z) (w : api.World) : res api.Handled :=
  api.UploadHandler server3
    (api.mkRequest "POST" "" (api.FormFile (BytesReader hello_world None) "text/plain"))
    now w.

(** [main] with three nodes under [./data], replication factor 2 and
    three virtual nodes per node, on an empty file system. *)
Definition flags3 : main.Flags := main.mkFlags "./data" 3 2 3.

Definition started : main.Setup :=
  fromOk (main.mkSetup (hashring.NewHashRing 0) ∅)
         (main.setup flags3 (empty_fs (oct 0 2 2))).1.

Definition started_fs : FS := (main.setup flags3 (empty_fs (oct 0 2 2))).2.

Definition unanswered : api.Handled :=
  api.mkHandled (api.mkResponse 0 (api.Text "")) world0 None.

Definition uploaded : api.Handled := fromOk unanswered (upload 1000 world0).

(** S2: the same upload again, after the self-heal of the first one. *)
Definition uploadedAgain : api.Handled :=
  fromOk unanswered (upload 2000 (api.afterHeal server3 uploaded true)).

End scenario.

(* ================================================================== *)
(** * Theorems *)

Example sha256_constants :
  length sha256.K = 64%nat ∧ nth 0 sha256.K 0 = 0x428a2f98 ∧
  nth 63 sha256.K 0 = 0xc67178f2 ∧ sha256.h0 sha256.init = 0x6a09e667 ∧
  sha256.h7 sha256.init = 0x5be0cd19.
Proof. by vm_compute. Qed.

Example sha256_empty :
  hex.EncodeToString (sha256.Sum256 []) =
  "e3b0c44298fc1c149afbf4c8996fb92427ae41e4649b934ca495991b7852b855"%string.
Proof. vm_compute. reflexivity. Qed.

Example sha256_abc :
  hex.EncodeToString (sha256.Sum256 (bytes_of_string "abc")) =
  "ba7816bf8f01cfea414140de5dae2223b00361a396177a9cb410ff61f20015ad"%string.
Proof. vm_compute. reflexivity. Qed.

Example sha256_two_blocks :
  hex.EncodeToString (sha256.Sum256 (bytes_of_string
    "abcdbcdecdefdefgefghfghighijhijkijkljklmklmnlmnomnopnopq")) =
  "248d6a61d20638b8e5c026930c3e6039a33ce45964ff2167f6ecedd419db06c1"%string.
Proof. vm_compute. reflexivity. Qed.

Example sha256_full_block :
  hex.EncodeToString (sha256.Sum256 (repeat "a"%byte 64)) =
  "ffe054fe7ae0cb6dc65c3af9b61d5209f439851db43d0ba5997337df154668eb"%string.
Proof. vm_compute. reflexivity. Qed.

Example ring_three_nodes :
  hashring.GetNodes
    (hashring.AddNode "node3" (hashring.AddNode "node2"
       (hashring.AddNode "node1" (hashring.NewHashRing 3)))) "test-key" 2
  = Ok ["node1"; "node2"]%string.
Proof. vm_compute. reflexivity. Qed.

(** ** Object identifiers *)

Section object_id.

Lemma be_bytes_length n x : length (sha256.be_bytes n x) = n.
Proof. unfold sha256.be_bytes. by rewrite length_map, length_rev, length_seq. Qed.

Lemma Sum256_length data : length (sha256.Sum256 data) = 32%nat.
Proof.
  unfold sha256.Sum256, sha256.digest_bytes.
  by rewrite !length_app, !be_bytes_length.
Qed.

Lemma EncodeToString_length src :
  String.length (hex.EncodeToString src) = (2 * length src)%nat.
Proof. induction src as [|v src IH]; simpl; [done|]. rewrite IH. lia. Qed.

Lemma EncodeToString_lower src : hex.allLowerHex (hex.EncodeToString src) = true.
Proof.
  induction src as [|v src IH]; simpl; [done|]. rewrite IH.
  destruct v; vm_compute; reflexivity.
Qed.

(** C2. [GenerateObjectID] (the spec's [ComputeObjectID]) is the SHA-256
    of the bytes in lowercase hexadecimal: 32 bytes, hence exactly 64
    characters, each one of [0-9a-f]; on the bytes ["hello world\n"] it
    is [a948904f...a447]. *)
Theorem GenerateObjectID_sha256_hex (b : list byte) :
  storage.GenerateObjectID b = hex.EncodeToString (sha256.Sum256 b) ∧
  length (sha256.Sum256 b) = 32%nat ∧
  String.length (storage.GenerateObjectID b) = 64%nat ∧
  hex.allLowerHex (storage.GenerateObjectID b) = true ∧
  storage.GenerateObjectID scenario.hello_world =
    "a948904f2f0f479b8f8197694b30184b0d2ed1c1cd2a1ec0fb85d299a192a447"%string.
Proof.
  unfold storage.GenerateObjectID. split; [done|]. split; [apply Sum256_length|].
  split; [by rewrite EncodeToString_length, Sum256_length|].
  split; [apply EncodeToString_lower|]. vm_compute. reflexivity.
Qed.

End object_id.

(** ** The hash ring *)

Section ring.
Import hashring.
Local Arguments hashKey : simpl never.
Local Arguments virtualKey : simpl never.
Local Opaque hashKey virtualKey.

Lemma search_loop_bounds fuel f i j :
  i ≤ j → i ≤ sort.search_loop fuel f i j ≤ j.
Proof.
  revert i j. induction fuel as [|fuel IH]; intros i j Hij; simpl; [lia|].
  destruct (Z.ltb_spec i j) as [Hlt|Hge]; [|lia].
  assert (i ≤ (i + j) / 2 < j) as Hmid.
  { split; [apply Z.div_le_lower_bound | apply Z.div_lt_upper_bound]; lia. }
  destruct (negb (f ((i + j) / 2))).
  - specialize (IH ((i + j) / 2 + 1) j). lia.
  - specialize (IH i ((i + j) / 2)). lia.
Qed.

(** The binary search does not run out of fuel: with [j - i] iterations
    left the interval is empty when the loop stops. *)
Lemma search_loop_enough fuel fuel' f i j :
  i ≤ j → j - i ≤ Z.of_nat fuel → j - i ≤ Z.of_nat fuel' →
  sort.search_loop fuel f i j = sort.search_loop fuel' f i j.
Proof.
  revert fuel' i j. induction fuel as [|fuel IH]; intros fuel' i j Hij Hf Hf'.
  - assert (i = j) as -> by lia. destruct fuel'; simpl; [done|].
    by rewrite Z.ltb_irrefl.
  - destruct fuel' as [|fuel'].
    + assert (i = j) as -> by lia. simpl. by rewrite Z.ltb_irrefl.
    + simpl. destruct (Z.ltb_spec i j) as [Hlt|Hge]; [|done].
      assert (i ≤ (i + j) / 2 < j) as Hmid.
      { split; [apply Z.div_le_lower_bound | apply Z.div_lt_upper_bound]; lia. }
      destruct (negb (f ((i + j) / 2))); apply IH; lia.
Qed.

(** On a monotone predicate the search returns the least index at which
    it holds. *)
Lemma search_loop_least fuel f i j :
  i ≤ j → j - i ≤ Z.of_nat fuel →
  (∀ x y, i ≤ x → x ≤ y → y < j → f x = true → f y = true) →
  let r := sort.search_loop fuel f i j in
  (∀ x, i ≤ x < r → f x = false) ∧ (∀ x, r ≤ x < j → f x = true).
Proof.
  revert i j. induction fuel as [|fuel IH]; intros i j Hij Hf Hmono; simpl.
  - split; intros; lia.
  - destruct (Z.ltb_spec i j) as [Hlt|Hge]; [|split; intros; lia].
    assert (i ≤ (i + j) / 2 < j) as Hmid.
    { split; [apply Z.div_le_lower_bound | apply Z.div_lt_upper_bound]; lia. }
    destruct (f ((i + j) / 2)) eqn:Hfh; simpl.
    + destruct (IH i ((i + j) / 2)) as [IH1 IH2]; [lia|lia| |].
      { intros x y ????. apply (Hmono x); [lia..|done]. }
      split; [done|]. intros x Hx.
      destruct (Z.lt_ge_cases x ((i + j) / 2)); [apply IH2; lia|].
      apply (Hmono ((i + j) / 2)); [lia..|done].
    + destruct (IH ((i + j) / 2 + 1) j) as [IH1 IH2]; [lia|lia| |].
      { intros x y ????. apply (Hmono x); [lia..|done]. }
      split; [|done]. intros x Hx.
      destruct (Z.lt_ge_cases ((i + j) / 2) x); [apply IH1; lia|].
      destruct (f x) eqn:Hfx; [|done].
      rewrite <- Hfh. symmetry. apply (Hmono x); [lia..|done].
Qed.

Lemma findNodeIndex_range hr h :
  sortedHashes hr ≠ [] →
  0 ≤ findNodeIndex hr h < len (sortedHashes hr).
Proof.
  intros Hne. unfold findNodeIndex, sort.Search.
  assert (0 < len (sortedHashes hr)) as Hpos.
  { unfold len. destruct (sortedHashes hr); [done|simpl; lia]. }
  match goal with |- context [sort.search_loop ?n ?f ?i ?j] =>
    pose proof (search_loop_bounds n f i j ltac:(lia)) as Hb end.
  destruct (Z.eqb_spec
    (sort.search_loop (Z.to_nat (len (sortedHashes hr)))
       (λ i, default 0 (sortedHashes hr !! Z.to_nat i) >=? h) 0
       (len (sortedHashes hr))) (len (sortedHashes hr))); lia.
Qed.

Lemma mod_step s k T :
  0 < T → ((s + k) mod T + 1) mod T = (s + (k + 1)) mod T.
Proof. intros. rewrite Zplus_mod_idemp_l. f_equal. lia. Qed.

Lemma mod_wraps s k T :
  0 ≤ s < T → 0 ≤ k < T → (s + (k + 1)) mod T = s ↔ k + 1 = T.
Proof.
  intros Hs Hk. split.
  - intros Hm.
    pose proof (Z.div_mod (s + (k + 1)) T ltac:(lia)) as Hdm.
    rewrite Hm in Hdm.
    assert ((s + (k + 1)) `div` T = 1) by nia. nia.
  - intros ->. replace (s + T) with (s + 1 * T) by lia.
    rewrite Z_mod_plus_full. apply Z.mod_small. lia.
Qed.

Lemma mod_reach s i T :
  0 ≤ s < T → 0 ≤ i < T → (s + (i - s) mod T) mod T = i.
Proof.
  intros Hs Hi. rewrite Zplus_mod_idemp_r.
  replace (s + (i - s)) with i by lia. apply Z.mod_small. lia.
Qed.

Lemma len_app {A} (l : list A) x : len (l ++ [x]) = len l + 1.
Proof. unfold len. rewrite length_app. simpl. lia. Qed.

Lemma ownerAt_lookup hr idx :
  0 ≤ idx < len (sortedHashes hr) →
  default EmptyString
    (hashToNode hr !! default 0 (sortedHashes hr !! Z.to_nat idx)) = ownerAt hr idx
  ∧ ownerAt hr idx ∈ owners hr.
Proof.
  intros Hi. unfold ownerAt, owners, len in *.
  destruct (lookup_lt_is_Some_2 (sortedHashes hr) (Z.to_nat idx) ltac:(lia))
    as [h Hh].
  rewrite list_lookup_fmap, Hh. simpl. split; [done|].
  apply list_elem_of_fmap. exists h. split; [done|].
  by eapply list_elem_of_lookup_2.
Qed.

Lemma owners_lookup hr x :
  x ∈ owners hr → ∃ i, 0 ≤ i < len (sortedHashes hr) ∧ ownerAt hr i = x.
Proof.
  intros Hx. apply list_elem_of_lookup in Hx as [i Hi].
  exists (Z.of_nat i). unfold ownerAt. rewrite Nat2Z.id, Hi. split; [|done].
  apply lookup_lt_Some in Hi. unfold owners in Hi. rewrite length_fmap in Hi.
  unfold len. lia.
Qed.

(** What one iteration does to [nodes] and [seen]. *)
Lemma collect_step (ns : list string) (seen : gset string) nodeID :
  NoDup ns → (∀ x, x ∈ seen ↔ x ∈ ns) →
  let ns' := if decide (nodeID ∈ seen) then ns else ns ++ [nodeID] in
  let seen' := if decide (nodeID ∈ seen) then seen else {[nodeID]} ∪ seen in
  NoDup ns' ∧ (∀ x, x ∈ seen' ↔ x ∈ ns') ∧
  (∀ x, x ∈ ns' ↔ x ∈ ns ∨ x = nodeID) ∧ len ns ≤ len ns' ≤ len ns + 1.
Proof.
  intros Hnd Hseen. simpl. destruct (decide (nodeID ∈ seen)) as [Hin|Hnin].
  - split; [done|]. split; [done|]. split; [|lia].
    intros x. split; [by left|]. intros [?| ->]; [done|]. by apply Hseen.
  - split.
    { apply NoDup_app. split; [done|]. split; [|apply NoDup_singleton].
      intros x Hx ->%list_elem_of_singleton. by apply Hnin, Hseen. }
    split.
    { intros x.
      rewrite elem_of_union, elem_of_singleton, elem_of_app, list_elem_of_singleton.
      rewrite Hseen. tauto. }
    split.
    { intros x. rewrite elem_of_app, list_elem_of_singleton. tauto. }
    rewrite len_app. lia.
Qed.

(** Distinctness needs nothing of the ring: [seen] filters every repeat. *)
Lemma collect_NoDup fuel hr hash count idx ns seen l :
  NoDup ns → (∀ x, x ∈ seen ↔ x ∈ ns) →
  collect fuel hr hash count idx ns seen = Ok l → NoDup l.
Proof.
  revert idx ns seen. induction fuel as [|fuel IH]; intros idx ns seen Hnd Hseen; simpl.
  - destruct (len ns <? count); [done|]. by intros [= <-].
  - destruct (len ns <? count); [|by intros [= <-]].
    destruct ((idx <? 0) || (len (sortedHashes hr) <=? idx)); [done|].
    match goal with |- context [decide (?n ∈ seen)] =>
      destruct (collect_step ns seen n Hnd Hseen) as (Hnd' & Hseen' & _) end.
    simpl in Hnd', Hseen'.
    match goal with |- context [if ?c then Ok _ else _] => destruct c end.
    + by intros [= <-].
    + by apply IH.
Qed.

(** The loop terminates within one turn of the ring, and stops short of
    [count] only after it has seen every position. *)
Lemma collect_spec hr hash count fuel :
  sortedHashes hr ≠ [] →
  ∀ k ns seen,
    0 ≤ k → len (sortedHashes hr) - k ≤ Z.of_nat fuel →
    (k < len (sortedHashes hr) ∨ count ≤ len ns) →
    NoDup ns → (∀ x, x ∈ seen ↔ x ∈ ns) →
    (∀ x, x ∈ ns ↔ ∃ j, 0 ≤ j < k ∧
       ownerAt hr ((findNodeIndex hr hash + j) mod len (sortedHashes hr)) = x) →
    len ns ≤ count →
    ∃ l, collect fuel hr hash count
           ((findNodeIndex hr hash + k) mod len (sortedHashes hr)) ns seen = Ok l
         ∧ NoDup l ∧ (∀ x, x ∈ l → x ∈ owners hr)
         ∧ (len l = count ∨ (len l < count ∧ ∀ x, x ∈ owners hr → x ∈ l)).
Proof.
  intros Hne. pose proof (findNodeIndex_range hr hash Hne) as Hstart.
  set (T := len (sortedHashes hr)) in *. set (start := findNodeIndex hr hash) in *.
  assert (∀ k (ns : list string),
            (∀ x, x ∈ ns ↔ ∃ j, 0 ≤ j < k ∧ ownerAt hr ((start + j) mod T) = x) →
                  ∀ x, x ∈ ns → x ∈ owners hr) as Hsub.
  { intros k ns Hvis x [j [Hj <-]]%Hvis. apply ownerAt_lookup.
    apply Z.mod_pos_bound. lia. }
  induction fuel as [|fuel IH]; intros k ns seen Hk Hfuel Hcase Hnd Hseen Hvis Hle.
  - simpl; fold T start. destruct (Z.ltb_spec (len ns) count) as [Hlt|Hge]; [lia|].
    exists ns. repeat split; [done|by eapply Hsub|left; lia].
  - simpl; fold T start. destruct (Z.ltb_spec (len ns) count) as [Hlt|Hge].
    2:{ exists ns. repeat split; [done|by eapply Hsub|left; lia]. }
    assert (k < T) as HkT by lia.
    pose proof (Z.mod_pos_bound (start + k) T ltac:(lia)) as Hidx.
    destruct (Z.ltb_spec ((start + k) mod T) 0); [lia|].
    destruct (Z.leb_spec T ((start + k) mod T)); [lia|]. simpl; fold T start.
    destruct (ownerAt_lookup hr ((start + k) mod T) Hidx) as [-> Hown].
    destruct (collect_step ns seen (ownerAt hr ((start + k) mod T)) Hnd Hseen)
      as (Hnd' & Hseen' & Hns' & Hlen').
    simpl in Hnd', Hseen', Hns', Hlen'.
    set (ns' := if decide (ownerAt hr ((start + k) mod T) ∈ seen) then ns
                else ns ++ [ownerAt hr ((start + k) mod T)]) in *.
    set (seen' := if decide (ownerAt hr ((start + k) mod T) ∈ seen) then seen
                  else {[ownerAt hr ((start + k) mod T)]} ∪ seen) in *.
    assert (∀ x, x ∈ ns' ↔ ∃ j, 0 ≤ j < k + 1 ∧ ownerAt hr ((start + j) mod T) = x)
      as Hvis'.
    { intros x. rewrite Hns', Hvis. split.
      - intros [[j [Hj Hx]]| ->]; [exists j; split; [lia|done]|].
        exists k. split; [lia|done].
      - intros [j [Hj Hx]]. destruct (decide (j = k)) as [->|Hjk]; [by right|].
        left. exists j. split; [lia|done]. }
    rewrite mod_step; [|lia].
    destruct (Z.eqb_spec ((start + (k + 1)) mod T) start) as [Hwrap|Hnowrap]; simpl; fold T start.
    + apply mod_wraps in Hwrap; [|lia..].
      destruct (Z.ltb_spec (len ns') count) as [Hlt'|Hge'].
      * exists ns'. repeat split; [done|by eapply Hsub|]. right. split; [done|].
        intros x [i [Hi <-]]%owners_lookup. apply Hvis'.
        exists ((i - start) mod T). split.
        -- pose proof (Z.mod_pos_bound (i - start) T ltac:(lia)). lia.
        -- by rewrite mod_reach.
      * apply IH; try done; lia.
    + assert (k + 1 ≠ T) by (intros ?; apply Hnowrap, mod_wraps; lia).
      apply IH; try done; lia.
Qed.

Lemma collect_from_start hr hash count :
  sortedHashes hr ≠ [] → 0 ≤ count →
  ∃ l, collect (S (length (sortedHashes hr))) hr hash count
         (findNodeIndex hr hash) [] ∅ = Ok l
       ∧ NoDup l ∧ (∀ x, x ∈ l → x ∈ owners hr)
       ∧ (len l = count ∨ (len l < count ∧ ∀ x, x ∈ owners hr → x ∈ l)).
Proof.
  intros Hne Hcount. pose proof (findNodeIndex_range hr hash Hne) as Hr.
  destruct (collect_spec hr hash count (S (length (sortedHashes hr))) Hne 0 [] ∅)
    as (l & Hl & Hrest).
  - lia.
  - unfold len. lia.
  - left. lia.
  - apply NoDup_nil_2.
  - intros x. split; [by intros ?%elem_of_empty|by intros ?%elem_of_nil].
  - intros x. split; [by intros ?%elem_of_nil|intros [j [? _]]; lia].
  - unfold len. simpl. lia.
  - rewrite Z.add_0_r, Z.mod_small in Hl by done. by exists l.
Qed.

(** [GetNodes] never exhausts its fuel and never returns an [error]. *)
Lemma GetNodes_returns hr key count :
  (∃ l, GetNodes hr key count = Ok l) ∨ (∃ msg, GetNodes hr key count = Panic msg).
Proof.
  unfold GetNodes. destruct (_ =? 0); [left; eexists; reflexivity|].
  set (c := if count >? _ then _ else count).
  destruct (Z.ltb_spec c 0) as [|Hc]; [right; eexists; reflexivity|].
  destruct (decide (sortedHashes hr = [])) as [Hnil|Hne].
  - assert (findNodeIndex hr (hashKey key) = 0) as ->.
    { unfold findNodeIndex, sort.Search. by rewrite Hnil. }
    unfold collect. rewrite Hnil. change (len []) with 0. simpl.
    destruct (0 <? c); [right; eexists; reflexivity|left; eexists; reflexivity].
  - pose proof (findNodeIndex_range hr (hashKey key) Hne) as Hr.
    destruct (Z.eqb_spec (findNodeIndex hr (hashKey key)) (-1)); [lia|].
    destruct (collect_from_start hr (hashKey key) c Hne Hc) as (l & Hl & _).
    left. by exists l.
Qed.

Lemma GetNodes_NoDup hr key count l :
  GetNodes hr key count = Ok l → NoDup l.
Proof.
  unfold GetNodes. destruct (_ =? 0); [intros [= <-]; apply NoDup_nil_2|].
  destruct (_ <? 0); [done|]. destruct (_ =? -1); [intros [= <-]; apply NoDup_nil_2|].
  apply collect_NoDup; [apply NoDup_nil_2|]. intros x. set_solver.
Qed.

Lemma GetNodes_empty_ring hr key count :
  nodes hr = ∅ → GetNodes hr key count = Ok [].
Proof. intros Hn. unfold GetNodes. by rewrite Hn, map_size_empty. Qed.

(** On a consistent ring [GetNodes] returns [min(count, N)] distinct
    physical nodes. *)
Lemma GetNodes_spec hr key count :
  ring_ok hr → 0 ≤ count →
  ∃ l, GetNodes hr key count = Ok l ∧ NoDup l ∧
       len l = Z.min count (NodeCount hr) ∧ (∀ x, x ∈ l → x ∈ dom (nodes hr)).
Proof.
  intros Hok Hcount. unfold GetNodes, NodeCount.
  destruct (Z.eqb_spec (Z.of_nat (size (nodes hr))) 0) as [H0|HN].
  { exists []. rewrite H0. repeat split; [apply NoDup_nil_2|unfold len; simpl; lia|].
    by intros x ?%elem_of_nil. }
  set (c := if count >? _ then _ else count).
  assert (c = Z.min count (Z.of_nat (size (nodes hr)))) as Hc.
  { unfold c. destruct (Z.gtb_spec count (Z.of_nat (size (nodes hr)))); lia. }
  destruct (Z.ltb_spec c 0) as [|_]; [lia|].
  assert (sortedHashes hr ≠ []) as Hne.
  { intros Hnil. apply HN. rewrite <- size_dom, Hok. unfold owners.
    by rewrite Hnil. }
  pose proof (findNodeIndex_range hr (hashKey key) Hne) as Hr.
  destruct (Z.eqb_spec (findNodeIndex hr (hashKey key)) (-1)); [lia|].
  destruct (collect_from_start hr (hashKey key) c Hne ltac:(lia))
    as (l & Hl & Hnd & Hsub & Hlen).
  exists l. split; [done|]. split; [done|].
  assert (∀ x, x ∈ l → x ∈ dom (nodes hr)) as Hdom.
  { intros x Hx. rewrite Hok. apply elem_of_list_to_set. by apply Hsub. }
  split; [|done]. rewrite <- Hc.
  destruct Hlen as [Hlen|[Hlt Hall]]; [done|]. exfalso.
  assert (size (dom (nodes hr)) ≤ length l)%nat as Hsz.
  { rewrite <- (size_list_to_set (C := gset string) l Hnd).
    apply subseteq_size. intros x Hx. rewrite Hok in Hx.
    apply elem_of_list_to_set. apply Hall. by apply elem_of_list_to_set in Hx. }
  rewrite size_dom in Hsz. unfold len in Hlt. lia.
Qed.

(** *** Building the ring *)

Lemma NewHashRing_ok v : ring_ok (NewHashRing v).
Proof. unfold ring_ok, owners. simpl. by rewrite dom_empty_L. Qed.

Lemma foldl_addVirtual nodeID (ixs : list Z) hr :
  let hr' := foldl (addVirtual nodeID) hr ixs in
  let hs := (λ i, hashKey (virtualKey nodeID i)) <$> ixs in
  nodes hr' = nodes hr ∧ virtualNodes hr' = virtualNodes hr ∧
  sortedHashes hr' = sortedHashes hr ++ hs ∧
  ∀ h, hashToNode hr' !! h =
       if decide (h ∈ hs) then Some nodeID else hashToNode hr !! h.
Proof.
  revert hr. induction ixs as [|i ixs IH]; intros hr; simpl.
  - split; [done|]. split; [done|]. split; [by rewrite app_nil_r|].
    intros h. destruct (decide (h ∈ [])) as [?%elem_of_nil|]; done.
  - destruct (IH (addVirtual nodeID hr i)) as (Hn & Hv & Hs & Hm).
    split; [by rewrite Hn|]. split; [by rewrite Hv|].
    split; [rewrite Hs; simpl; by rewrite <- app_assoc|].
    intros h. rewrite Hm. simpl.
    destruct (decide (h ∈ _)) as [Hin|Hnin];
      destruct (decide (h ∈ _ :: _)) as [Hin'|Hnin']; try done.
    + exfalso. apply Hnin'. by right.
    + apply elem_of_cons in Hin' as [->|?]; [|done]. apply lookup_insert_eq.
    + rewrite lookup_insert_ne; [done|]. intros <-. apply Hnin'. by left.
Qed.

(** Adding a node keeps the ring consistent as long as none of its
    virtual hashes is already a position of the ring. *)
Lemma AddNode_ring_ok nodeID hr :
  ring_ok hr → 0 < virtualNodes hr →
  (∀ h, h ∈ virtualHashes hr nodeID → h ∉ sortedHashes hr) →
  ring_ok (AddNode nodeID hr).
Proof.
  intros Hok HV Hfresh. unfold AddNode. destruct (nodes hr !! nodeID); [done|].
  match goal with |- context [foldl ?f ?a ?l] =>
    destruct (foldl_addVirtual nodeID l a) as (Hn & Hv & Hs & Hm) end.
  simpl in Hn, Hv, Hs, Hm. fold (virtualHashes hr nodeID) in Hs, Hm.
  unfold ring_ok, owners in *. simpl. rewrite Hn. apply set_eq. intros x.
  rewrite dom_insert_L, elem_of_union, elem_of_singleton, Hok.
  rewrite !elem_of_list_to_set, !list_elem_of_fmap. split.
  - intros [->|(h & -> & Hh)].
    + exists (hashKey (virtualKey nodeID 0)).
      assert (hashKey (virtualKey nodeID 0) ∈ virtualHashes hr nodeID) as Hin.
      { apply list_elem_of_fmap. exists 0. split; [done|]. apply elem_of_seqZ. lia. }
      rewrite Hm, decide_True by done. split; [done|].
      unfold sort.Slice. rewrite merge_sort_Permutation, Hs. apply elem_of_app. by right.
    + exists h. rewrite Hm, decide_False by (intros ?; by eapply Hfresh).
      split; [done|]. unfold sort.Slice.
      rewrite merge_sort_Permutation, Hs. apply elem_of_app. by left.
  - intros (h & -> & Hh). unfold sort.Slice in Hh.
    rewrite merge_sort_Permutation, Hs in Hh. rewrite Hm.
    destruct (decide (h ∈ virtualHashes hr nodeID)) as [Hin|Hnin]; [by left|].
    right. exists h. split; [done|].
    apply elem_of_app in Hh as [?|?]; done.
Qed.

End ring.

(** C3. On the ring with one virtual node per physical node and the two
    nodes ["node11190"] and ["node89602"], whose virtual keys hash to the
    same position, [hashToNode] keeps one owner for both positions:
    [GetNodes] asked for two nodes returns one, although the ring counts
    two physical nodes.  (Distinctness holds on every ring, and the length
    [min(count, N)] on every consistent ring: [GetNodes_NoDup],
    [GetNodes_spec].) *)
Theorem GetNodes_short_on_collision :
  hashring.NodeCount scenario.collision_ring = 2 ∧
  hashring.sortedHashes scenario.collision_ring = [0x36ac3e6f; 0x36ac3e6f] ∧
  hashring.GetNodes scenario.collision_ring "test-key" 2 = Ok ["node89602"]%string.
Proof. by vm_compute. Qed.

(** Removing the surviving owner leaves a position without owner, which
    [GetNodes] then reports as the node [""]. *)
Example GetNodes_orphan_after_remove :
  hashring.GetNodes (hashring.RemoveNode "node89602" scenario.collision_ring)
    "test-key" 1 = Ok [""]%string.
Proof. by vm_compute. Qed.

(** The three-node ring of the repository's tests is consistent. *)
Example ring_three_nodes_ok :
  hashring.ring_ok (hashring.AddNode "node3" (hashring.AddNode "node2"
    (hashring.AddNode "node1" (hashring.NewHashRing 3)))).
Proof. unfold hashring.ring_ok. apply (bool_decide_unpack _). by vm_compute. Qed.


(** ** Paths *)

Section filepath_facts.
Import filepath.
Local Open Scope string_scope.

Lemma string_app_assoc (a b c : string) : (a ++ b) ++ c = a ++ (b ++ c).
Proof.
  induction a as [|x a IH]; [done|].
  change (String x ((a ++ b) ++ c) = String x (a ++ (b ++ c))). by f_equal.
Qed.

Lemma app_String x (a b : string) : String x a ++ b = String x (a ++ b).
Proof. done. Qed.

Lemma app_Empty (b : string) : "" ++ b = b.
Proof. done. Qed.

Lemma split_nonnil s : split s ≠ [].
Proof. destruct s as [|c s]; simpl; [done|]. destruct (Ascii.eqb c "/"); [done|]. by destruct (split s). Qed.

Lemma split_app a b : split (a ++ "/" ++ b) = (split a ++ split b)%list.
Proof.
  induction a as [|c a IH]; [done|]. rewrite app_String. simpl. rewrite IH.
  destruct (Ascii.eqb c "/"); [done|].
  pose proof (split_nonnil a). by destruct (split a).
Qed.

Lemma split_no_root s : Forall (λ c, c ≠ "/") (split s).
Proof.
  induction s as [|c s IH]; simpl; [by repeat constructor|].
  destruct (Ascii.eqb_spec c "/") as [->|Hc]; [by constructor|].
  destruct (split s) as [|x xs]; [constructor; [congruence|done]|].
  inversion IH; subst. constructor; [congruence|done].
Qed.

Lemma split_plain s : plain s = true → split s = [s].
Proof.
  induction s as [|c s IH]; simpl; [done|].
  intros [[Hc _]%andb_true_iff Hs]%andb_true_iff.
  apply negb_true_iff in Hc. rewrite Hc, (IH Hs). done.
Qed.

Lemma cleanStep_plain r stk c :
  plain c = true → c ≠ "" → cleanStep r stk c = c :: stk.
Proof.
  intros Hp Hne. destruct c as [|x c]; [done|]. simpl in Hp.
  apply andb_true_iff in Hp as [[_ Hdot]%andb_true_iff _].
  apply negb_true_iff in Hdot. destruct (Ascii.eqb_spec x "."); [done|].
  unfold cleanStep.
  rewrite bool_decide_eq_false_2 by (intros [?|?]; congruence).
  rewrite bool_decide_eq_false_2 by congruence. done.
Qed.

Lemma isAbs_app a b : a ≠ "" → isAbs (a ++ b) = isAbs a.
Proof. by destruct a. Qed.

Lemma concat_snoc sep es e :
  es ≠ [] → concat sep (es ++ [e]) = concat sep es ++ sep ++ e.
Proof.
  induction es as [|x [|y es] IH]; intros Hne; [done|done|].
  change (concat sep ((x :: y :: es) ++ [e]))
    with (x ++ sep ++ concat sep ((y :: es) ++ [e])).
  rewrite IH by done.
  change (concat sep (x :: y :: es)) with (x ++ sep ++ concat sep (y :: es)).
  by rewrite !string_app_assoc.
Qed.

Lemma concat_nonempty sep es :
  es ≠ [] → Forall (λ e, e ≠ "") es → concat sep es ≠ "".
Proof.
  destruct es as [|x [|y es]]; [done| |]; intros _ Hall; inversion Hall; subst.
  - done.
  - change (concat sep (x :: y :: es)) with (x ++ sep ++ concat sep (y :: es)).
    by destruct x.
Qed.

Lemma nonempty_Forall es : Forall (λ e, e ≠ "") (nonempty es).
Proof. apply Forall_forall. by intros e [? _]%list_elem_of_filter. Qed.

Lemma nonempty_snoc es e : e ≠ "" → nonempty (es ++ [e]) = (nonempty es ++ [e])%list.
Proof.
  intros He. unfold nonempty. rewrite filter_app. f_equal.
  by rewrite filter_cons_True.
Qed.

Lemma cleanStep_Forall (P : string → Prop) r stk c :
  Forall P stk → P c → Forall P (cleanStep r stk c).
Proof.
  intros Hstk Hc. unfold cleanStep.
  repeat case_bool_decide; try done; try (by constructor).
  - destruct stk; [destruct r; by repeat constructor|].
    case_bool_decide; [by constructor|]. by inversion Hstk.
Qed.

Lemma foldl_cleanStep_Forall (P : string → Prop) r cs stk :
  Forall P stk → Forall P cs → Forall P (foldl (cleanStep r) stk cs).
Proof.
  revert stk. induction cs as [|c cs IH]; intros stk Hstk Hcs; simpl; [done|].
  inversion Hcs; subst. apply IH; [|done]. by apply cleanStep_Forall.
Qed.

Lemma mkpath_inv r stk :
  Forall (λ c, c ≠ "/") stk →
  rooted (mkpath r stk) = r ∧
  rev (if r then tl (mkpath r stk) else mkpath r stk) = stk.
Proof.
  intros Hall. unfold mkpath. destruct r; simpl.
  - split; [done|]. apply rev_involutive.
  - split; [|apply rev_involutive].
    destruct (rev stk) as [|c l] eqn:Hrev; [done|]. simpl.
    apply bool_decide_eq_false_2.
    apply (proj1 (Forall_forall _ _) Hall).
    apply list_elem_of_In, in_rev. rewrite Hrev. by left.
Qed.

(** Joining one more element to a joined path is joining all at once. *)
Lemma JoinPath_Join es e :
  nonempty es ≠ [] → e ≠ "" → JoinPath (Join es) [e] = Join (es ++ [e]).
Proof.
  intros Hes He. unfold JoinPath, Join, Clean.
  rewrite nonempty_snoc, concat_snoc by done.
  set (x := concat "/" (nonempty es)).
  assert (x ≠ "") as Hx by (apply concat_nonempty; [done|apply nonempty_Forall]).
  rewrite isAbs_app, split_app, foldl_app by done.
  destruct (mkpath_inv (isAbs x) (foldl (cleanStep (isAbs x)) [] (split x)))
    as [-> ->].
  { apply foldl_cleanStep_Forall; [constructor|apply split_no_root]. }
  unfold nonempty. rewrite filter_cons_True by done. rewrite filter_nil. done.
Qed.

Lemma plain_not_abs e : plain e = true → isAbs e = false.
Proof.
  destruct e as [|c e]; [done|]. simpl.
  intros [[Hc _]%andb_true_iff _]%andb_true_iff. by apply negb_true_iff.
Qed.

(** A plain name is appended as it is. *)
Lemma Join_plain es e :
  plain e = true → e ≠ "" → Join (es ++ [e]) = (Join es ++ [e])%list.
Proof.
  intros Hp He. unfold Join, Clean. rewrite nonempty_snoc by done.
  destruct (decide (nonempty es = [])) as [->|Hes].
  - simpl. rewrite plain_not_abs, split_plain by done. simpl.
    by rewrite cleanStep_plain.
  - rewrite concat_snoc by done.
    set (x := concat "/" (nonempty es)).
    assert (x ≠ "") as Hx by (apply concat_nonempty; [done|apply nonempty_Forall]).
    rewrite isAbs_app, split_app, foldl_app, (split_plain e) by done.
    simpl. rewrite cleanStep_plain by done.
    unfold mkpath. simpl. by rewrite app_assoc.
Qed.

Lemma Join_single b : Join [b] = Clean b.
Proof.
  unfold Join, nonempty. destruct (decide (b = "")) as [->|Hb].
  - by rewrite filter_cons_False by (intros ?; done).
  - by rewrite filter_cons_True.
Qed.

Lemma substring_length s : ∀ n m,
  (n + m ≤ String.length s)%nat → String.length (substring n m s) = m.
Proof.
  induction s as [|c s IH]; intros [|n] [|m]; simpl; intros Hle; try done; try lia.
  - f_equal. apply (IH 0%nat). simpl. lia.
  - apply IH. lia.
  - apply IH. lia.
Qed.

Lemma substring_plain s : ∀ n m, plain s = true → plain (substring n m s) = true.
Proof.
  induction s as [|c s IH]; intros [|n] [|m]; simpl; try done.
  - intros [-> Hs]%andb_true_iff. simpl. by apply IH.
  - intros [_ Hs]%andb_true_iff. by apply IH.
  - intros [_ Hs]%andb_true_iff. by apply IH.
Qed.

Lemma length_nonempty (s : string) : (0 < String.length s)%nat → s ≠ "".
Proof. destruct s; simpl; [lia|done]. Qed.

End filepath_facts.

(** ** The file system *)

Section os_facts.
Import filepath os io.

Lemma lookup_not_root fs p : lookup fs p = None → isRoot p = false.
Proof. unfold lookup. by destruct (isRoot p). Qed.

Lemma lookup_file_not_root fs p mode data :
  lookup fs p = Some (File mode data) → isRoot p = false.
Proof. unfold lookup. by destruct (isRoot p). Qed.

Lemma lookup_update_eq fs p i : isRoot p = false → lookup (update fs p i) p = Some i.
Proof. intros Hr. unfold lookup. rewrite Hr. simpl. apply lookup_insert_eq. Qed.

Lemma lookup_update_ne fs p i q : p ≠ q → lookup (update fs p i) q = lookup fs q.
Proof. intros Hne. unfold lookup. simpl. by rewrite lookup_insert_ne. Qed.

Lemma lookup_unlink_eq fs p : isRoot p = false → lookup (unlink fs p) p = None.
Proof. intros Hr. unfold lookup. rewrite Hr. simpl. apply lookup_delete_eq. Qed.

Lemma lookup_unlink_ne fs p q : p ≠ q → lookup (unlink fs p) q = lookup fs q.
Proof. intros Hne. unfold lookup. simpl. by rewrite lookup_delete_ne. Qed.

Lemma lookup_faults fs fl p :
  lookup (mkFS (entries fs) (umask fs) fl) p = lookup fs p.
Proof. done. Qed.

(** *** Ancestors *)

Lemma chainRev_elem rp q :
  q ∈ chainRev rp → (length q ≤ length rp)%nat ∧ q ≠ [] ∧ q `prefix_of` rev rp.
Proof.
  induction rp as [|c rp IH]; simpl; [by intros ?%elem_of_nil|].
  intros [->|Hq]%elem_of_cons.
  - split; [by rewrite length_app, length_rev; simpl; lia|]. split; [|done].
    intros Hnil. apply (f_equal length) in Hnil.
    rewrite length_app, length_rev in Hnil. simpl in Hnil. lia.
  - destruct (IH Hq) as (? & ? & ?). split; [lia|]. split; [done|].
    by apply prefix_app_r.
Qed.

Lemma chain_self p : p ≠ [] → p ∈ chain p.
Proof.
  unfold chain. intros Hne. destruct (rev p) as [|c rp] eqn:Hrev.
  - apply (f_equal (@rev _)) in Hrev. rewrite rev_involutive in Hrev. done.
  - assert (p = rev rp ++ [c]) as ->.
    { by rewrite <- (rev_involutive p), Hrev. }
    simpl. by left.
Qed.

Lemma chain_snoc p c : chain (p ++ [c]) = (p ++ [c]) :: chain p.
Proof. unfold chain. rewrite rev_app_distr. simpl. by rewrite rev_involutive. Qed.

Lemma parent_snoc p c : parent (p ++ [c]) = p.
Proof. unfold parent. apply removelast_last. Qed.

(** *** MkdirAll *)

Lemma Mkdir_frame p perm fs :
  umask (Mkdir p perm fs).2 = umask fs ∧ faults (Mkdir p perm fs).2 = faults fs ∧
  ∀ q, lookup (Mkdir p perm fs).2 q = lookup fs q ∨
       (q = p ∧ lookup fs q = None ∧
        lookup (Mkdir p perm fs).2 q = Some (Dir (masked fs perm))).
Proof.
  unfold Mkdir. destruct (fault fs OpMkdir p); [by auto|].
  destruct (lookup fs p) eqn:Hp; [by auto|].
  destruct (lookup fs (parent p)) as [[]|]; simpl; try by auto.
  split; [done|]. split; [done|]. intros q.
  destruct (decide (p = q)) as [<-|Hne].
  - right. split; [done|]. split; [done|].
    apply lookup_update_eq. by eapply lookup_not_root.
  - left. by apply lookup_update_ne.
Qed.

Lemma mkdirAll_frame ch perm fs :
  umask (mkdirAll ch perm fs).2 = umask fs ∧
  faults (mkdirAll ch perm fs).2 = faults fs ∧
  ∀ q, lookup (mkdirAll ch perm fs).2 q = lookup fs q ∨
       (q ∈ ch ∧ lookup fs q = None ∧
        lookup (mkdirAll ch perm fs).2 q = Some (Dir (masked fs perm))).
Proof.
  induction ch as [|p up IH]; simpl; [by auto|].
  destruct (lookup fs p) as [[]|] eqn:Hp; simpl; try by auto.
  destruct IH as (Hu & Hf & Hq).
  destruct (mkdirAll up perm fs) as [[e|] fs1]; simpl in *.
  - split; [done|]. split; [done|]. intros q.
    destruct (Hq q) as [?|(? & ? & ?)]; [by left|]. right. split; [by right|done].
  - destruct (Mkdir_frame p perm fs1) as (Hu' & Hf' & Hq').
    split; [congruence|]. split; [congruence|]. intros q.
    destruct (Hq' q) as [Heq|(-> & Hnone & Hdir)].
    + rewrite Heq. destruct (Hq q) as [?|(? & ? & ?)]; [by left|].
      right. split; [by right|done].
    + right. split; [by left|]. split; [done|].
      rewrite Hdir. unfold masked. by rewrite Hu.
Qed.

Lemma mkdirAll_ok rp perm fs fs' :
  mkdirAll (chainRev rp) perm fs = (None, fs') →
  ∃ mode, lookup fs' (rev rp) = Some (Dir mode).
Proof.
  revert fs fs'. induction rp as [|c rp IH]; intros fs fs'; simpl.
  - intros _. by eexists.
  - destruct (lookup fs (rev rp ++ [c])) as [[mode|]|] eqn:Hp.
    + intros [= <-]. by eexists.
    + done.
    + destruct (mkdirAll (chainRev rp) perm fs) as [[e|] fs1]; [done|].
      unfold Mkdir. destruct (fault fs1 OpMkdir _); [done|].
      destruct (lookup fs1 (rev rp ++ [c])) eqn:Hp1; [done|].
      destruct (lookup fs1 (parent _)) as [[]|]; try done.
      intros [= <-]. eexists. apply lookup_update_eq. by eapply lookup_not_root.
Qed.

(** [MkdirAll] succeeds when no call on the way is made to fail and no
    regular file is in the way. *)
Lemma mkdirAll_succeeds rp perm fs :
  (∀ q, q ∈ chainRev rp → fault fs OpMkdir q = false) →
  (∀ q mode data, q ∈ chainRev rp → lookup fs q ≠ Some (File mode data)) →
  ∃ fs', mkdirAll (chainRev rp) perm fs = (None, fs').
Proof.
  induction rp as [|c rp IH]; intros Hfault Hfile; simpl; [by eexists|].
  destruct (lookup fs (rev rp ++ [c])) as [[mode|mode data]|] eqn:Hp.
  - by eexists.
  - exfalso. eapply (Hfile (rev rp ++ [c])); [by left|done].
  - destruct IH as [fs1 Hfs1].
    { intros q Hq. apply Hfault. by right. }
    { intros q mode data Hq. apply Hfile. by right. }
    rewrite Hfs1.
    destruct (mkdirAll_frame (chainRev rp) perm fs) as (Hu & Hf & Hq).
    rewrite Hfs1 in Hu, Hf, Hq. simpl in Hu, Hf, Hq.
    unfold Mkdir.
    assert (fault fs1 OpMkdir (rev rp ++ [c]) = false) as ->.
    { unfold fault. rewrite Hf. apply (Hfault (rev rp ++ [c])). by left. }
    assert (lookup fs1 (rev rp ++ [c]) = None) as ->.
    { destruct (Hq (rev rp ++ [c])) as [->|(Hin & _)]; [done|].
      apply chainRev_elem in Hin as (Hlen & _).
      rewrite length_app, length_rev in Hlen. simpl in Hlen. lia. }
    rewrite parent_snoc.
    destruct (mkdirAll_ok rp perm fs fs1 Hfs1) as [mode ->]. by eexists.
Qed.

(** *** Create, Copy, Remove *)

Lemma Create_inv p fs r fs' :
  Create p fs = (r, fs') →
  umask fs' = umask fs ∧ faults fs' = faults fs ∧
  (∀ q, q ≠ p → lookup fs' q = lookup fs q) ∧
  match r with
  | Fail _ => fs' = fs
  | Val h =>
      h = p ∧ isRoot p = false ∧
      ∃ mode, lookup fs' p = Some (File mode []) ∧
              (lookup fs p = None → mode = masked fs (oct 6 6 6)) ∧
              (∀ m d, lookup fs p = Some (File m d) → mode = m)
  end.
Proof.
  unfold Create. destruct (fault fs OpCreate p); [by intros [= <- <-]|].
  destruct (lookup fs p) as [[m|m d]|] eqn:Hp.
  - by intros [= <- <-].
  - intros [= <- <-]. repeat split; try done.
    + intros q Hq. by apply lookup_update_ne.
    + by eapply lookup_file_not_root.
    + exists m. split; [|split; [done|congruence]].
      apply lookup_update_eq. by eapply lookup_file_not_root.
  - destruct (lookup fs (parent p)) as [[m|m d]|]; try by intros [= <- <-].
    intros [= <- <-]. repeat split; try done.
    + intros q Hq. by apply lookup_update_ne.
    + by eapply lookup_not_root.
    + eexists. split; [|split; [done|congruence]].
      apply lookup_update_eq. by eapply lookup_not_root.
Qed.

Lemma Create_succeeds p fs :
  fault fs OpCreate p = false →
  (lookup fs p = None ∧ ∃ m, lookup fs (parent p) = Some (Dir m)) ∨
  (∃ m d, lookup fs p = Some (File m d)) →
  ∃ fs', Create p fs = (Val p, fs').
Proof.
  intros Hf Hcase. unfold Create. rewrite Hf.
  destruct Hcase as [[-> [m ->]]|(m & d & ->)]; by eexists.
Qed.

Lemma Copy_inv dst src fs r fs' :
  Copy dst src fs = (r, fs') →
  umask fs' = umask fs ∧ faults fs' = faults fs ∧
  (∀ q, q ≠ dst → lookup fs' q = lookup fs q) ∧
  (∀ m d, lookup fs dst = Some (File m d) →
     ∃ d', lookup fs' dst = Some (File m d') ∧ (r = None → d' = (drain fs src).1)) ∧
  (r = None → (drain fs src).2 = None ∧ fault fs OpWrite dst = false).
Proof.
  unfold Copy. destruct (drain fs src) as [data rerr]. simpl.
  destruct (fault fs OpWrite dst).
  - intros [= <- <-]. repeat split; try done. intros m d Hd. by exists d.
  - intros [= <- <-]. destruct (lookup fs dst) as [[m|m d]|] eqn:Hd.
    + repeat split; try done.
    + repeat split; try done.
      * intros q Hq. by apply lookup_update_ne.
      * intros m' d' [= <- <-]. exists data. split; [|done].
        apply lookup_update_eq. by eapply lookup_file_not_root.
    + repeat split; try done.
Qed.

Lemma Copy_succeeds dst data fs :
  fault fs OpWrite dst = false →
  ∃ fs', Copy dst (BytesReader data None) fs = (None, fs').
Proof. intros Hf. unfold Copy. simpl. rewrite Hf. by eexists. Qed.

Lemma Remove_file p fs m d :
  fault fs OpRemove p = false → lookup fs p = Some (File m d) →
  Remove p fs = (None, unlink fs p) ∧ lookup (unlink fs p) p = None.
Proof.
  intros Hf Hp. unfold Remove. rewrite Hf, Hp. split; [done|].
  apply lookup_unlink_eq. by eapply lookup_file_not_root.
Qed.

Lemma Remove_frame p fs :
  umask (Remove p fs).2 = umask fs ∧ faults (Remove p fs).2 = faults fs ∧
  ∀ q, q ≠ p → lookup (Remove p fs).2 q = lookup fs q.
Proof.
  unfold Remove. destruct (fault fs OpRemove p); [done|].
  destruct (lookup fs p) as [[m|m d]|]; try done.
  - destruct (hasChildren fs p); [done|]. simpl. repeat split.
    intros q Hq. by apply lookup_unlink_ne.
  - simpl. repeat split. intros q Hq. by apply lookup_unlink_ne.
Qed.

End os_facts.

(** ** The node store *)

Section node_facts.
Import filepath os io storage.
Local Arguments Join : simpl never.
Local Arguments JoinPath : simpl never.
Local Arguments MkdirAll : simpl never.
Local Arguments Create : simpl never.
Local Arguments Copy : simpl never.
Local Arguments Remove : simpl never.
Local Arguments substring : simpl never.

Lemma slice_ok s lo hi :
  (hi ≤ String.length s)%nat → slice s lo hi = Ok (substring lo (hi - lo) s).
Proof. intros Hle. unfold slice. by rewrite (proj2 (Nat.leb_le _ _) Hle). Qed.

Lemma slice_short s lo hi :
  (String.length s < hi)%nat → slice s lo hi = Panic "slice bounds out of range".
Proof. intros Hlt. unfold slice. by rewrite (proj2 (Nat.leb_gt _ _) Hlt). Qed.

Lemma shard_nonempty b id :
  (4 ≤ String.length id)%nat →
  nonempty [b; substring 0 2 id; substring 2 2 id] ≠ [].
Proof.
  intros Hlen Hnil.
  assert (substring 0 2 id ∈ nonempty [b; substring 0 2 id; substring 2 2 id]) as Hin.
  { apply list_elem_of_filter. split; [|set_solver].
    apply length_nonempty. rewrite substring_length; lia. }
  rewrite Hnil in Hin. by apply elem_of_nil in Hin.
Qed.

Lemma id_nonempty (id : string) : (4 ≤ String.length id)%nat → id ≠ EmptyString.
Proof. intros ?. apply length_nonempty. lia. Qed.

Lemma blobPath_JoinPath n id :
  (4 ≤ String.length id)%nat → JoinPath (shardDir n id) [id] = blobPath n id.
Proof.
  intros Hlen. unfold shardDir, blobPath.
  rewrite JoinPath_Join; [done|by apply shard_nonempty|by apply id_nonempty].
Qed.

Lemma objectPath_unfold n id :
  (4 ≤ String.length id)%nat → objectPath n id = Ok (blobPath n id).
Proof.
  intros Hlen. unfold objectPath. by rewrite !slice_ok by lia.
Qed.

(** [Store] on an identifier of four bytes or more, in terms of the
    shard directory and the blob path. *)
Lemma Store_unfold n id data fs :
  (4 ≤ String.length id)%nat →
  Store n id data fs =
    match MkdirAll (shardDir n id) (oct 7 5 5) fs with
    | (Some e, fs1) => (Err (ErrCreateDir e), fs1)
    | (None, fs1) =>
        match Create (blobPath n id) fs1 with
        | (Fail e, fs2) => (Err (ErrCreateFile e), fs2)
        | (Val file, fs2) =>
            match Copy file data fs2 with
            | (Some e, fs3) => (Err (ErrWriteData e), (Remove (blobPath n id) fs3).2)
            | (None, fs3) => (Ok (), fs3)
            end
        end
    end.
Proof.
  intros Hlen. unfold Store. rewrite !slice_ok by lia.
  change (Join [BasePath n; substring 0 (2 - 0) id; substring 2 (4 - 2) id])
    with (shardDir n id).
  by rewrite blobPath_JoinPath.
Qed.

(** An identifier shorter than four bytes makes every node operation
    panic on its slice expressions. *)
Lemma Store_short n id data fs :
  (String.length id < 4)%nat →
  Store n id data fs = (Panic "slice bounds out of range", fs).
Proof.
  intros Hlen. unfold Store, slice.
  destruct (2 <=? String.length id)%nat; [|done].
  by rewrite (proj2 (Nat.leb_gt _ _) Hlen).
Qed.

Lemma objectPath_short n id :
  (String.length id < 4)%nat → objectPath n id = Panic "slice bounds out of range".
Proof.
  intros Hlen. unfold objectPath, slice.
  destruct (2 <=? String.length id)%nat; [|done].
  by rewrite (proj2 (Nat.leb_gt _ _) Hlen).
Qed.

(** What a call of [Store] does to the file system. *)
Lemma Store_cases n id data fs res fs' :
  (4 ≤ String.length id)%nat →
  Store n id data fs = (res, fs') →
  umask fs' = umask fs ∧ faults fs' = faults fs ∧
  (∀ q, q ≠ blobPath n id →
     lookup fs' q = lookup fs q ∨
     (q ∈ chain (shardDir n id) ∧ lookup fs q = None ∧
      lookup fs' q = Some (Dir (masked fs (oct 7 5 5))))) ∧
  match res with
  | Ok _ =>
      (∃ m, lookup fs' (shardDir n id) = Some (Dir m)) ∧
      ∃ mode fs2,
        lookup fs' (blobPath n id) = Some (File mode (drain fs2 data).1) ∧
        (drain fs2 data).2 = None ∧
        lookup fs2 (blobPath n id) = Some (File mode []) ∧
        (∀ q, q ≠ blobPath n id → lookup fs2 q = lookup fs' q) ∧
        (lookup fs (blobPath n id) = None → mode = masked fs (oct 6 6 6)) ∧
        (∀ m d, lookup fs (blobPath n id) = Some (File m d) → mode = m)
  | Err e =>
      ((∃ e', e = ErrCreateDir e' ∨ e = ErrCreateFile e') ∧
       (lookup fs' (blobPath n id) = lookup fs (blobPath n id) ∨
        (blobPath n id ∈ chain (shardDir n id) ∧
         lookup fs (blobPath n id) = None ∧
         lookup fs' (blobPath n id) = Some (Dir (masked fs (oct 7 5 5)))))) ∨
      ((∃ e', e = ErrWriteData e') ∧
       (fault fs OpRemove (blobPath n id) = false →
        lookup fs' (blobPath n id) = None))
  | Panic _ | Timeout => False
  end.
Proof.
  intros Hlen. rewrite Store_unfold by done. unfold MkdirAll.
  destruct (mkdirAll_frame (chain (shardDir n id)) (oct 7 5 5) fs) as (Hu1 & Hf1 & Hq1).
  destruct (mkdirAll (chain (shardDir n id)) (oct 7 5 5) fs) as [[e1|] fs1] eqn:Hmk;
    simpl in Hu1, Hf1, Hq1.
  { intros [= <- <-]. split; [done|]. split; [done|]. split; [by intros q _|].
    left. split; [by eauto|]. apply Hq1. }
  destruct (Create (blobPath n id) fs1) as [[file|e2] fs2] eqn:Hcr.
  2:{ intros [= <- <-]. destruct (Create_inv _ _ _ _ Hcr) as (Hu2 & Hf2 & Hq2 & ->).
      split; [done|]. split; [done|]. split; [by intros q _|].
      left. split; [by eauto|]. apply Hq1. }
  destruct (Create_inv _ _ _ _ Hcr) as (Hu2 & Hf2 & Hq2 & -> & Hroot & mode & Hmode & Hnew & Hold).
  destruct (Copy (blobPath n id) data fs2) as [[e3|] fs3] eqn:Hcp.
  - intros [= <- <-].
    destruct (Copy_inv _ _ _ _ _ Hcp) as (Hu3 & Hf3 & Hq3 & Hd3 & _).
    destruct (Remove_frame (blobPath n id) fs3) as (Hu4 & Hf4 & Hq4).
    split; [congruence|]. split; [congruence|]. split.
    { intros q Hq. rewrite Hq4, Hq3, Hq2 by done. apply Hq1. }
    right. split; [by eauto|]. intros Hrm.
    destruct (Hd3 _ _ Hmode) as (d' & Hd' & _).
    destruct (Remove_file (blobPath n id) fs3 mode d') as [-> ?]; [|done|done].
    unfold fault in *. by rewrite Hf3, Hf2, Hf1.
  - intros [= <- <-].
    destruct (Copy_inv _ _ _ _ _ Hcp) as (Hu3 & Hf3 & Hq3 & Hd3 & Hok).
    destruct (Hok eq_refl) as [Hdrain _].
    destruct (Hd3 _ _ Hmode) as (d' & Hd' & Hdata).
    split; [congruence|]. split; [congruence|]. split.
    { intros q Hq. rewrite Hq3, Hq2 by done. apply Hq1. }
    split.
    { assert (shardDir n id ≠ blobPath n id) as Hne.
      { intros Heq. unfold chain in Hmk.
        destruct (mkdirAll_ok _ _ _ _ Hmk) as [m Hm]. rewrite rev_involutive in Hm.
        destruct (lookup fs1 (blobPath n id)) as [[|]|] eqn:Hb1.
        - unfold Create in Hcr. rewrite Hb1 in Hcr.
          destruct (fault fs1 OpCreate _); done.
        - rewrite Heq in Hm. congruence.
        - rewrite Heq in Hm. congruence. }
      unfold chain in Hmk. destruct (mkdirAll_ok _ _ _ _ Hmk) as [m Hm].
      rewrite rev_involutive in Hm. exists m. by rewrite Hq3, Hq2. }
    exists mode, fs2. rewrite Hdata in Hd' by done.
    split; [done|]. split; [done|]. split; [done|].
    split; [intros q Hq; by rewrite Hq3|]. split.
    + intros Hnone. assert (lookup fs1 (blobPath n id) = None) as Hn1.
      { destruct (Hq1 (blobPath n id)) as [->|(_ & _ & Hdir)]; [done|].
        exfalso. unfold Create in Hcr. rewrite Hdir in Hcr.
        destruct (fault fs1 OpCreate _); done. }
      rewrite (Hnew Hn1). unfold masked. by rewrite Hu1.
    + intros m d Hfile. apply (Hold m d).
      destruct (Hq1 (blobPath n id)) as [->|(_ & Hnone & _)]; [done|congruence].
Qed.

Lemma blobPath_plain n id :
  plain id = true → (4 ≤ String.length id)%nat →
  shardDir n id = Clean (BasePath n) ++ [substring 0 2 id; substring 2 2 id] ∧
  blobPath n id = shardDir n id ++ [id].
Proof.
  intros Hp Hlen. unfold shardDir, blobPath.
  assert (∀ k, (k + 2 ≤ String.length id)%nat →
               plain (substring k 2 id) = true ∧ substring k 2 id ≠ EmptyString) as Hsub.
  { intros k Hk. split; [by apply substring_plain|].
    apply length_nonempty. rewrite substring_length; lia. }
  destruct (Hsub 0%nat ltac:(lia)) as [Hp1 Hn1].
  destruct (Hsub 2%nat ltac:(lia)) as [Hp2 Hn2].
  change [BasePath n; substring 0 2 id; substring 2 2 id; id]
    with ([BasePath n; substring 0 2 id; substring 2 2 id] ++ [id]).
  rewrite (Join_plain _ id) by (done || by apply id_nonempty).
  split; [|done].
  change [BasePath n; substring 0 2 id; substring 2 2 id]
    with ([BasePath n; substring 0 2 id] ++ [substring 2 2 id]).
  rewrite Join_plain by done.
  change [BasePath n; substring 0 2 id] with ([BasePath n] ++ [substring 0 2 id]).
  rewrite Join_plain, Join_single by done. by rewrite <- app_assoc.
Qed.

Lemma blobPath_not_in_chain n id :
  plain id = true → (4 ≤ String.length id)%nat →
  (blobPath n id ∉ chain (shardDir n id)) ∧ parent (blobPath n id) = shardDir n id.
Proof.
  intros Hp Hlen. destruct (blobPath_plain n id Hp Hlen) as [_ ->]. split.
  - intros (Hl & _)%chainRev_elem.
    rewrite length_app, length_rev in Hl. simpl in Hl. lia.
  - apply parent_snoc.
Qed.

Lemma Exists_unfold n id fs :
  (4 ≤ String.length id)%nat →
  Exists n id fs = Ok (match Stat (blobPath n id) fs with
                       | Val _ => true
                       | Fail _ => false
                       end).
Proof.
  intros Hlen. unfold Exists. rewrite objectPath_unfold by done.
  by destruct (Stat (blobPath n id) fs).
Qed.

Lemma Exists_absent n id fs :
  (4 ≤ String.length id)%nat → lookup fs (blobPath n id) = None →
  Exists n id fs = Ok false.
Proof.
  intros Hlen Hnone. rewrite Exists_unfold by done. unfold Stat.
  rewrite Hnone. by destruct (fault fs OpStat _).
Qed.

Lemma Exists_present n id fs i :
  (4 ≤ String.length id)%nat → fault fs OpStat (blobPath n id) = false →
  lookup fs (blobPath n id) = Some i → Exists n id fs = Ok true.
Proof.
  intros Hlen Hf Hsome. rewrite Exists_unfold by done. unfold Stat.
  by rewrite Hf, Hsome.
Qed.



(** C10. When [Store] fails while copying, the blob is gone afterwards,
    whether or not the node held it before: the destination was truncated
    on open and is removed on the error path.  The removal is the call
    [os.Remove], whose own result the code discards; the statement is
    for an environment that does not make that call fail. *)
Theorem Store_copy_error_erases n id data fs e fs' :
  (4 ≤ String.length id)%nat →
  fault fs OpRemove (blobPath n id) = false →
  Store n id data fs = (Err (ErrWriteData e), fs') →
  Exists n id fs' = Ok false.
Proof.
  intros Hlen Hrm Hst.
  destruct (Store_cases _ _ _ _ _ _ Hlen Hst) as (_ & _ & _ & Hcase).
  destruct Hcase as [[[e' [?|?]] _]|[_ Hgone]]; [done|done|].
  apply Exists_absent; [done|]. by apply Hgone.
Qed.

End node_facts.



(** C10, witness: the node holds the blob, a second [Store] of the same
    identifier reads from a reader that breaks, and the blob is gone. *)
Lemma Store_copy_error_erases_witness :
  let fs1 := (storage.Store scenario.test_node scenario.test_id
                (io.BytesReader scenario.test_data None) (scenario.empty_fs (oct 0 2 2))).2 in
  let r := storage.Store scenario.test_node scenario.test_id scenario.broken_reader fs1 in
  storage.Exists scenario.test_node scenario.test_id fs1 = Ok true ∧
  r.1 = Err (ErrWriteData (ErrReader "unexpected EOF")) ∧
  storage.Exists scenario.test_node scenario.test_id r.2 = Ok false.
Proof.
  intros fs1 r. split; [by vm_compute|]. split; [by vm_compute|].
  apply (Store_copy_error_erases scenario.test_node scenario.test_id
           scenario.broken_reader fs1 (ErrReader "unexpected EOF")).
  - vm_compute. lia.
  - by vm_compute.
  - by vm_compute.
Defined.

(** ** The replication manager *)

Section manager_facts.
Import filepath os io storage.
Local Arguments Store : simpl never.
Local Arguments Exists : simpl never.
Local Arguments Retrieve : simpl never.
Local Arguments achieved : simpl never.
Local Arguments lastError : simpl never.

Lemma Store_returns n id data fs :
  (4 ≤ String.length id)%nat →
  (∃ fs', Store n id data fs = (Ok (), fs')) ∨
  (∃ e fs', Store n id data fs = (Err e, fs')).
Proof.
  intros Hlen. destruct (Store n id data fs) as [[[]|e|msg|] fs'] eqn:Hst.
  - left. by eexists.
  - right. by eexists _, _.
  - by destruct (Store_cases _ _ _ _ _ _ Hlen Hst) as (_ & _ & _ & ?).
  - by destruct (Store_cases _ _ _ _ _ _ Hlen Hst) as (_ & _ & _ & ?).
Qed.

Lemma achieved_cons t (r : res unit) att :
  achieved ((t, r) :: att) =
  match r with Ok _ => t :: achieved att | _ => achieved att end.
Proof. by destruct r. Qed.

Lemma lastError_cons t (r : res unit) att :
  lastError ((t, r) :: att) =
  match r with
  | Err e => match lastError att with Some e' => Some e' | None => Some e end
  | _ => lastError att
  end.
Proof.
  destruct r as [?|e| |]; try done. unfold lastError.
  change (omap ?f ((t, Err e) :: att)) with (e :: omap f att).
  destruct (omap _ att) as [|e' l]; [done|]. rewrite last_cons_cons.
  destruct (last (e' :: l)) eqn:Hlast; [done|]. by apply last_None in Hlast.
Qed.

(** The loop of [StoreObject] computes the achieved list and the last
    error of the attempts. *)
Lemma storeLoop_attempts m id bytes targets acc lastErr fs :
  (4 ≤ String.length id)%nat →
  let att := attempts m id bytes targets fs in
  storeLoop m id bytes targets acc lastErr fs =
    (Ok (acc ++ achieved att.1,
         match lastError att.1 with Some e => Some e | None => lastErr end),
     att.2).
Proof.
  intros Hlen. revert acc lastErr fs.
  induction targets as [|t rest IH]; intros acc lastErr fs; simpl.
  - by rewrite app_nil_r.
  - destruct (nodes m !! t) as [node|]; [|apply IH].
    destruct (Store_returns node id (BytesReader bytes None) fs Hlen)
      as [[fs1 Hst]|(e & fs1 & Hst)]; rewrite Hst; simpl; rewrite IH;
      rewrite achieved_cons, lastError_cons.
    + by rewrite <- app_assoc.
    + by destruct (lastError _).
Qed.

Lemma Exists_returns n id fs :
  (4 ≤ String.length id)%nat → ∃ b, Exists n id fs = Ok b.
Proof. intros Hlen. rewrite Exists_unfold by done. by eexists. Qed.

Lemma Retrieve_unfold n id fs :
  (4 ≤ String.length id)%nat →
  Retrieve n id fs =
    match Open (blobPath n id) fs with
    | Fail e => if IsNotExist e then Err (ErrObjectNotFound id) else Err (ErrOpenFile e)
    | Val file => Ok (FileReader file)
    end.
Proof. intros Hlen. unfold Retrieve. by rewrite objectPath_unfold. Qed.

Lemma Retrieve_returns n id fs :
  (4 ≤ String.length id)%nat →
  Retrieve n id fs = Ok (FileReader (blobPath n id)) ∨ ∃ e, Retrieve n id fs = Err e.
Proof.
  intros Hlen. rewrite Retrieve_unfold by done. unfold Open.
  destruct (fault fs OpOpen _); [right; by eexists|].
  destruct (lookup fs _); [by left|right; by eexists].
Qed.

(** C4. [StoreObject] fails with "no storage nodes available" exactly
    when the ring yields no target.  With targets and the data read, it
    returns the registered targets whose write succeeded, in ring order,
    as soon as there is one (partial success is success); when there is
    none it fails with an error that wraps the last error of a node
    write.  When the data cannot be read it fails with that error.  The
    identifier has the four bytes the node store slices. *)
Theorem StoreObject_error_semantics m hr id data size fs :
  (4 ≤ String.length id)%nat →
  hashRing m = ringOf hr →
  let r := StoreObject m id data size fs in
  (r.1 = Err ErrNoNodes ↔ hashring.GetNodes hr id (replication m) = Ok []) ∧
  (∀ targets bytes,
     hashring.GetNodes hr id (replication m) = Ok targets → targets ≠ [] →
     ReadAll data fs = Val bytes →
     let att := attempts m id bytes targets fs in
     r.2 = att.2 ∧
     (achieved att.1 ≠ [] → r.1 = Ok (achieved att.1)) ∧
     (achieved att.1 = [] → r.1 = Err (ErrStoreAny (lastError att.1)))) ∧
  (∀ targets e,
     hashring.GetNodes hr id (replication m) = Ok targets → targets ≠ [] →
     ReadAll data fs = Fail e → r = (Err (ErrReadData e), fs)).
Proof.
  intros Hlen Hring r. subst r. unfold StoreObject. rewrite Hring. simpl.
  assert (∀ targets : list string, targets ≠ [] → (len targets =? 0) = false) as Hnz.
  { intros [|t l] Hne; [done|]. unfold len. simpl. lia. }
  split; [|split].
  - destruct (GetNodes_returns hr id (replication m)) as [[targets Hg]|[msg Hg]];
      rewrite Hg; simpl; [|by split].
    destruct targets as [|t l]; [done|]. rewrite Hnz by done.
    split; [|done]. destruct (ReadAll data fs) as [bytes|e]; [|done].
    rewrite storeLoop_attempts by done. simpl.
    by destruct (len _ =? 0).
  - intros targets bytes Hg Hne Hread. rewrite Hg, Hnz, Hread by done.
    rewrite storeLoop_attempts by done. simpl.
    destruct (achieved (attempts m id bytes targets fs).1) as [|t l] eqn:Hach.
    + change (len (@nil string) =? 0) with true. simpl.
      destruct (lastError _); by repeat split.
    + rewrite (Hnz (t :: l)) by done. by repeat split.
  - intros targets e Hg Hne Hread. by rewrite Hg, Hnz, Hread.
Qed.

Lemma retrieveLoop_find m id fs targets :
  (4 ≤ String.length id)%nat →
  retrieveLoop m id targets fs = firstUsable m id fs targets.
Proof.
  intros Hlen. unfold firstUsable.
  induction targets as [|t rest IH]; simpl; [done|].
  unfold usable at 1, readerOf. destruct (nodes m !! t) as [node|] eqn:Hn; [|done].
  destruct (Exists_returns node id fs Hlen) as [[] ->]; [|done].
  destruct (Retrieve_returns node id fs Hlen) as [Hr|[e Hr]]; rewrite Hr; [|done].
  by rewrite Hn.
Qed.

Lemma usable_absent m id fs t :
  (4 ≤ String.length id)%nat →
  (∀ n, nodes m !! t = Some n → lookup fs (blobPath n id) = None) →
  usable m id fs t = false.
Proof.
  intros Hlen Habs. unfold usable. destruct (nodes m !! t) as [n|]; [|done].
  by rewrite Exists_absent by auto.
Qed.

Lemma find_first {A} (f : A → bool) pre x post :
  Forall (λ y, f y = false) pre → f x = true →
  List.find f (pre ++ x :: post) = Some x.
Proof.
  induction pre as [|y pre IH]; simpl; intros Hpre Hx; [by rewrite Hx|].
  inversion Hpre; subst. rewrite H1. by apply IH.
Qed.

Lemma usable_inv m id fs t :
  (4 ≤ String.length id)%nat → usable m id fs t = true →
  ∃ n, nodes m !! t = Some n ∧ Exists n id fs = Ok true ∧
       readerOf m id fs t = Ok (FileReader (blobPath n id)).
Proof.
  intros Hlen Hu. unfold usable, readerOf in *.
  destruct (nodes m !! t) as [n|]; [|done]. exists n. split; [done|].
  destruct (Exists n id fs) as [[]| | |]; try done.
  destruct (Retrieve_returns n id fs Hlen) as [Hr|[e Hr]]; rewrite Hr in *; done.
Qed.

Lemma usable_holder m id fs t n b :
  (4 ≤ String.length id)%nat →
  nodes m !! t = Some n → holds n id b fs →
  fault fs OpStat (blobPath n id) = false →
  fault fs OpOpen (blobPath n id) = false →
  usable m id fs t = true ∧ Retrieve n id fs = Ok (FileReader (blobPath n id)).
Proof.
  intros Hlen Hn [mode Hb] Hstat Hopen.
  assert (Retrieve n id fs = Ok (FileReader (blobPath n id))) as Hret.
  { rewrite Retrieve_unfold by done. unfold Open. by rewrite Hopen, Hb. }
  split; [|done]. unfold usable. rewrite Hn, Hret.
  by rewrite (Exists_present n id fs (File mode b)).
Qed.

Lemma RetrieveObject_find m id fs targets :
  (4 ≤ String.length id)%nat →
  GetNodes (hashRing m) id (replication m) = Ok targets →
  RetrieveObject m id fs = firstUsable m id fs targets.
Proof. intros Hlen Hg. unfold RetrieveObject. rewrite Hg. by apply retrieveLoop_find. Qed.

(** C5. [RetrieveObject] returns the reader of the first ring target
    that is registered, reports [Exists] and opens, and fails with
    "object not found on any available node" when there is none.  So
    when the copies of the targets in front are missing, the object is
    read from the first later target that holds it. *)
Theorem RetrieveObject_first_usable m id fs targets :
  (4 ≤ String.length id)%nat →
  GetNodes (hashRing m) id (replication m) = Ok targets →
  RetrieveObject m id fs = firstUsable m id fs targets ∧
  (∀ t, List.find (usable m id fs) targets = Some t →
        ∃ n, nodes m !! t = Some n ∧ Exists n id fs = Ok true ∧
             readerOf m id fs t = Ok (FileReader (blobPath n id))) ∧
  (∀ pre t post n b,
     targets = pre ++ t :: post →
     Forall (λ u, ∀ n', nodes m !! u = Some n' →
                        lookup fs (blobPath n' id) = None) pre →
     nodes m !! t = Some n → holds n id b fs →
     fault fs OpStat (blobPath n id) = false →
     fault fs OpOpen (blobPath n id) = false →
     RetrieveObject m id fs = Ok (FileReader (blobPath n id)) ∧
     ReadAll (FileReader (blobPath n id)) fs = Val b).
Proof.
  intros Hlen Hg. pose proof (RetrieveObject_find m id fs targets Hlen Hg) as Hfind.
  split; [done|]. split.
  - intros t [_ Hu]%find_some. by apply usable_inv.
  - intros pre t post n b -> Hpre Hn Hb Hstat Hopen.
    destruct (usable_holder m id fs t n b Hlen Hn Hb Hstat Hopen) as [Hu Hret].
    rewrite Hfind. unfold firstUsable. rewrite (find_first _ pre t post).
    + unfold readerOf. rewrite Hn, Hret. split; [done|].
      destruct Hb as [mode Hb]. unfold ReadAll. simpl. by rewrite Hb.
    + eapply Forall_impl; [exact Hpre|]. intros u Hu'. by apply usable_absent.
    + done.
Qed.

End manager_facts.

(** C4, witness: the upload of S1 on the three-node ring. *)
Lemma StoreObject_error_semantics_witness :
  let m := scenario.manager3 in
  let hr := scenario.ring3 in
  let id := scenario.hello_id in
  let data := io.BytesReader scenario.hello_world None in
  let fs := scenario.empty_fs (oct 0 2 2) in
  let r := storage.StoreObject m id data 12 fs in
  (r.1 = Err ErrNoNodes ↔ hashring.GetNodes hr id (storage.replication m) = Ok []) ∧
  (∀ targets bytes,
     hashring.GetNodes hr id (storage.replication m) = Ok targets → targets ≠ [] →
     io.ReadAll data fs = Val bytes →
     let att := storage.attempts m id bytes targets fs in
     r.2 = att.2 ∧
     (storage.achieved att.1 ≠ [] → r.1 = Ok (storage.achieved att.1)) ∧
     (storage.achieved att.1 = [] →
      r.1 = Err (ErrStoreAny (storage.lastError att.1)))) ∧
  (∀ targets e,
     hashring.GetNodes hr id (storage.replication m) = Ok targets → targets ≠ [] →
     io.ReadAll data fs = Fail e → r = (Err (ErrReadData e), fs)).
Proof.
  intros m hr id data fs.
  apply (StoreObject_error_semantics m hr id data 12 fs).
  - vm_compute. lia.
  - reflexivity.
Defined.

(** S1 and S6 on the embedding: the upload reaches both targets, and with
    no node registered in the ring [StoreObject] fails with [ErrNoNodes]. *)
Example StoreObject_S1 :
  (storage.StoreObject scenario.manager3 scenario.hello_id
     (io.BytesReader scenario.hello_world None) 12 (scenario.empty_fs (oct 0 2 2))).1
  = Ok ["node1"; "node2"]%string.
Proof. by vm_compute. Qed.

Example StoreObject_S6 :
  hashring.GetNodes (hashring.NewHashRing 150) "anything" 2 = Ok [] ∧
  (storage.StoreObject
     (storage.NewManager (storage.ringOf (hashring.NewHashRing 150)) 2)
     scenario.hello_id (io.BytesReader scenario.hello_world None) 12
     (scenario.empty_fs (oct 0 2 2))).1 = Err ErrNoNodes.
Proof. by vm_compute. Qed.

(** C5, witness: S4, the first-choice target [node1] has lost its copy
    and the object is read from [node2]. *)
Lemma RetrieveObject_first_usable_witness :
  let m := scenario.manager3 in
  let id := scenario.hello_id in
  let fs := scenario.lost_fs in
  let targets := ["node1"; "node2"]%string in
  storage.RetrieveObject m id fs = storage.firstUsable m id fs targets ∧
  (∀ t, List.find (storage.usable m id fs) targets = Some t →
        ∃ n, storage.nodes m !! t = Some n ∧ storage.Exists n id fs = Ok true ∧
             storage.readerOf m id fs t = Ok (io.FileReader (storage.blobPath n id))) ∧
  (∀ pre t post n b,
     targets = pre ++ t :: post →
     Forall (λ u, ∀ n', storage.nodes m !! u = Some n' →
                        os.lookup fs (storage.blobPath n' id) = None) pre →
     storage.nodes m !! t = Some n → storage.holds n id b fs →
     os.fault fs os.OpStat (storage.blobPath n id) = false →
     os.fault fs os.OpOpen (storage.blobPath n id) = false →
     storage.RetrieveObject m id fs = Ok (io.FileReader (storage.blobPath n id)) ∧
     io.ReadAll (io.FileReader (storage.blobPath n id)) fs = Val b).
Proof.
  intros m id fs targets.
  apply (RetrieveObject_first_usable m id fs targets).
  - vm_compute. lia.
  - by vm_compute.
Defined.

Example RetrieveObject_S4 :
  storage.Exists scenario.node1 scenario.hello_id scenario.lost_fs = Ok false ∧
  ∃ r, storage.RetrieveObject scenario.manager3 scenario.hello_id scenario.lost_fs = Ok r ∧
       io.ReadAll r scenario.lost_fs = Val scenario.hello_world.
Proof. split; [by vm_compute|]. eexists. split; by vm_compute. Qed.

(** ** Round trip *)

Section round_trip.
Import filepath os io storage.
Local Arguments Store : simpl never.
Local Arguments Exists : simpl never.
Local Arguments Retrieve : simpl never.
Local Arguments achieved : simpl never.
Local Arguments lastError : simpl never.
Local Arguments blobPath : simpl never.
Local Arguments shardDir : simpl never.

Lemma isLowerHex_plain c :
  hex.isLowerHex c = true → negb (Ascii.eqb c "/") && negb (Ascii.eqb c ".") = true.
Proof. destruct c as [[] [] [] [] [] [] [] []]; vm_compute; done. Qed.

Lemma allLowerHex_plain s : hex.allLowerHex s = true → plain s = true.
Proof.
  induction s as [|c s IH]; simpl; [done|].
  intros [Hc Hs]%andb_true_iff. by rewrite (isLowerHex_plain c Hc), IH.
Qed.

Lemma GenerateObjectID_wf b :
  (4 ≤ String.length (GenerateObjectID b))%nat ∧ plain (GenerateObjectID b) = true.
Proof.
  unfold GenerateObjectID. split.
  - rewrite EncodeToString_length, Sum256_length. lia.
  - apply allLowerHex_plain, EncodeToString_lower.
Qed.

Lemma noFault_fault fs op p : noFault fs op → fault fs op p = false.
Proof.
  intros Hnf. unfold fault. apply bool_decide_eq_false_2. intros Hin.
  by apply (proj1 (Forall_forall _ _) Hnf) in Hin.
Qed.

Lemma noFault_faults fs fs' op : faults fs' = faults fs → noFault fs op → noFault fs' op.
Proof. unfold noFault. by intros ->. Qed.

Lemma cleanCopy_spec id b fs n :
  cleanCopy id b fs n = true ↔
  lookup fs (blobPath n id) = None ∨ holds n id b fs.
Proof.
  unfold cleanCopy, holds. destruct (lookup fs (blobPath n id)) as [[m|m d]|].
  - split; [done|]. by intros [?|[? ?]].
  - rewrite bool_decide_eq_true. split.
    + intros ->. right. by eexists.
    + intros [?|[m' [= _ ->]]]; done.
  - split; [by left|done].
Qed.

Lemma chain_blobPath n id :
  plain id = true → (4 ≤ String.length id)%nat →
  chain (blobPath n id) = blobPath n id :: chain (shardDir n id).
Proof.
  intros Hp Hlen. destruct (blobPath_plain n id Hp Hlen) as [_ ->]. apply chain_snoc.
Qed.

(** A [Store] on one node leaves the blob paths of separate nodes alone. *)
Lemma Store_other n id data fs res fs' q :
  plain id = true → (4 ≤ String.length id)%nat →
  Store n id data fs = (res, fs') →
  q ∉ chain (blobPath n id) → lookup fs' q = lookup fs q.
Proof.
  intros Hp Hlen Hst Hq. rewrite chain_blobPath in Hq by done.
  apply not_elem_of_cons in Hq as [Hne Hq].
  destruct (Store_cases _ _ _ _ _ _ Hlen Hst) as (_ & _ & Hframe & _).
  by destruct (Hframe q Hne) as [?|[? _]].
Qed.

(** A [Store] of the bytes [b] keeps the node's copy clean: it ends with
    the bytes in place, with the state it found, or with nothing. *)
Lemma Store_cleanCopy n id b fs res fs' :
  plain id = true → (4 ≤ String.length id)%nat → noFault fs OpRemove →
  Store n id (BytesReader b None) fs = (res, fs') →
  cleanCopy id b fs n = true →
  cleanCopy id b fs' n = true ∧ (res = Ok () → holds n id b fs').
Proof.
  intros Hp Hlen Hrm Hst Hclean.
  destruct (Store_cases _ _ _ _ _ _ Hlen Hst) as (_ & _ & _ & Hcase).
  destruct res as [[]|e|msg|]; try done.
  - destruct Hcase as (_ & mode & fs2 & Hblob & _). simpl in Hblob.
    assert (holds n id b fs') as Hh by (by exists mode).
    split; [|done]. apply cleanCopy_spec. by right.
  - split; [|done]. destruct Hcase as [[_ [Heq|(Hin & _)]]|[_ Hgone]].
    + unfold cleanCopy in *. by rewrite Heq.
    + by apply blobPath_not_in_chain in Hin.
    + apply cleanCopy_spec. left. apply Hgone. by apply noFault_fault.
Qed.

Lemma separated_lookup m id t t' n n' :
  separated m id → t ≠ t' → nodes m !! t = Some n → nodes m !! t' = Some n' →
  blobPath n id ∉ chain (blobPath n' id).
Proof.
  intros Hsep Hne Hn Hn'.
  destruct (Hsep t n Hn t' n' Hn') as [?|?]; done.
Qed.

(** The attempts of the write path keep every registered copy clean,
    leave the nodes that are no target alone, and leave the bytes on every
    node of the achieved list. *)
Lemma attempts_intact m id b targets fs :
  plain id = true → (4 ≤ String.length id)%nat →
  separated m id → NoDup targets → noFault fs OpRemove → intact m id b fs →
  let att := attempts m id b targets fs in
  faults att.2 = faults fs ∧ intact m id b att.2 ∧
  (∀ t n, t ∉ targets → nodes m !! t = Some n →
          lookup att.2 (blobPath n id) = lookup fs (blobPath n id)) ∧
  ∀ t, t ∈ achieved att.1 →
       t ∈ targets ∧ ∃ n, nodes m !! t = Some n ∧ holds n id b att.2.
Proof.
  intros Hp Hlen Hsep. revert fs.
  induction targets as [|t rest IH]; intros fs Hnd Hrm Hint; simpl.
  - split; [done|]. split; [done|]. split; [done|]. by intros t ?%elem_of_nil.
  - apply NoDup_cons in Hnd as [Hnotin Hnd].
    destruct (nodes m !! t) as [node|] eqn:Hnode.
    { destruct (Store node id (BytesReader b None) fs) as [res fs1] eqn:Hst. simpl.
      destruct (Store_cases _ _ _ _ _ _ Hlen Hst) as (_ & Hf1 & _ & _).
      destruct (Store_cleanCopy _ _ _ _ _ _ Hp Hlen Hrm Hst (Hint t node Hnode))
        as [Hclean1 Hok].
      assert (∀ t' n', t ≠ t' → nodes m !! t' = Some n' →
                lookup fs1 (blobPath n' id) = lookup fs (blobPath n' id)) as Hother.
      { intros t' n' Hne Hn'.
        apply (Store_other node id (BytesReader b None) fs res fs1); try done.
        by eapply (separated_lookup m id t' t). }
      assert (intact m id b fs1) as Hint1.
      { intros t' n' Hn'. simpl. destruct (decide (t = t')) as [<-|Hne].
        - by simplify_eq.
        - unfold cleanCopy. rewrite (Hother t' n') by done. by apply (Hint t' n'). }
      destruct (IH fs1 Hnd (noFault_faults _ _ _ Hf1 Hrm) Hint1)
        as (Hf & Hi & Hfr & Hach).
      split; [congruence|]. split; [done|]. split.
      { intros t' n' [Hne Hnin]%not_elem_of_cons Hn'.
        rewrite (Hfr t' n') by done. apply (Hother t' n'); [congruence|done]. }
      intros t'. rewrite achieved_cons.
      assert (t' ∈ achieved (attempts m id b rest fs1).1 →
              t' ∈ t :: rest ∧
              ∃ n, nodes m !! t' = Some n ∧ holds n id b (attempts m id b rest fs1).2)
        as Hrest.
      { intros Ht'. destruct (Hach t' Ht') as [? ?]. split; [by right|done]. }
      destruct res as [[]|e|msg|]; try done.
      intros [->|Ht']%elem_of_cons; [|by apply Hrest]. split; [by left|].
      exists node. split; [done|]. destruct (Hok eq_refl) as [mode Hmode].
      exists mode. by rewrite (Hfr t node). }
    destruct (IH fs Hnd Hrm Hint) as (Hf & Hi & Hfr & Hach).
    split; [done|]. split; [done|]. split.
    { intros t' n' [Hne Hnin]%not_elem_of_cons Hn'. by apply (Hfr t' n'). }
    intros t' Ht'. destruct (Hach t' Ht') as [? ?]. split; [by right|done].
Qed.

Lemma find_exists {A} (f : A → bool) l x :
  x ∈ l → f x = true → ∃ y, List.find f l = Some y.
Proof.
  intros Hin Hx. destruct (List.find f l) as [y|] eqn:Hfind; [by eexists|].
  apply list_elem_of_In in Hin. by rewrite (find_none f l Hfind x Hin) in Hx.
Qed.

Lemma Exists_true_lookup n id fs :
  (4 ≤ String.length id)%nat → Exists n id fs = Ok true →
  ∃ i, lookup fs (blobPath n id) = Some i.
Proof.
  intros Hlen. rewrite Exists_unfold by done. unfold Stat.
  destruct (fault fs OpStat _); [done|].
  destruct (lookup fs (blobPath n id)); [by eexists|done].
Qed.

(** Reading after a successful write, for any identifier the node store
    can slice: the first usable target holds the bytes. *)
Lemma read_after_write m id b targets fs reps fs' :
  plain id = true → (4 ≤ String.length id)%nat →
  GetNodes (hashRing m) id (replication m) = Ok targets → NoDup targets →
  separated m id → intact m id b fs →
  noFault fs OpRemove → noFault fs OpStat → noFault fs OpOpen →
  storeLoop m id b targets [] None fs = (Ok (reps, None), fs') ∨
  (∃ e, storeLoop m id b targets [] None fs = (Ok (reps, Some e), fs')) →
  reps ≠ [] →
  ∃ r, RetrieveObject m id fs' = Ok r ∧ ReadAll r fs' = Val b.
Proof.
  intros Hp Hlen Hg Hnd Hsep Hint Hrm Hstat Hopen Hloop Hreps.
  rewrite storeLoop_attempts in Hloop by done. simpl in Hloop.
  destruct (attempts_intact m id b targets fs Hp Hlen Hsep Hnd Hrm Hint)
    as (Hf & Hint' & _ & Hach).
  assert (reps = achieved (attempts m id b targets fs).1 ∧
          fs' = (attempts m id b targets fs).2) as [-> ->].
  { destruct Hloop as [Heq|[e Heq]]; by simplify_eq. }
  clear Hloop. set (fs' := (attempts m id b targets fs).2) in *.
  destruct (achieved (attempts m id b targets fs).1) as [|t reps] eqn:Hreps'; [done|].
  destruct (Hach t ltac:(by left)) as (Htin & n & Hn & Hholds).
  assert (∀ op, noFault fs op → ∀ p, fault fs' op p = false) as Hnf.
  { intros op Hop p. apply noFault_fault. by eapply noFault_faults. }
  destruct (usable_holder m id fs' t n b Hlen Hn Hholds) as [Hu _]; [by auto..|].
  destruct (find_exists _ _ _ Htin Hu) as [t' Hfind].
  rewrite (RetrieveObject_find m id fs' targets Hlen Hg). unfold firstUsable.
  rewrite Hfind. apply find_some in Hfind as [_ Hu'].
  destruct (usable_inv m id fs' t' Hlen Hu') as (n' & Hn' & Hex & ->).
  eexists. split; [done|].
  destruct (Exists_true_lookup n' id fs' Hlen Hex) as [i Hi].
  pose proof (Hint' t' n' Hn') as Hclean. simpl in Hclean.
  apply cleanCopy_spec in Hclean as [?|[mode Hmode]]; [congruence|].
  unfold ReadAll. simpl. by rewrite Hmode.
Qed.

(** C1 (as amended). Round trip: after [StoreObject(id, b)] with [id] the
    identifier of [b] has succeeded, on some targets at least,
    [RetrieveObject(id)] succeeds and its reader delivers exactly [b],
    provided that whatever a registered node already has under [id] is the
    blob [b] (content-addressing integrity), the registered nodes keep
    their blobs in separate places, and no [Remove], [Stat] or [Open] call
    is made to fail; writes may fail. *)
Theorem round_trip m hr b data size fs reps fs' :
  hashRing m = ringOf hr →
  ReadAll data fs = Val b →
  separated m (GenerateObjectID b) → intact m (GenerateObjectID b) b fs →
  noFault fs OpRemove → noFault fs OpStat → noFault fs OpOpen →
  StoreObject m (GenerateObjectID b) data size fs = (Ok reps, fs') →
  ∃ r, RetrieveObject m (GenerateObjectID b) fs' = Ok r ∧ ReadAll r fs' = Val b.
Proof.
  intros Hring Hread Hsep Hint Hrm Hstat Hopen Hstore.
  destruct (GenerateObjectID_wf b) as [Hlen Hp].
  set (id := GenerateObjectID b) in *.
  unfold StoreObject in Hstore. rewrite Hring in Hstore. simpl in Hstore.
  destruct (hashring.GetNodes hr id (replication m)) as [targets| | |] eqn:Hg;
    try done.
  destruct (len targets =? 0); [done|]. rewrite Hread in Hstore.
  destruct (storeLoop m id b targets [] None fs) as [[[reps' lastErr]| | |] fs1] eqn:Hloop;
    try done.
  destruct (Z.eqb_spec (len reps') 0) as [|Hnz]; [done|]. simplify_eq.
  apply (read_after_write m id b targets fs reps fs'); try done.
  - by rewrite Hring.
  - by eapply GetNodes_NoDup.
  - destruct lastErr as [e|]; [right; by exists e|by left].
  - intros ->. by apply Hnz.
Qed.

End round_trip.

(** C1, witness: S1, the upload of ["hello world\n"] on three nodes. *)
Lemma round_trip_witness :
  ∃ r, storage.RetrieveObject scenario.manager3 (storage.GenerateObjectID scenario.hello_world)
         scenario.stored_fs = Ok r ∧
       io.ReadAll r scenario.stored_fs = Val scenario.hello_world.
Proof.
  apply (round_trip scenario.manager3 scenario.ring3 scenario.hello_world
           (io.BytesReader scenario.hello_world None) 12
           (scenario.empty_fs (oct 0 2 2)) ["node1"; "node2"]%string scenario.stored_fs).
  - reflexivity.
  - reflexivity.
  - apply (bool_decide_unpack _). by vm_compute.
  - apply (bool_decide_unpack _). by vm_compute.
  - apply (bool_decide_unpack _). by vm_compute.
  - apply (bool_decide_unpack _). by vm_compute.
  - apply (bool_decide_unpack _). by vm_compute.
  - rewrite (surjective_pairing (storage.StoreObject _ _ _ _ _)).
    apply f_equal2; [vm_compute; reflexivity|reflexivity].
Defined.

(** C1, counterexample: the integrity of what the nodes hold is needed,
    and the code does not keep it.  A replication of the object of S1 onto
    [node1], the node it is read from, succeeds and leaves an empty blob
    there.  When the object is then stored again while the blob on [node1]
    cannot be created, [StoreObject] succeeds on [node2] alone, and
    [RetrieveObject] reads the empty blob of [node1], the first target. *)
Lemma round_trip_breaks_on_stale_copy :
  let m := scenario.manager3 in
  let id := storage.GenerateObjectID scenario.hello_world in
  let fs := scenario.unwritable_fs in
  let r := storage.StoreObject m id (io.BytesReader scenario.hello_world None) 12 fs in
  (storage.ReplicateObject m id "node1" scenario.stored_fs).1 = Ok () ∧
  storage.holds scenario.node1 id [] fs ∧
  storage.hashRing m = storage.ringOf scenario.ring3 ∧
  storage.separated m id ∧
  storage.noFault fs os.OpRemove ∧ storage.noFault fs os.OpStat ∧
  storage.noFault fs os.OpOpen ∧
  r.1 = Ok ["node2"%string] ∧
  ∃ rd, storage.RetrieveObject m id r.2 = Ok rd ∧
        io.ReadAll rd r.2 = Val [] ∧ [] ≠ scenario.hello_world.
Proof.
  intros m id fs r.
  split; [vm_compute; reflexivity|].
  split; [exists (oct 6 4 4); vm_compute; reflexivity|].
  split; [reflexivity|].
  split; [apply (bool_decide_unpack _); vm_compute; reflexivity|].
  split; [apply (bool_decide_unpack _); vm_compute; reflexivity|].
  split; [apply (bool_decide_unpack _); vm_compute; reflexivity|].
  split; [apply (bool_decide_unpack _); vm_compute; reflexivity|].
  split; [vm_compute; reflexivity|].
  exists (io.FileReader (storage.blobPath scenario.node1 id)).
  split; [vm_compute; reflexivity|]. split; [vm_compute; reflexivity|]. discriminate.
Qed.

(** ** Identifiers that are no ObjectIDs *)

Section any_id.
Import filepath os io storage.
Local Arguments blobPath : simpl never.
Local Arguments shardDir : simpl never.

(** [Store] succeeds when no call is made to fail and nothing is in the
    way. *)
Lemma Store_succeeds n id data fs :
  plain id = true → (4 ≤ String.length id)%nat →
  faults fs = [] → storable fs n id → readable fs n id data →
  ∃ fs', Store n id data fs = (Ok (), fs').
Proof.
  intros Hp Hlen Hnf [Hfile Hdir] Hread.
  assert (∀ fs0 op p, faults fs0 = faults fs → fault fs0 op p = false) as Hfault.
  { intros fs0 op p Hf. unfold fault. rewrite Hf, Hnf.
    apply bool_decide_eq_false_2. by intros ?%elem_of_nil. }
  destruct (blobPath_not_in_chain n id Hp Hlen) as [Hnotin Hparent].
  rewrite Store_unfold by done. unfold MkdirAll.
  destruct (mkdirAll_succeeds (rev (shardDir n id)) (oct 7 5 5) fs) as [fs1 Hmk].
  { intros q _. by apply Hfault. }
  { intros q mode d Hq. by apply Hfile. }
  fold (chain (shardDir n id)) in Hmk. rewrite Hmk.
  destruct (mkdirAll_frame (chain (shardDir n id)) (oct 7 5 5) fs) as (_ & Hf1 & Hq1).
  rewrite Hmk in Hf1, Hq1. simpl in Hf1, Hq1.
  destruct (mkdirAll_ok _ _ _ _ Hmk) as [md Hmd]. rewrite rev_involutive in Hmd.
  destruct (Create_succeeds (blobPath n id) fs1) as [fs2 Hcr].
  { by apply Hfault. }
  { destruct (Hq1 (blobPath n id)) as [Heq|(? & _)]; [|done].
    destruct (lookup fs (blobPath n id)) as [[mode|mode d]|] eqn:Hb.
    - by destruct (Hdir mode).
    - right. by exists mode, d.
    - left. split; [done|]. rewrite Hparent. by exists md. }
  rewrite Hcr.
  destruct (Create_inv _ _ _ _ Hcr) as (_ & Hf2 & Hq2 & _).
  unfold Copy. rewrite (Hfault fs2) by congruence.
  assert ((drain fs2 data).2 = None) as Hdrain.
  { destruct data as [d err|q]; simpl in *; [done|].
    destruct Hread as (Hne & mode & d & Hq).
    rewrite Hq2 by done.
    destruct (Hq1 q) as [->|(_ & ? & _)]; [|congruence]. by rewrite Hq. }
  destruct (drain fs2 data) as [d rerr]. simpl in Hdrain. subst rerr.
  by eexists.
Qed.


Lemma no_fault_at fs op p : faults fs = [] → fault fs op p = false.
Proof.
  intros Hnf. unfold fault. rewrite Hnf.
  apply bool_decide_eq_false_2. by intros ?%elem_of_nil.
Qed.


End any_id.



(** An identifier of fewer than four bytes makes the node operations
    panic on the slice expressions [objectID[0:2]] and [objectID[2:4]]. *)
Example short_id_panics :
  (storage.Store scenario.test_node "abc" (io.BytesReader scenario.test_data None)
     (scenario.empty_fs (oct 0 2 2))).1 = Panic "slice bounds out of range" ∧
  storage.Exists scenario.test_node "abc" (scenario.empty_fs (oct 0 2 2))
    = Panic "slice bounds out of range".
Proof. split; vm_compute; reflexivity. Qed.

(** ** Uploads *)

Lemma fromOk_eq {A} (d : A) (r : res A) : isOk r = true → r = Ok (fromOk d r).
Proof. by destruct r. Qed.

Section upload.
Import io storage api.

Lemma metadata_Exists_lookup id st :
  metadata.Exists id st = true ↔ ∃ m, metadata.objects st !! id = Some m.
Proof. unfold metadata.Exists. by rewrite bool_decide_eq_true. Qed.

Lemma UploadHandler_existing s rd pv ct now w data m :
  ReadAll rd (fs w) = Val data →
  metadata.objects (meta w) !! GenerateObjectID data = Some m →
  UploadHandler s (mkRequest "POST" pv (FormFile rd ct)) now w =
    Ok (mkHandled (mkResponse 200 (Metadata m)) w None).
Proof.
  intros Hrd Hm. unfold UploadHandler. simpl. rewrite Hrd.
  unfold metadata.Exists, metadata.Get. rewrite Hm.
  rewrite bool_decide_eq_true_2; [done|by eexists].
Qed.

(** The descriptor a save leaves under an identifier it is keyed by
    differs from the saved one at most in nothing, and from a previous
    one only if the save went through. *)
Lemma Save_lookup m st :
  metadata.objects (metadata.Save m st).2 !! metadata.ID m = Some m ∨
  (metadata.Save m st).2 = st.
Proof.
  unfold metadata.Save. destruct (metadata.readOnly st); simpl; [by right|].
  left. apply lookup_insert_eq.
Qed.

Lemma ensureReplication_meta s id m w :
  meta (ensureReplication s id m w).2 = meta w ∨
  ∃ l, meta (ensureReplication s id m w).2 =
       (metadata.Save (setReplicas m l) (meta w)).2.
Proof.
  unfold ensureReplication.
  destruct (CheckReplicas _ _ _); try (by left).
  destruct (_ >=? _); [by left|].
  destruct (GetTargetNodes _ _); try (by left).
  destruct (healLoop _ _ _ _ _ _ _) as [[] fs1]; simpl; try (by left).
  destruct (_ >? 0); [|by left].
  destruct (CheckReplicas _ _ _); simpl; try (by left).
  right. by eexists.
Qed.

(** The self-heal keeps everything but the replica list of the saved
    descriptor. *)
Lemma ensureReplication_keeps s m w :
  metadata.objects (meta w) !! metadata.ID m = Some m →
  ∃ l, metadata.objects (meta (ensureReplication s (metadata.ID m) m w).2)
         !! metadata.ID m = Some (setReplicas m l).
Proof.
  intros Hm. destruct m as [i sz ct at0 reps]. simpl in *.
  destruct (ensureReplication_meta s i (metadata.mkMeta i sz ct at0 reps) w)
    as [->|[l ->]].
  - exists reps. done.
  - destruct (Save_lookup (setReplicas (metadata.mkMeta i sz ct at0 reps) l) (meta w))
      as [H| ->].
    + exists l. exact H.
    + exists reps. done.
Qed.

(** What an upload of [data] that leaves a descriptor under its
    identifier has done: answered 200 with the descriptor that was
    there, or stored the object, saved a new descriptor and answered 201
    with it. *)
Lemma UploadHandler_saved s rd ct now w h data :
  ReadAll rd (fs w) = Val data →
  UploadHandler s (mkRequest "POST" "" (FormFile rd ct)) now w = Ok h →
  metadata.Exists (GenerateObjectID data) (meta (world h)) = true →
  ∃ m1,
    response h = mkResponse 200 (Metadata m1) ∧ spawned h = None ∧ world h = w ∧
    metadata.objects (meta w) !! GenerateObjectID data = Some m1
    ∨
    response h = mkResponse 201 (Metadata m1) ∧
    spawned h = Some (GenerateObjectID data, m1) ∧
    metadata.ID m1 = GenerateObjectID data ∧ metadata.CreatedAt m1 = now ∧
    metadata.objects (meta (world h)) !! GenerateObjectID data = Some m1.
Proof.
  intros Hrd Hup Hex. unfold UploadHandler in Hup. simpl in Hup. rewrite Hrd in Hup.
  destruct (metadata.objects (meta w) !! GenerateObjectID data) as [m0|] eqn:Hm0.
  - unfold metadata.Exists, metadata.Get in Hup. rewrite Hm0 in Hup.
    rewrite bool_decide_eq_true_2 in Hup by (by eexists).
    injection Hup as <-. exists m0. by left.
  - unfold metadata.Exists, metadata.Get in Hup. rewrite Hm0 in Hup.
    rewrite bool_decide_eq_false_2 in Hup by (by intros [? ?]).
    destruct (StoreObject _ _ _ _ _) as [[reps|e|msg|] fs1]; try done.
    + injection Hup as <-. simpl in *.
      eexists. right. split; [reflexivity|]. split; [reflexivity|].
      split; [reflexivity|]. split; [reflexivity|].
      apply metadata_Exists_lookup in Hex as [m Hm].
      match type of Hm with
      | metadata.objects (metadata.Save ?x _).2 !! _ = _ =>
          destruct (Save_lookup x (meta w)) as [H|H]
      end.
      * exact H.
      * rewrite H in Hm. congruence.
    + injection Hup as <-. simpl in Hex.
      apply metadata_Exists_lookup in Hex as [m Hm]. congruence.
Qed.

(** C7. Uploads are idempotent: the ObjectID is a function of the bytes,
    and when an upload of [data] has left its descriptor in the metadata
    store, a later upload of the same bytes, before or after the
    self-heal the first one started has run, answers 200 with the
    descriptor that is there, whose identifier, size, content type and
    [CreatedAt] are those the first upload answered with (at a later
    time [now2], under another content type), and changes nothing. *)
Theorem upload_idempotent s rd1 ct1 now1 w h ran rd2 ct2 now2 data :
  ReadAll rd1 (fs w) = Val data →
  UploadHandler s (mkRequest "POST" "" (FormFile rd1 ct1)) now1 w = Ok h →
  metadata.Exists (GenerateObjectID data) (meta (world h)) = true →
  ReadAll rd2 (fs (afterHeal s h ran)) = Val data →
  ∃ m1 m2,
    body (response h) = Metadata m1 ∧
    UploadHandler s (mkRequest "POST" "" (FormFile rd2 ct2)) now2 (afterHeal s h ran) =
      Ok (mkHandled (mkResponse 200 (Metadata m2)) (afterHeal s h ran) None) ∧
    metadata.ID m2 = metadata.ID m1 ∧
    metadata.CreatedAt m2 = metadata.CreatedAt m1 ∧
    metadata.Size m2 = metadata.Size m1 ∧
    metadata.ContentType m2 = metadata.ContentType m1 ∧
    (StatusCode (response h) = 201 →
     metadata.ID m1 = GenerateObjectID data ∧ metadata.CreatedAt m1 = now1).
Proof.
  intros Hrd1 Hup Hex Hrd2.
  destruct (UploadHandler_saved _ _ _ _ _ _ _ Hrd1 Hup Hex)
    as [m1 [(Hr & Hsp & Hw & Hm)|(Hr & Hsp & Hid & Hat & Hm)]].
  - exists m1, m1. rewrite Hr. split; [done|].
    assert (afterHeal s h ran = w) as Hw'.
    { unfold afterHeal. by rewrite Hsp. }
    rewrite Hw' in *. split; [by apply (UploadHandler_existing _ _ _ _ _ _ data)|].
    done.
  - rewrite Hr. simpl.
    assert (∃ l, metadata.objects (meta (afterHeal s h ran)) !! GenerateObjectID data
                 = Some (setReplicas m1 l)) as [l Hl].
    { unfold afterHeal. rewrite Hsp. destruct ran.
      - rewrite <- Hid. apply ensureReplication_keeps. by rewrite Hid.
      - exists (metadata.Replicas m1). by destruct m1. }
    exists m1, (setReplicas m1 l). split; [done|].
    split; [by apply (UploadHandler_existing _ _ _ _ _ _ data)|].
    done.
Qed.

End upload.

Lemma upload_idempotent_witness :
  ∃ m1 m2,
    api.body (api.response scenario.uploaded) = api.Metadata m1 ∧
    scenario.upload 2000 (api.afterHeal scenario.server3 scenario.uploaded true) =
      Ok (api.mkHandled (api.mkResponse 200 (api.Metadata m2))
            (api.afterHeal scenario.server3 scenario.uploaded true) None) ∧
    metadata.ID m2 = metadata.ID m1 ∧
    metadata.CreatedAt m2 = metadata.CreatedAt m1 ∧
    metadata.Size m2 = metadata.Size m1 ∧
    metadata.ContentType m2 = metadata.ContentType m1 ∧
    (api.StatusCode (api.response scenario.uploaded) = 201 →
     metadata.ID m1 = storage.GenerateObjectID scenario.hello_world ∧
     metadata.CreatedAt m1 = 1000).
Proof.
  apply (upload_idempotent scenario.server3 (io.BytesReader scenario.hello_world None)
           "text/plain" 1000 scenario.world0 scenario.uploaded true
           (io.BytesReader scenario.hello_world None) "text/plain" 2000
           scenario.hello_world).
  - vm_compute. reflexivity.
  - apply (fromOk_eq scenario.unanswered). vm_compute. reflexivity.
  - vm_compute. reflexivity.
  - vm_compute. reflexivity.
Defined.

(** S1 and S2: the first upload answers 201 with the replicas [node1]
    and [node2], the second 200 with the first one's [CreatedAt]. *)
Example upload_S1_S2 :
  api.response scenario.uploaded =
    api.mkResponse 201 (api.Metadata
      (metadata.mkMeta scenario.hello_id 12 "text/plain" 1000 ["node1"; "node2"])) ∧
  api.response scenario.uploadedAgain =
    api.mkResponse 200 (api.Metadata
      (metadata.mkMeta scenario.hello_id 12 "text/plain" 1000 ["node1"; "node2"])) ∧
  api.spawned scenario.uploadedAgain = None.
Proof. split; [|split]; vm_compute; reflexivity. Qed.

(** ** Self-healing *)

Section counting.
Context {A : Type} (P Q : A → Prop) `{!∀ x, Decision (P x)} `{!∀ x, Decision (Q x)}.

Lemma filter_length_ext (l : list A) :
  (∀ y, y ∈ l → (P y ↔ Q y)) → length (filter Q l) = length (filter P l).
Proof.
  induction l as [|y l IH]; intros Hext; [done|].
  rewrite !filter_cons.
  assert (length (filter Q l) = length (filter P l)) as Hl.
  { apply IH. intros z Hz. apply Hext. by right. }
  destruct (Hext y ltac:(by left)) as [H1 H2].
  destruct (decide (P y)), (decide (Q y)); simpl; auto; tauto.
Qed.

(** One more element passes the filter when exactly one key changes
    sides. *)
Lemma filter_length_flip {K : Type} (key : A → K) (l : list A) (x : A) :
  NoDup (key <$> l) → x ∈ l → ¬ P x → Q x →
  (∀ y, y ∈ l → key y ≠ key x → (P y ↔ Q y)) →
  length (filter Q l) = S (length (filter P l)).
Proof.
  induction l as [|y l IH]; intros Hnd Hx HP HQ Hext.
  { by apply elem_of_nil in Hx. }
  rewrite fmap_cons in Hnd. apply NoDup_cons in Hnd as [Hy Hnd].
  rewrite !filter_cons.
  apply elem_of_cons in Hx as [->|Hx].
  - rewrite decide_True, decide_False by done. simpl. f_equal.
    apply filter_length_ext. intros z Hz. apply Hext; [by right|].
    intros Heq. apply Hy. rewrite <- Heq. by apply list_elem_of_fmap_2.
  - assert (key y ≠ key x) as Hk.
    { intros Heq. apply Hy. rewrite Heq. by apply list_elem_of_fmap_2. }
    assert (length (filter Q l) = S (length (filter P l))) as Hl.
    { apply IH; try done. intros z Hz. apply Hext. by right. }
    destruct (Hext y ltac:(by left) Hk) as [H1 H2].
    destruct (decide (P y)), (decide (Q y)); simpl; auto; tauto.
Qed.

End counting.

Section self_heal.
Import filepath os io storage.
Local Arguments blobPath : simpl never.
Local Arguments shardDir : simpl never.
Local Arguments Store : simpl never.
Local Arguments Exists : simpl never.
Local Arguments Retrieve : simpl never.
Local Arguments achieved : simpl never.
Local Arguments lastError : simpl never.

Variables (m : Manager) (id : string).
Hypothesis Hp : plain id = true.
Hypothesis Hlen : (4 ≤ String.length id)%nat.
Hypothesis Hsep : separated m id.

Lemma lookup_recovered fs q : lookup (recovered fs) q = lookup fs q.
Proof. done. Qed.

Lemma holders_elem fs x :
  x ∈ holders m id fs ↔
  ∃ n, nodes m !! x = Some n ∧ is_Some (lookup fs (blobPath n id)).
Proof.
  unfold holders. rewrite list_elem_of_fmap. split.
  - intros [[t n] [-> [Hs Hin]%list_elem_of_filter]]. simpl in *.
    apply elem_of_map_to_list in Hin. by exists n.
  - intros (n & Hn & Hs). exists (x, n). split; [done|].
    apply list_elem_of_filter. split; [done|]. by apply elem_of_map_to_list.
Qed.

Lemma holders_length fs :
  (length (holders m id fs) ≤ size (nodes m))%nat.
Proof.
  unfold holders. rewrite length_fmap. etrans; [apply length_filter|].
  by rewrite length_map_to_list.
Qed.

Lemma checkLoop_filter fs (ns : list (string * Node)) acc :
  faults fs = [] →
  checkLoop id ns acc fs =
    Ok (acc ++ (filter (λ kv, is_Some (lookup fs (blobPath kv.2 id))) ns).*1).
Proof.
  intros Hnf. revert acc. induction ns as [|[t n] ns IH]; intros acc; simpl.
  - by rewrite app_nil_r.
  - rewrite filter_cons. simpl.
    destruct (lookup fs (blobPath n id)) as [i|] eqn:Hl.
    + rewrite (Exists_present n id fs i) by (try done; by apply no_fault_at).
      rewrite decide_True by done. rewrite IH. simpl. by rewrite <- app_assoc.
    + rewrite Exists_absent by done.
      rewrite decide_False by (by intros [? ?]). apply IH.
Qed.

Lemma CheckReplicas_holders fs :
  faults fs = [] → CheckReplicas m id fs = Ok (holders m id fs).
Proof. intros Hnf. unfold CheckReplicas. by rewrite checkLoop_filter. Qed.

(** A node that had nothing under the identifier and now has something,
    the others as before: one holder more. *)
Lemma holders_add fs fs' t n :
  nodes m !! t = Some n → lookup fs (blobPath n id) = None →
  is_Some (lookup fs' (blobPath n id)) →
  (∀ t' n', t' ≠ t → nodes m !! t' = Some n' →
            lookup fs' (blobPath n' id) = lookup fs (blobPath n' id)) →
  length (holders m id fs') = S (length (holders m id fs)) ∧
  (∀ x, x ∈ holders m id fs → x ∈ holders m id fs') ∧
  t ∈ holders m id fs'.
Proof.
  intros Hn Hnone Hsome Hother. split; [|split].
  - unfold holders. rewrite !length_fmap.
    apply (filter_length_flip _ _ fst _ (t, n)).
    + apply NoDup_fst_map_to_list.
    + by apply elem_of_map_to_list.
    + simpl. rewrite Hnone. by intros [? ?].
    + done.
    + intros [t' n'] Hin Hne. simpl in *. apply elem_of_map_to_list in Hin.
      by rewrite (Hother t' n').
  - intros x (n' & Hn' & Hs)%holders_elem. apply holders_elem. exists n'.
    split; [done|]. destruct (decide (x = t)) as [->|Hne].
    + by simplify_eq.
    + by rewrite (Hother x n').
  - apply holders_elem. by exists n.
Qed.

(** The write path leaves something under the identifier on every node
    of the achieved list, and the nodes that are no target alone. *)
Lemma attempts_holder b targets fs :
  NoDup targets →
  let att := attempts m id b targets fs in
  (∀ t n, t ∉ targets → nodes m !! t = Some n →
          lookup att.2 (blobPath n id) = lookup fs (blobPath n id)) ∧
  ∀ t, t ∈ achieved att.1 →
       t ∈ targets ∧ ∃ n, nodes m !! t = Some n ∧ is_Some (lookup att.2 (blobPath n id)).
Proof.
  revert fs. induction targets as [|t rest IH]; intros fs Hnd; simpl.
  { split; [done|]. by intros t ?%elem_of_nil. }
  apply NoDup_cons in Hnd as [Hnotin Hnd].
  destruct (nodes m !! t) as [node|] eqn:Hnode.
  - destruct (Store node id (BytesReader b None) fs) as [res fs1] eqn:Hst. simpl.
    assert (∀ t' n', t ≠ t' → nodes m !! t' = Some n' →
              lookup fs1 (blobPath n' id) = lookup fs (blobPath n' id)) as Hother.
    { intros t' n' Hne Hn'.
      apply (Store_other node id (BytesReader b None) fs res fs1); try done.
      by eapply (separated_lookup m id t' t). }
    destruct (IH fs1 Hnd) as [Hfr Hach]. split.
    { intros t' n' [Hne Hnin]%not_elem_of_cons Hn'.
      rewrite (Hfr t' n') by done. apply (Hother t' n'); [congruence|done]. }
    intros t'. rewrite achieved_cons.
    assert (t' ∈ achieved (attempts m id b rest fs1).1 →
            t' ∈ t :: rest ∧
            ∃ n, nodes m !! t' = Some n ∧
                 is_Some (lookup (attempts m id b rest fs1).2 (blobPath n id)))
      as Hrest.
    { intros Ht'. destruct (Hach t' Ht') as [? ?]. split; [by right|done]. }
    destruct res as [[]|e|msg|]; try done.
    intros [->|Ht']%elem_of_cons; [|by apply Hrest]. split; [by left|].
    exists node. split; [done|]. rewrite (Hfr t node) by done.
    destruct (Store_cases _ _ _ _ _ _ Hlen Hst) as (_ & _ & _ & _ & mode & fs2 & Hb & _).
    by eexists.
  - destruct (IH fs Hnd) as [Hfr Hach]. split.
    { intros t' n' [Hne Hnin]%not_elem_of_cons Hn'. by apply (Hfr t' n'). }
    intros t' Ht'. destruct (Hach t' Ht') as [? ?]. split; [by right|done].
Qed.

(** On a file system without faults where nothing is in the way and some
    ring target has the object, [ReplicateObject] to a registered node
    that lacks it succeeds: the node has it afterwards, and the other
    nodes are as before. *)
Lemma ReplicateObject_heals targets fs t n t0 n0 :
  GetNodes (hashRing m) id (replication m) = Ok targets →
  faults fs = [] → unobstructed m id fs →
  t0 ∈ targets → nodes m !! t0 = Some n0 → is_Some (lookup fs (blobPath n0 id)) →
  nodes m !! t = Some n → lookup fs (blobPath n id) = None →
  ∃ fs', ReplicateObject m id t fs = (Ok (), fs') ∧ faults fs' = [] ∧
    unobstructed m id fs' ∧
    is_Some (lookup fs' (blobPath n id)) ∧
    (∀ t' n', t' ≠ t → nodes m !! t' = Some n' →
              lookup fs' (blobPath n' id) = lookup fs (blobPath n' id)).
Proof.
  intros Hg Hnf Hst Ht0 Hn0 [i0 Hi0] Hn Hnone.
  assert (∀ t n i, nodes m !! t = Some n → lookup fs (blobPath n id) = Some i →
                   ∃ mode d, i = File mode d) as Hfile.
  { intros t' n' i Hn' Hi. destruct i as [mode|mode d]; [|by eexists _, _].
    by destruct (proj2 (Hst t' n' Hn') mode). }
  destruct (Hfile t0 n0 i0 Hn0 Hi0) as (mode0 & d0 & ->).
  destruct (usable_holder m id fs t0 n0 d0 Hlen Hn0) as [Hu0 _];
    [by exists mode0|by apply no_fault_at..|].
  destruct (find_exists _ _ _ Ht0 Hu0) as [t1 Hfind].
  pose proof Hfind as [_ Hu1]%find_some.
  destruct (usable_inv m id fs t1 Hlen Hu1) as (n1 & Hn1 & Hex1 & Hreader).
  destruct (Exists_true_lookup n1 id fs Hlen Hex1) as [i1 Hi1].
  destruct (Hfile t1 n1 i1 Hn1 Hi1) as (mode1 & d1 & ->).
  assert (t1 ≠ t) as Hne1 by (intros ->; simplify_eq).
  assert (blobPath n1 id ≠ blobPath n id) as Hsrc.
  { intros Heq. apply (separated_lookup m id t1 t n1 n Hsep Hne1 Hn1 Hn).
    rewrite chain_blobPath by done. rewrite Heq. by left. }
  destruct (Store_succeeds n id (FileReader (blobPath n1 id)) fs Hp Hlen Hnf (Hst t n Hn))
    as [fs' Hstore].
  { split; [done|]. by exists mode1, d1. }
  exists fs'. unfold ReplicateObject.
  rewrite (RetrieveObject_find m id fs targets Hlen Hg). unfold firstUsable.
  rewrite Hfind, Hreader, Hn, Hstore.
  destruct (Store_cases _ _ _ _ _ _ Hlen Hstore)
    as (_ & Hf & Hframe & _ & mode & fs2 & Hblob & _).
  assert (∀ t' n', t' ≠ t → nodes m !! t' = Some n' →
            lookup fs' (blobPath n' id) = lookup fs (blobPath n' id)) as Hother.
  { intros t' n' Hne Hn'.
    apply (Store_other n id (FileReader (blobPath n1 id)) fs (Ok ()) fs'); try done.
    by eapply (separated_lookup m id t' t). }
  split; [done|]. split; [congruence|]. split; [|split; [by eexists|done]].
  intros t' n' Hn'. split.
  - intros q mode' d' Hq Hl.
    destruct (decide (q = blobPath n id)) as [->|Hqne].
    + destruct (decide (t' = t)) as [->|Hne].
      * simplify_eq. by apply (proj1 (blobPath_not_in_chain n id Hp Hlen)).
      * apply (separated_lookup m id t t' n n' Hsep ltac:(done) Hn Hn').
        rewrite chain_blobPath by done. by right.
    + destruct (Hframe q Hqne) as [Heq|(_ & _ & Hdir)]; [|congruence].
      rewrite Heq in Hl. by apply (proj1 (Hst t' n' Hn') q mode' d').
  - intros mode' Hl. destruct (decide (t' = t)) as [->|Hne].
    + simplify_eq.
    + rewrite (Hother t' n') in Hl by done. by apply (proj2 (Hst t' n' Hn') mode').
Qed.

End self_heal.

Section convergence.
Import filepath os io storage.
Local Arguments blobPath : simpl never.
Local Arguments shardDir : simpl never.
Local Arguments Store : simpl never.
Local Arguments Exists : simpl never.
Local Arguments Retrieve : simpl never.
Local Arguments achieved : simpl never.
Local Arguments lastError : simpl never.
Local Arguments hashring.hashKey : simpl never.
Local Opaque hashring.hashKey hashring.virtualKey.

Variables (s : api.Server) (id : string).
Hypothesis Hp : plain id = true.
Hypothesis Hlen : (4 ≤ String.length id)%nat.
Hypothesis Hsep : separated (api.storageManager s) id.

Local Abbreviation m := (api.storageManager s).

Lemma GetNodes_nonneg hr key count l :
  hashring.GetNodes hr key count = Ok l → l ≠ [] → 0 ≤ count.
Proof.
  unfold hashring.GetNodes. destruct (_ =? 0); [by intros [= <-]|].
  destruct (Z.gtb_spec count (Z.of_nat (size (hashring.nodes hr)))) as [Hgt|Hle].
  { intros _ _. lia. }
  destruct (Z.ltb_spec count 0); [done|]. intros _ _. lia.
Qed.

(** The loop of [ensureReplication], started below the replication
    factor on a file system without faults where nothing is in the way
    and some ring target has the object: every replication succeeds, each
    one adds a holder, and the loop ends at the replication factor or
    with every target a holder. *)
Lemma healLoop_spec targets (A : gset string) h rest replicated fs t0 n0 :
  GetNodes (hashRing m) id (storage.replication m) = Ok targets →
  t0 ∈ targets → nodes m !! t0 = Some n0 →
  is_Some (lookup fs (blobPath n0 id)) →
  faults fs = [] → unobstructed m id fs →
  NoDup rest → (∀ t, t ∈ rest → is_Some (nodes m !! t)) →
  (∀ t n, t ∈ rest → t ∉ A → nodes m !! t = Some n →
          lookup fs (blobPath n id) = None) →
  (∀ t, t ∈ A → t ∈ holders m id fs) →
  len (holders m id fs) = h + replicated →
  h + replicated < api.replication s →
  ∃ replicated' fs',
    api.healLoop s id h A rest replicated fs = (Ok replicated', fs') ∧
    faults fs' = [] ∧
    replicated ≤ replicated' ∧
    len (holders m id fs') = h + replicated' ∧
    (h + replicated' = api.replication s ∨
     (h + replicated' < api.replication s ∧ ∀ t, t ∈ rest → t ∈ holders m id fs')) ∧
    (∀ x, x ∈ holders m id fs → x ∈ holders m id fs').
Proof.
  intros Hg Ht0 Hn0. revert replicated fs.
  induction rest as [|t rest IH];
    intros replicated fs Hs0 Hnf Hun Hnd Hreg Hnone HA Hcount Hlt.
  - exists replicated, fs. simpl. split; [done|]. split; [done|]. split; [lia|].
    split; [done|]. split; [|done]. right. split; [done|]. by intros t ?%elem_of_nil.
  - apply NoDup_cons in Hnd as [Hnotin Hnd]. simpl.
    destruct (decide (t ∈ A)) as [HtA|HtA].
    + destruct (IH replicated fs) as (r' & fs' & Hloop & Hf' & Hle & Hc' & Hfin & Hmono);
        try done.
      { intros t' Ht'. apply Hreg. by right. }
      { intros t' n' Ht'. apply Hnone. by right. }
      exists r', fs'. split; [done|]. split; [done|]. split; [done|]. split; [done|].
      split; [|done]. destruct Hfin as [?|[? Hall]]; [by left|right]. split; [done|].
      intros t' [->|Ht']%elem_of_cons; [|by apply Hall]. by apply Hmono, HA.
    + destruct (Hreg t ltac:(by left)) as [n Hn].
      pose proof (Hnone t n ltac:(by left) HtA Hn) as Hnone_t.
      destruct (ReplicateObject_heals m id Hp Hlen Hsep targets fs t n t0 n0)
        as (fs1 & Hrep & Hf1 & Hun1 & Hsome & Hother); try done.
      rewrite Hrep.
      destruct (holders_add m id fs fs1 t n Hn Hnone_t Hsome Hother)
        as (Hlen1 & Hmono1 & Hin1).
      assert (len (holders m id fs1) = h + (replicated + 1)) as Hcount1.
      { unfold len in *. lia. }
      destruct (h + (replicated + 1) >=? api.replication s) eqn:Hge.
      * rewrite Z.geb_leb in Hge. apply Z.leb_le in Hge.
        exists (replicated + 1), fs1. split; [done|]. split; [done|]. split; [lia|].
        split; [done|]. split; [left; lia|done].
      * rewrite Z.geb_leb in Hge. apply Z.leb_gt in Hge.
        destruct (IH (replicated + 1) fs1)
          as (r' & fs' & Hloop & Hf' & Hle & Hc' & Hfin & Hmono); try done.
        { destruct (decide (t0 = t)) as [->|Hne]; [by simplify_eq|].
          by rewrite (Hother t0 n0). }
        { intros t' Ht'. apply Hreg. by right. }
        { intros t' n' Ht' HnA Hn'. rewrite (Hother t' n'); [|by intros ->|done].
          apply (Hnone t' n'); [by right|done..]. }
        { intros t' Ht'. by apply Hmono1, HA. }
        exists r', fs'. split; [done|]. split; [done|]. split; [lia|]. split; [done|].
        split; [|by auto]. destruct Hfin as [?|[? Hall]]; [by left|right].
        split; [done|].
        intros t' [->|Ht']%elem_of_cons; [|by apply Hall]. by apply Hmono.
Qed.

(** C6 (as amended). Replica convergence: let [StoreObject] have stored
    [id] on some node at least, and let one self-heal cycle run once all
    nodes are live and error-free, with every node of a consistent ring
    registered, the server and the manager on the same replication factor
    [R], the nodes in separate places and nothing in the way.  The cycle
    completes, and [CheckReplicas] then returns [max(h, min(R, N))] nodes,
    where [h] is the number of registered nodes that had the object when
    the cycle started: exactly [min(R, N)] when that was at most [R]; a
    copy on a node that is no target is counted and never removed. *)
Theorem heal_converges hr data sz fs0 reps fs1 meta0 ms :
  hashRing m = ringOf hr → hashring.ring_ok hr →
  dom (nodes m) = dom (hashring.nodes hr) →
  api.replication s = storage.replication m →
  StoreObject m id data sz fs0 = (Ok reps, fs1) →
  unobstructed m id fs1 →
  ∃ meta1 w1,
    api.ensureReplication s id meta0 (api.mkWorld (recovered fs1) ms) = (Ok meta1, w1) ∧
    CheckReplicas m id (recovered fs1) = Ok (holders m id fs1) ∧
    CheckReplicas m id (api.fs w1) = Ok (holders m id (api.fs w1)) ∧
    len (holders m id (api.fs w1)) =
      Z.max (len (holders m id fs1))
            (Z.min (storage.replication m) (hashring.NodeCount hr)) ∧
    (len (holders m id fs1) ≤ storage.replication m →
     len (holders m id (api.fs w1)) =
       Z.min (storage.replication m) (hashring.NodeCount hr)).
Proof.
  intros Hring Hok Hdom HR Hstore Hun.
  (* what the successful store left *)
  unfold StoreObject in Hstore. rewrite Hring in Hstore. simpl in Hstore.
  destruct (hashring.GetNodes hr id (storage.replication m)) as [targets| | |] eqn:Hg;
    try done.
  destruct (len targets =? 0); [done|].
  destruct (ReadAll data fs0) as [b|e]; [|done].
  rewrite storeLoop_attempts in Hstore by done. simpl in Hstore.

  destruct (Z.eqb_spec (len (achieved (attempts m id b targets fs0).1)) 0) as [|Hnz];
    [done|].
  injection Hstore as <- <-.
  pose proof (GetNodes_NoDup _ _ _ _ Hg) as Hnd.
  destruct (attempts_holder m id Hp Hlen Hsep b targets fs0 Hnd) as [_ Hach].
  destruct (achieved (attempts m id b targets fs0).1) as [|t0 reps] eqn:Hreps; [done|].
  destruct (Hach t0 ltac:(by left)) as (Ht0 & n0 & Hn0 & Hhold).
  set (fs1 := (attempts m id b targets fs0).2) in *.
  (* the ring *)
  assert (0 ≤ storage.replication m) as HR0.
  { apply (GetNodes_nonneg hr id _ targets Hg). intros ->. by apply elem_of_nil in Ht0. }
  destruct (GetNodes_spec hr id (storage.replication m) Hok HR0)
    as (targets' & Hg' & _ & Hcount & Hin).
  rewrite Hg in Hg'. injection Hg' as <-.
  assert (hashring.NodeCount hr = Z.of_nat (size (nodes m))) as HN.
  { unfold hashring.NodeCount. by rewrite <- !size_dom, Hdom. }
  pose proof (holders_length m id fs1) as Hh1.
  assert (GetNodes (hashRing m) id (storage.replication m) = Ok targets) as Hgm.
  { by rewrite Hring. }
  pose proof (CheckReplicas_holders m id Hlen (recovered fs1) eq_refl) as Hcheck.
  change (holders m id (recovered fs1)) with (holders m id fs1) in Hcheck.
  (* the cycle *)
  unfold api.ensureReplication. simpl. rewrite Hcheck.
  destruct (len (holders m id fs1) >=? api.replication s) eqn:Hge.
  - rewrite Z.geb_leb in Hge. apply Z.leb_le in Hge.
    eexists _, _. split; [reflexivity|]. simpl.
    change (holders m id (recovered fs1)) with (holders m id fs1).
    split; [done|]. split; [done|]. unfold len in *. split; lia.
  - rewrite Z.geb_leb in Hge. apply Z.leb_gt in Hge.
    unfold GetTargetNodes. rewrite Hgm.
    destruct (healLoop_spec targets (list_to_set (holders m id fs1))
                (len (holders m id fs1)) targets 0 (recovered fs1) t0 n0)
      as (r' & fs' & Hloop & Hf' & Hle & Hc' & Hfin & Hmono); try done.
    { intros t Ht. apply elem_of_dom. rewrite Hdom. by apply Hin. }
    { intros t n _ HtA Hn. rewrite lookup_recovered.
      destruct (lookup fs1 (blobPath n id)) as [i|] eqn:Hl; [|done].
      destruct HtA. apply elem_of_list_to_set, holders_elem. exists n.
      split; [done|]. by eexists. }
    { by intros t ?%elem_of_list_to_set. }
    { change (holders m id (recovered fs1)) with (holders m id fs1). lia. }
    { lia. }
    rewrite Hloop.
    pose proof (CheckReplicas_holders m id Hlen fs' Hf') as Hcheck'.
    pose proof (holders_length m id fs') as Hh'.
    assert (len (holders m id fs') =
            Z.min (storage.replication m) (hashring.NodeCount hr)) as Hfinal.
    { destruct Hfin as [Heq|[Hlt Hall]].
      - unfold len in *. lia.
      - assert (length targets ≤ length (holders m id fs'))%nat as Hsub.
        { apply submseteq_length, NoDup_submseteq; [done|]. intros x Hx. by apply Hall. }
        unfold len, hashring.len in *. lia. }
    assert (len (holders m id fs1) ≤ len (holders m id fs')) as Hmon by lia.
    destruct (r' >? 0).
    + rewrite Hcheck'. eexists _, _. split; [reflexivity|]. simpl.
      split; [done|]. split; [done|]. split; lia.
    + eexists _, _. split; [reflexivity|]. simpl.
      split; [done|]. split; [done|]. split; lia.
Qed.

End convergence.

(** C6, witness: S3.  The upload of S1 reaches [node1] only, creating
    the blob on [node2] fails; the self-heal that runs once the fault is
    gone copies the object to [node2]. *)
Lemma heal_converges_witness :
  let m := api.storageManager scenario.server3 in
  let id := scenario.hello_id in
  ∃ meta1 w1,
    api.ensureReplication scenario.server3 id (scenario.descriptor ["node1"%string])
      (api.mkWorld (os.recovered scenario.partial_fs) scenario.store0) = (Ok meta1, w1) ∧
    storage.CheckReplicas m id (os.recovered scenario.partial_fs) =
      Ok (storage.holders m id scenario.partial_fs) ∧
    storage.CheckReplicas m id (api.fs w1) = Ok (storage.holders m id (api.fs w1)) ∧
    storage.len (storage.holders m id (api.fs w1)) =
      Z.max (storage.len (storage.holders m id scenario.partial_fs))
            (Z.min (storage.replication m) (hashring.NodeCount scenario.ring3)) ∧
    (storage.len (storage.holders m id scenario.partial_fs) ≤ storage.replication m →
     storage.len (storage.holders m id (api.fs w1)) =
       Z.min (storage.replication m) (hashring.NodeCount scenario.ring3)).
Proof.
  intros m id.
  apply (heal_converges scenario.server3 id) with
    (data := io.BytesReader scenario.hello_world None) (sz := 12)
    (fs0 := scenario.degraded_fs) (reps := ["node1"%string]).
  - vm_compute. reflexivity.
  - vm_compute. lia.
  - apply (bool_decide_unpack _). by vm_compute.
  - reflexivity.
  - unfold hashring.ring_ok. apply (bool_decide_unpack _). by vm_compute.
  - apply (bool_decide_unpack _). by vm_compute.
  - reflexivity.
  - rewrite (surjective_pairing (storage.StoreObject _ _ _ _ _)).
    apply f_equal2; [vm_compute; reflexivity|reflexivity].
  - apply (bool_decide_unpack _). by vm_compute.
Defined.

(** S3 in numbers: one holder before the cycle, two after it. *)
Example heal_S3 :
  storage.holders scenario.manager3 scenario.hello_id scenario.partial_fs = ["node1"%string] ∧
  storage.CheckReplicas scenario.manager3 scenario.hello_id
    (api.fs (api.ensureReplication scenario.server3 scenario.hello_id
               (scenario.descriptor ["node1"%string])
               (api.mkWorld (os.recovered scenario.partial_fs) scenario.store0)).2)
    = Ok ["node1"; "node2"]%string.
Proof. split; vm_compute; reflexivity. Qed.

(** C6, counterexample: [node3], which is no ring target of the object
    of S1, has a copy of it (put there by [ReplicateObject]).  The object
    is stored again, on [node1] and [node2]; the self-heal cycle finds
    three holders, which is not below the replication factor 2, and
    returns; [CheckReplicas] then lists three nodes, and [min(R, N)] is
    2. *)
Lemma heal_keeps_stale_replica :
  (storage.ReplicateObject scenario.manager3 scenario.hello_id "node3"
     scenario.stored_fs).1 = Ok () ∧
  (storage.StoreObject scenario.manager3 scenario.hello_id
     (io.BytesReader scenario.hello_world None) 12 scenario.stale_fs).1
    = Ok ["node1"; "node2"]%string ∧
  os.faults scenario.restored_fs = [] ∧
  (api.ensureReplication scenario.server3 scenario.hello_id
     (scenario.descriptor ["node1"; "node2"]%string)
     (api.mkWorld scenario.restored_fs scenario.store0)).1
    = Ok (scenario.descriptor ["node1"; "node2"]%string) ∧
  storage.CheckReplicas scenario.manager3 scenario.hello_id
    (api.fs (api.ensureReplication scenario.server3 scenario.hello_id
               (scenario.descriptor ["node1"; "node2"]%string)
               (api.mkWorld scenario.restored_fs scenario.store0)).2)
    = Ok ["node3"; "node1"; "node2"]%string ∧
  Z.min (storage.replication scenario.manager3) (hashring.NodeCount scenario.ring3) = 2.
Proof. split; [|split; [|split; [|split; [|split]]]]; vm_compute; reflexivity. Qed.

(* ================================================================== *)
(** * More of the code *)

(** ** The ring under membership changes *)

Section ring_more.
Import hashring.
Local Arguments hashKey : simpl never.
Local Arguments virtualKey : simpl never.
Local Opaque hashKey virtualKey.

Lemma GetNodes_owners hr key count l :
  GetNodes hr key count = Ok l →
  len l ≤ Z.max 0 count ∧ len l ≤ NodeCount hr ∧ ∀ x, x ∈ l → x ∈ owners hr.
Proof.
  unfold GetNodes, NodeCount.
  destruct (Z.eqb_spec (Z.of_nat (size (nodes hr))) 0) as [H0|HN].
  { intros [= <-]. unfold len. simpl.
    split; [lia|]. split; [lia|]. by intros x ?%elem_of_nil. }
  set (c := if count >? _ then _ else count).
  assert (c = Z.min count (Z.of_nat (size (nodes hr)))) as Hc.
  { unfold c. destruct (Z.gtb_spec count (Z.of_nat (size (nodes hr)))); lia. }
  destruct (Z.ltb_spec c 0) as [|Hc0]; [done|].
  destruct (decide (sortedHashes hr = [])) as [Hnil|Hne].
  - assert (findNodeIndex hr (hashKey key) = 0) as ->.
    { unfold findNodeIndex, sort.Search. by rewrite Hnil. }
    unfold collect. rewrite Hnil. change (len []) with 0. simpl.
    destruct (0 <? c); [done|]. intros [= <-]. unfold len. simpl.
    split; [lia|]. split; [lia|]. by intros x ?%elem_of_nil.
  - pose proof (findNodeIndex_range hr (hashKey key) Hne) as Hr.
    destruct (Z.eqb_spec (findNodeIndex hr (hashKey key)) (-1)); [lia|].
    destruct (collect_from_start hr (hashKey key) c Hne Hc0)
      as (l' & Hl & Hnd & Hsub & Hlen).
    rewrite Hl. intros [= <-]. split; [lia|]. split; [lia|done].
Qed.

(** X1. Whatever the ring, a list [GetNodes] returns has no repeats, at most
    [count] entries and at most as many as the ring has nodes, and each
    entry is the owner of a ring position. *)
Theorem GetNodes_distinct_bounded hr key count l :
  GetNodes hr key count = Ok l →
  NoDup l ∧ len l ≤ Z.max 0 count ∧ len l ≤ NodeCount hr ∧
  ∀ x, x ∈ l → x ∈ owners hr.
Proof.
  intros Hl. split; [by eapply GetNodes_NoDup|]. by eapply GetNodes_owners.
Qed.

Lemma collect_prefix fuel hr hash count idx ns seen l :
  collect fuel hr hash count idx ns seen = Ok l → ns `prefix_of` l.
Proof.
  revert idx ns seen. induction fuel as [|fuel IH]; intros idx ns seen; simpl.
  - destruct (_ <? _); [done|]. by intros [= <-].
  - destruct (_ <? _); [|by intros [= <-]].
    destruct (_ || _); [done|].
    assert (ns `prefix_of`
              (if decide (default EmptyString
                            (hashToNode hr !! default 0 (sortedHashes hr !! Z.to_nat idx))
                          ∈ seen)
               then ns
               else ns ++ [default EmptyString
                             (hashToNode hr !! default 0 (sortedHashes hr !! Z.to_nat idx))]))
      as Hpre.
    { destruct (decide _); [done|]. by apply prefix_app_r. }
    destruct (_ && _).
    + by intros [= <-].
    + intros Hl. etrans; [exact Hpre|]. by eapply IH.
Qed.

(** The first node returned is the owner of the position
    [findNodeIndex] finds for the key. *)
Lemma GetNodes_head hr key count l :
  GetNodes hr key count = Ok l → l ≠ [] →
  sortedHashes hr ≠ [] ∧
  head l = Some (ownerAt hr (findNodeIndex hr (hashKey key))).
Proof.
  intros Hl Hne. revert Hl. unfold GetNodes.
  destruct (_ =? 0); [by intros [= <-]|].
  destruct (_ <? 0); [done|]. destruct (_ =? -1); [by intros [= <-]|].
  simpl. destruct (_ <? _) eqn:Hlt; [|by intros [= <-]].
  destruct (Z.ltb_spec (findNodeIndex hr (hashKey key)) 0); [done|].
  destruct (Z.leb_spec (len (sortedHashes hr)) (findNodeIndex hr (hashKey key)));
    [done|].
  simpl. rewrite decide_False by set_solver.
  destruct (ownerAt_lookup hr (findNodeIndex hr (hashKey key))) as [-> _]; [lia|].
  assert (sortedHashes hr ≠ []) as Hpos.
  { intros Hnil. rewrite Hnil in *. unfold len in *. simpl in *. lia. }
  destruct (_ && _).
  - by intros [= <-].
  - by intros [k ->]%collect_prefix.
Qed.

(** X2. On a consistent ring [GetNodes] returns exactly [min(count, N)]
    distinct registered nodes, and the first of them is the owner of the
    position [findNodeIndex] finds for the key. *)
Theorem GetNodes_on_consistent_ring hr key count :
  ring_ok hr → 0 ≤ count →
  ∃ l, GetNodes hr key count = Ok l ∧ NoDup l ∧
       len l = Z.min count (NodeCount hr) ∧
       (∀ x, x ∈ l → x ∈ dom (nodes hr)) ∧
       (l ≠ [] → head l = Some (ownerAt hr (findNodeIndex hr (hashKey key)))).
Proof.
  intros Hok Hcount.
  destruct (GetNodes_spec hr key count Hok Hcount) as (l & Hl & Hnd & Hlen & Hdom).
  exists l. split; [done|]. split; [done|]. split; [done|]. split; [done|].
  intros Hne. by destruct (GetNodes_head hr key count l Hl Hne).
Qed.

(** X3. A ring with no virtual nodes has nodes but no positions: [GetNodes]
    asked for one node or more indexes the empty [sortedHashes] and
    panics. *)
Theorem GetNodes_panics_without_positions v nodeID key count :
  v ≤ 0 → 1 ≤ count →
  sortedHashes (AddNode nodeID (NewHashRing v)) = [] ∧
  NodeCount (AddNode nodeID (NewHashRing v)) = 1 ∧
  GetNodes (AddNode nodeID (NewHashRing v)) key count = Panic "index out of range".
Proof.
  intros Hv Hcount.
  assert (AddNode nodeID (NewHashRing v) =
          mkHashRing {[nodeID := mkNode nodeID v]} [] ∅ v) as ->.
  { unfold AddNode, NewHashRing. simpl. rewrite lookup_empty, seqZ_nil by lia.
    simpl. by rewrite insert_empty. }
  split; [done|]. unfold NodeCount, GetNodes. simpl. rewrite map_size_singleton.
  split; [done|]. simpl. change (Z.of_nat 1) with 1.
  destruct (Z.gtb_spec count 1) as [Hgt|Hle]; [reflexivity|].
  by assert (count = 1) as -> by lia.
Qed.

Lemma AddNode_new nodeID hr :
  nodes hr !! nodeID = None →
  nodes (AddNode nodeID hr) = <[nodeID := mkNode nodeID (virtualNodes hr)]> (nodes hr) ∧
  virtualNodes (AddNode nodeID hr) = virtualNodes hr ∧
  sortedHashes (AddNode nodeID hr) =
    sort.Slice (sortedHashes hr ++ virtualHashes hr nodeID) ∧
  ∀ h, hashToNode (AddNode nodeID hr) !! h =
       if decide (h ∈ virtualHashes hr nodeID) then Some nodeID
       else hashToNode hr !! h.
Proof.
  intros Hnew. unfold AddNode. rewrite Hnew.
  match goal with |- context [foldl ?f ?a ?l] =>
    destruct (foldl_addVirtual nodeID l a) as (Hn & Hv & Hs & Hm) end.
  simpl in *. fold (virtualHashes hr nodeID) in Hs, Hm.
  by rewrite Hn, Hv, Hs.
Qed.

Lemma virtualHashes_length hr nodeID :
  len (virtualHashes hr nodeID) = Z.max 0 (virtualNodes hr).
Proof. unfold virtualHashes, len. rewrite length_fmap, length_seqZ. lia. Qed.

(** X4. [AddNode] registers the node with its virtual nodes, once: a node
    that is there already is left alone, so adding twice is adding
    once. *)
Theorem AddNode_registers_once nodeID hr :
  nodeID ∈ ListNodes (AddNode nodeID hr) ∧
  AddNode nodeID (AddNode nodeID hr) = AddNode nodeID hr ∧
  (is_Some (nodes hr !! nodeID) → AddNode nodeID hr = hr) ∧
  (nodes hr !! nodeID = None →
   NodeCount (AddNode nodeID hr) = NodeCount hr + 1 ∧
   len (sortedHashes (AddNode nodeID hr)) =
     len (sortedHashes hr) + Z.max 0 (virtualNodes hr)).
Proof.
  assert (is_Some (nodes (AddNode nodeID hr) !! nodeID)) as Hin.
  { destruct (nodes hr !! nodeID) as [n|] eqn:Hn.
    - unfold AddNode. rewrite Hn. by rewrite Hn.
    - destruct (AddNode_new nodeID hr Hn) as (-> & _). by rewrite lookup_insert_eq. }
  split; [|split; [|split]].
  - unfold ListNodes. destruct Hin as [n Hn].
    apply list_elem_of_fmap. exists (nodeID, n). split; [done|].
    by apply elem_of_map_to_list.
  - destruct Hin as [n Hn]. unfold AddNode at 1. by rewrite Hn.
  - intros [n Hn]. unfold AddNode. by rewrite Hn.
  - intros Hn. destruct (AddNode_new nodeID hr Hn) as (Hnodes & _ & Hs & _).
    unfold NodeCount. rewrite Hnodes, Hs, map_size_insert_None by done. split; [lia|].
    unfold sort.Slice, len. rewrite merge_sort_Permutation, length_app.
    pose proof (virtualHashes_length hr nodeID) as Hv. unfold len in Hv. lia.
Qed.


(** *** Sorted positions *)

Lemma SSorted_lookup (l : list Z) i j x y :
  StronglySorted Z.le l → l !! i = Some x → l !! j = Some y → (i ≤ j)%nat → x ≤ y.
Proof.
  intros Hs. revert i j. induction Hs as [|a l Hs IH Hall]; intros i j Hi Hj Hij.
  { by rewrite lookup_nil in Hi. }
  destruct i as [|i], j as [|j]; simpl in *; simplify_eq; try lia.
  - apply (proj1 (Forall_forall _ _) Hall). by eapply list_elem_of_lookup_2.
  - apply (IH i j); [done..|lia].
Qed.

Lemma SSorted_sublist (l1 l2 : list Z) :
  l1 `sublist_of` l2 → StronglySorted Z.le l2 → StronglySorted Z.le l1.
Proof.
  induction 1 as [|x l1 l2 Hsub IH|x l1 l2 Hsub IH]; intros Hs; [done|..].
  - apply StronglySorted_inv in Hs as [Hs Hall]. constructor; [by apply IH|].
    apply Forall_forall. intros y Hy. apply (proj1 (Forall_forall _ _) Hall).
    by eapply elem_of_sublist.
  - apply StronglySorted_inv in Hs as [Hs _]. by apply IH.
Qed.

Lemma Sorted_sublist (l1 l2 : list Z) :
  l1 `sublist_of` l2 → Sorted Z.le l2 → Sorted Z.le l1.
Proof.
  intros Hsub Hs. apply StronglySorted_Sorted, (SSorted_sublist l1 l2 Hsub).
  by apply (Sorted_StronglySorted Z.le).
Qed.

(** The loop of [RemoveNode] keeps the hashes in their order. *)
Lemma removeStep_sublist nodeID l acc mp :
  ∃ l', (foldl (removeStep nodeID) (acc, mp) l).1 = acc ++ l' ∧ l' `sublist_of` l.
Proof.
  revert acc mp. induction l as [|h l IH]; intros acc mp; simpl.
  { exists []. by rewrite app_nil_r. }
  unfold removeStep at 2. simpl. destruct (decide _).
  - destruct (IH (acc ++ [h]) mp) as (l' & -> & Hsub). exists (h :: l').
    split; [by rewrite <- app_assoc|]. by constructor.
  - destruct (IH acc (delete h mp)) as (l' & -> & Hsub). exists l'.
    split; [done|]. by constructor.
Qed.

(** X5. The positions of a ring built with [NewHashRing], [AddNode] and
    [RemoveNode] are in ascending order, which is what the binary search
    of [findNodeIndex] relies on; [AddNode] adds the node's virtual
    hashes to them and [RemoveNode] only takes positions away. *)
Theorem positions_stay_sorted :
  (∀ v, Sorted Z.le (sortedHashes (NewHashRing v))) ∧
  (∀ nodeID hr,
     Sorted Z.le (sortedHashes hr) →
     Sorted Z.le (sortedHashes (AddNode nodeID hr)) ∧
     sortedHashes (AddNode nodeID hr) ≡ₚ
       sortedHashes hr ++
       match nodes hr !! nodeID with
       | Some _ => []
       | None => virtualHashes hr nodeID
       end) ∧
  (∀ nodeID hr,
     Sorted Z.le (sortedHashes hr) →
     Sorted Z.le (sortedHashes (RemoveNode nodeID hr)) ∧
     sortedHashes (RemoveNode nodeID hr) `sublist_of` sortedHashes hr).
Proof.
  split; [|split].
  - intros v. constructor.
  - intros nodeID hr Hs. destruct (nodes hr !! nodeID) as [n|] eqn:Hn.
    + unfold AddNode. rewrite Hn. by rewrite app_nil_r.
    + destruct (AddNode_new nodeID hr Hn) as (_ & _ & -> & _). unfold sort.Slice.
      split; [apply (Sorted_merge_sort Z.le)|apply merge_sort_Permutation].
  - intros nodeID hr Hs. unfold RemoveNode. destruct (nodes hr !! nodeID); [|done].
    simpl.
    destruct (removeStep_sublist nodeID (sortedHashes hr) [] (hashToNode hr))
      as (l' & -> & Hsub).
    simpl. split; [by eapply Sorted_sublist|done].
Qed.

Lemma findNodeIndex_first_ge hr keyHash :
  Sorted Z.le (sortedHashes hr) → sortedHashes hr ≠ [] →
  ∃ p, sortedHashes hr !! Z.to_nat (findNodeIndex hr keyHash) = Some p ∧
       0 ≤ findNodeIndex hr keyHash < len (sortedHashes hr) ∧
       ((keyHash ≤ p ∧
         ∀ j q, (j < Z.to_nat (findNodeIndex hr keyHash))%nat →
                sortedHashes hr !! j = Some q → q < keyHash) ∨
        (findNodeIndex hr keyHash = 0 ∧
         ∀ q, q ∈ sortedHashes hr → q < keyHash)).
Proof.
  intros Hs%(Sorted_StronglySorted Z.le) Hne.
  pose proof (findNodeIndex_range hr keyHash Hne) as Hr.
  destruct (lookup_lt_is_Some_2 (sortedHashes hr) (Z.to_nat (findNodeIndex hr keyHash)))
    as [p Hp]; [unfold len in Hr; lia|].
  exists p. split; [done|]. split; [done|].
  unfold findNodeIndex in *. unfold sort.Search in *.
  set (n := len (sortedHashes hr)) in *.
  set (f := λ i, default 0 (sortedHashes hr !! Z.to_nat i) >=? keyHash) in *.
  assert (0 ≤ n) as Hn by (unfold n, len; lia).
  destruct (search_loop_least (Z.to_nat n) f 0 n) as [Hbelow Habove]; [lia..| |].
  { intros x y Hx Hxy Hy. unfold f.
    destruct (lookup_lt_is_Some_2 (sortedHashes hr) (Z.to_nat x)) as [a Ha];
      [unfold n, len in *; lia|].
    destruct (lookup_lt_is_Some_2 (sortedHashes hr) (Z.to_nat y)) as [b Hb];
      [unfold n, len in *; lia|].
    rewrite Ha, Hb. simpl. rewrite !Z.geb_leb, !Z.leb_le. intros Hle.
    pose proof (SSorted_lookup _ _ _ _ _ Hs Ha Hb ltac:(lia)). lia. }
  pose proof (search_loop_bounds (Z.to_nat n) f 0 n Hn) as Hb.
  set (r := sort.search_loop (Z.to_nat n) f 0 n) in *.
  destruct (Z.eqb_spec r n) as [Heq|Hneq].
  - right. split; [done|]. intros q [j Hj]%list_elem_of_lookup_1.
    pose proof (lookup_lt_Some _ _ _ Hj) as Hlt.
    specialize (Hbelow (Z.of_nat j) ltac:(unfold n, len in *; lia)).
    unfold f in Hbelow. rewrite Nat2Z.id, Hj in Hbelow. simpl in Hbelow.
    rewrite Z.geb_leb in Hbelow. apply Z.leb_gt in Hbelow. lia.
  - left. split.
    + specialize (Habove r ltac:(lia)). unfold f in Habove. rewrite Hp in Habove.
      simpl in Habove. rewrite Z.geb_leb in Habove. by apply Z.leb_le.
    + intros j q Hj Hq.
      specialize (Hbelow (Z.of_nat j) ltac:(lia)).
      unfold f in Hbelow. rewrite Nat2Z.id, Hq in Hbelow. simpl in Hbelow.
      rewrite Z.geb_leb in Hbelow. apply Z.leb_gt in Hbelow. lia.
Qed.


Lemma successor_least hr keyHash :
  Sorted Z.le (sortedHashes hr) → sortedHashes hr ≠ [] →
  ∃ p, sortedHashes hr !! Z.to_nat (findNodeIndex hr keyHash) = Some p ∧
       ((keyHash ≤ p ∧
         (∀ j q, (j < Z.to_nat (findNodeIndex hr keyHash))%nat →
                 sortedHashes hr !! j = Some q → q < keyHash) ∧
         (∀ q, q ∈ sortedHashes hr → keyHash ≤ q → p ≤ q)) ∨
        (findNodeIndex hr keyHash = 0 ∧
         (∀ q, q ∈ sortedHashes hr → q < keyHash) ∧
         (∀ q, q ∈ sortedHashes hr → p ≤ q))).
Proof.
  intros Hs Hne.
  destruct (findNodeIndex_first_ge hr keyHash Hs Hne) as (p & Hp & Hr & Hcase).
  apply (Sorted_StronglySorted Z.le) in Hs.
  exists p. split; [done|]. destruct Hcase as [[Hge Hbelow]|[H0 Hall]].
  - left. split; [done|]. split; [done|].
    intros q [j Hj]%list_elem_of_lookup_1 Hq.
    destruct (Nat.lt_ge_cases j (Z.to_nat (findNodeIndex hr keyHash))) as [Hlt|Hle].
    + specialize (Hbelow j q Hlt Hj). lia.
    + by apply (SSorted_lookup _ _ _ _ _ Hs Hp Hj).
  - right. split; [done|]. split; [done|].
    intros q [j Hj]%list_elem_of_lookup_1.
    apply (SSorted_lookup _ _ _ _ _ Hs Hp Hj). rewrite H0. simpl. lia.
Qed.

(** X6. On sorted positions [findNodeIndex] finds the successor of the key's
    hash on the ring: the first position whose hash is not below it,
    which holds the least such hash, and position 0, which holds the
    least hash of all, when every hash is below it. *)
Theorem findNodeIndex_successor hr keyHash :
  Sorted Z.le (sortedHashes hr) → sortedHashes hr ≠ [] →
  0 ≤ findNodeIndex hr keyHash < len (sortedHashes hr) ∧
  ∃ p, sortedHashes hr !! Z.to_nat (findNodeIndex hr keyHash) = Some p ∧
       ((keyHash ≤ p ∧
         (∀ j q, (j < Z.to_nat (findNodeIndex hr keyHash))%nat →
                 sortedHashes hr !! j = Some q → q < keyHash) ∧
         (∀ q, q ∈ sortedHashes hr → keyHash ≤ q → p ≤ q)) ∨
        (findNodeIndex hr keyHash = 0 ∧
         (∀ q, q ∈ sortedHashes hr → q < keyHash) ∧
         (∀ q, q ∈ sortedHashes hr → p ≤ q))).
Proof.
  intros Hs Hne. split; [by apply findNodeIndex_range|]. by apply successor_least.
Qed.


(** *** Removing a node *)

Lemma filter_ext_in {A} (P Q : A → Prop) `{!∀ x, Decision (P x)} `{!∀ x, Decision (Q x)}
      (l : list A) :
  (∀ x, x ∈ l → (P x ↔ Q x)) → filter P l = filter Q l.
Proof.
  induction l as [|x l IH]; intros Hext; [done|]. rewrite !filter_cons.
  rewrite IH by (intros y Hy; apply Hext; by right).
  destruct (Hext x ltac:(by left)) as [H1 H2].
  destruct (decide (P x)), (decide (Q x)); tauto.
Qed.

Lemma filter_all {A} (P : A → Prop) `{!∀ x, Decision (P x)} (l : list A) :
  Forall P l → filter P l = l.
Proof.
  induction 1 as [|x l Hx _ IH]; [done|]. by rewrite filter_cons, decide_True, IH.
Qed.

Lemma filter_none {A} (P : A → Prop) `{!∀ x, Decision (P x)} (l : list A) :
  Forall (λ x, ¬ P x) l → filter P l = [].
Proof.
  induction 1 as [|x l Hx _ IH]; [done|]. by rewrite filter_cons, decide_False, IH.
Qed.

(** On positions without repeats the loop of [RemoveNode] keeps exactly
    the positions of the other owners, and forgets the owner of the
    positions it drops. *)
Lemma removeStep_NoDup nodeID l acc mp :
  NoDup l →
  (foldl (removeStep nodeID) (acc, mp) l).1 =
    acc ++ filter (λ h, default EmptyString (mp !! h) ≠ nodeID) l ∧
  ∀ h, (foldl (removeStep nodeID) (acc, mp) l).2 !! h =
       if decide (h ∈ l ∧ default EmptyString (mp !! h) = nodeID) then None
       else mp !! h.
Proof.
  revert acc mp. induction l as [|x l IH]; intros acc mp Hnd.
  { split; [simpl; by rewrite app_nil_r|]. intros h.
    destruct (decide _) as [[?%elem_of_nil _]|]; done. }
  apply NoDup_cons in Hnd as [Hx Hnd].
  change (foldl (removeStep nodeID) (acc, mp) (x :: l))
    with (foldl (removeStep nodeID) (removeStep nodeID (acc, mp) x) l).
  assert (removeStep nodeID (acc, mp) x =
          if decide (default EmptyString (mp !! x) ≠ nodeID)
          then (acc ++ [x], mp) else (acc, delete x mp)) as -> by done.
  rewrite filter_cons. destruct (decide (default EmptyString (mp !! x) ≠ nodeID)) as [Hne|Heq].
  - destruct (IH (acc ++ [x]) mp Hnd) as [-> Hmap]. split; [by rewrite <- app_assoc|].
    intros h. rewrite Hmap.
    destruct (decide (h ∈ l ∧ _)) as [[Hin Ho]|Hn];
      destruct (decide (h ∈ x :: l ∧ _)) as [[Hin' Ho']|Hn']; try done.
    + destruct Hn'. split; [by right|done].
    + apply elem_of_cons in Hin' as [->|Hin']; [done|]. by destruct Hn.
  - apply dec_stable in Heq.
    destruct (IH acc (delete x mp) Hnd) as [-> Hmap]. split.
    + f_equal. apply filter_ext_in. intros h Hh.
      rewrite lookup_delete_ne; [done|]. by intros <-.
    + intros h. rewrite Hmap. destruct (decide (h = x)) as [->|Hhx].
      * rewrite lookup_delete_eq.
        rewrite decide_False by (by intros [? _]).
        rewrite decide_True; [done|]. split; [by left|done].
      * rewrite lookup_delete_ne by done.
        destruct (decide (h ∈ l ∧ _)) as [[Hin Ho]|Hn];
          destruct (decide (h ∈ x :: l ∧ _)) as [[Hin' Ho']|Hn']; try done.
        -- destruct Hn'. split; [by right|done].
        -- apply elem_of_cons in Hin' as [->|Hin']; [done|]. by destruct Hn.
Qed.

Lemma RemoveNode_owners nodeID hr :
  NoDup (sortedHashes hr) → is_Some (nodes hr !! nodeID) →
  NoDup (sortedHashes (RemoveNode nodeID hr)) ∧
  ∀ x, x ∈ owners (RemoveNode nodeID hr) ↔ x ∈ owners hr ∧ x ≠ nodeID.
Proof.
  intros Hnd [n Hn]. unfold RemoveNode. rewrite Hn.
  destruct (removeStep_NoDup nodeID (sortedHashes hr) [] (hashToNode hr) Hnd)
    as [Hl Hmap].
  unfold owners. simpl. rewrite Hl. simpl. split; [by apply NoDup_filter|].
  intros x. rewrite !list_elem_of_fmap. split.
  - intros (h & -> & [Ho Hin]%list_elem_of_filter). rewrite Hmap.
    rewrite decide_False by (by intros [_ ?]). split; [by exists h|done].
  - intros [(h & -> & Hin) Hne]. exists h. rewrite Hmap.
    rewrite decide_False by (by intros [_ ?]). split; [done|].
    by apply list_elem_of_filter.
Qed.

(** X7. [RemoveNode] unregisters the node; a node that is not there changes
    nothing.  On a consistent ring whose positions are all different it
    leaves a consistent ring on which the node owns no position, so that
    [GetNodes] never returns it again. *)
Theorem RemoveNode_forgets nodeID hr :
  ring_ok hr → NoDup (sortedHashes hr) →
  nodes (RemoveNode nodeID hr) = delete nodeID (nodes hr) ∧
  (nodes hr !! nodeID = None → RemoveNode nodeID hr = hr) ∧
  ring_ok (RemoveNode nodeID hr) ∧
  NoDup (sortedHashes (RemoveNode nodeID hr)) ∧
  ∀ key count l, GetNodes (RemoveNode nodeID hr) key count = Ok l → nodeID ∉ l.
Proof.
  intros Hok Hnd. destruct (nodes hr !! nodeID) as [n|] eqn:Hn.
  - destruct (RemoveNode_owners nodeID hr Hnd) as [Hnd' Hown]; [by eexists|].
    assert (nodes (RemoveNode nodeID hr) = delete nodeID (nodes hr)) as Hnodes.
    { unfold RemoveNode. by rewrite Hn. }
    split; [done|]. split; [done|]. split; [|split; [done|]].
    + unfold ring_ok in *. rewrite Hnodes, dom_delete_L, Hok. apply set_eq. intros x.
      rewrite elem_of_difference, !elem_of_list_to_set, Hown, elem_of_singleton. done.
    + intros key count l Hl Hin.
      destruct (GetNodes_owners _ _ _ _ Hl) as (_ & _ & Hsub).
      by apply Hsub, Hown in Hin as [_ ?].
  - assert (RemoveNode nodeID hr = hr) as -> by (unfold RemoveNode; by rewrite Hn).
    split; [by rewrite delete_id|]. split; [done|]. split; [done|]. split; [done|].
    intros key count l Hl Hin.
    destruct (GetNodes_owners _ _ _ _ Hl) as (_ & _ & Hsub).
    apply Hsub in Hin. apply (elem_of_list_to_set (C := gset string)) in Hin.
    rewrite <- Hok in Hin. by apply not_elem_of_dom in Hn.
Qed.


(** *** Adding and removing *)

Lemma ring_ok_owner hr h :
  ring_ok hr → h ∈ sortedHashes hr →
  default EmptyString (hashToNode hr !! h) ∈ dom (nodes hr).
Proof.
  intros Hok Hin. rewrite Hok. apply elem_of_list_to_set. unfold owners.
  apply list_elem_of_fmap. by exists h.
Qed.

(** X8. Removing a node that was just added gives the ring back, when no
    hash collides: the positions of the ring are all different, and the
    virtual hashes of the node are new, different from each other and
    unknown to [hashToNode]. *)
Theorem RemoveNode_AddNode nodeID hr :
  nodes hr !! nodeID = None → ring_ok hr →
  Sorted Z.le (sortedHashes hr) →
  NoDup (sortedHashes hr ++ virtualHashes hr nodeID) →
  Forall (λ h, hashToNode hr !! h = None) (virtualHashes hr nodeID) →
  RemoveNode nodeID (AddNode nodeID hr) = hr.
Proof.
  intros Hnew Hok Hs Hnd Hstale.
  destruct (AddNode_new nodeID hr Hnew) as (Hn & Hv & Hl & Hm).
  apply NoDup_app in Hnd as (HndL & Hdisj & HndV).
  assert (NoDup (sortedHashes (AddNode nodeID hr))) as Hnd'.
  { rewrite Hl. unfold sort.Slice. rewrite merge_sort_Permutation.
    apply NoDup_app. done. }
  assert (∀ h, h ∈ sortedHashes hr →
               default EmptyString (hashToNode (AddNode nodeID hr) !! h) ≠ nodeID)
    as Hold.
  { intros h Hh. rewrite Hm, decide_False by (by apply Hdisj).
    intros Heq. pose proof (ring_ok_owner hr h Hok Hh) as Hin.
    rewrite Heq in Hin. by apply not_elem_of_dom in Hnew. }
  assert (∀ h, h ∈ virtualHashes hr nodeID →
               default EmptyString (hashToNode (AddNode nodeID hr) !! h) = nodeID)
    as Hvirt.
  { intros h Hh. by rewrite Hm, decide_True. }
  unfold RemoveNode. rewrite Hn, lookup_insert_eq.
  destruct (removeStep_NoDup nodeID (sortedHashes (AddNode nodeID hr)) []
              (hashToNode (AddNode nodeID hr)) Hnd') as [Hfl Hfm].
  destruct hr as [ns L mp V].
  cbn [nodes sortedHashes hashToNode virtualNodes] in *. f_equal.
  - first [by rewrite delete_insert_id|by rewrite delete_insert].
  - rewrite Hfl. simpl. apply (Sorted_unique Z.le); [|done|].
    + apply StronglySorted_Sorted. eapply SSorted_sublist; [apply sublist_filter|].
      apply (Sorted_StronglySorted Z.le). rewrite Hl. apply (Sorted_merge_sort Z.le).
    + rewrite Hl. unfold sort.Slice. rewrite merge_sort_Permutation, filter_app.
      rewrite filter_all, filter_none.
      * by rewrite app_nil_r.
      * apply Forall_forall. intros h Hh Hne. by apply Hne, Hvirt.
      * apply Forall_forall. intros h Hh. by apply Hold.
  - apply map_eq. intros h. rewrite Hfm.
    destruct (decide (h ∈ virtualHashes (mkHashRing ns L mp V) nodeID)) as [Hin|Hnin].
    + rewrite decide_True.
      * symmetry. by apply (proj1 (Forall_forall _ _) Hstale).
      * split; [|by apply Hvirt]. rewrite Hl. unfold sort.Slice.
        rewrite merge_sort_Permutation. apply elem_of_app. by right.
    + destruct (decide (_ ∧ _)) as [[HinS Ho]|_]; [|by rewrite Hm, decide_False].
      exfalso. rewrite Hl in HinS. unfold sort.Slice in HinS.
      rewrite merge_sort_Permutation in HinS.
      apply elem_of_app in HinS as [HinL|?]; [|done].
      by apply (Hold h HinL).
  - exact Hv.
Qed.

(** X9. Adding a node moves a key only to the new node: the first node
    [GetNodes] returns for a key afterwards is the one it returned before
    or the node added, as long as none of the new virtual hashes is a
    position of the ring already. *)
Theorem AddNode_moves_keys_to_new_node_only nodeID hr key count l l' :
  nodes hr !! nodeID = None →
  Sorted Z.le (sortedHashes hr) →
  Forall (λ h, h ∉ sortedHashes hr) (virtualHashes hr nodeID) →
  GetNodes hr key count = Ok l → l ≠ [] →
  GetNodes (AddNode nodeID hr) key count = Ok l' → l' ≠ [] →
  head l' = head l ∨ head l' = Some nodeID.
Proof.
  intros Hnew Hs Hfresh Hl Hne Hl' Hne'.
  destruct (GetNodes_head _ _ _ _ Hl Hne) as [Hpos ->].
  destruct (GetNodes_head _ _ _ _ Hl' Hne') as [Hpos' ->].
  destruct (AddNode_new nodeID hr Hnew) as (_ & _ & HL & Hm).
  assert (Sorted Z.le (sortedHashes (AddNode nodeID hr))) as Hs'.
  { rewrite HL. apply (Sorted_merge_sort Z.le). }
  assert (∀ q, q ∈ sortedHashes (AddNode nodeID hr) ↔
               q ∈ sortedHashes hr ∨ q ∈ virtualHashes hr nodeID) as Hmem.
  { intros q. rewrite HL. unfold sort.Slice.
    by rewrite merge_sort_Permutation, elem_of_app. }
  set (h := hashKey key) in *.
  destruct (successor_least hr h Hs Hpos) as (p & Hp & Hcase).
  destruct (successor_least (AddNode nodeID hr) h Hs' Hpos') as (p' & Hp' & Hcase').
  pose proof (findNodeIndex_range hr h Hpos) as Hr.
  pose proof (findNodeIndex_range (AddNode nodeID hr) h Hpos') as Hr'.
  destruct (ownerAt_lookup hr (findNodeIndex hr h) Hr) as [<- _].
  destruct (ownerAt_lookup (AddNode nodeID hr) (findNodeIndex (AddNode nodeID hr) h) Hr')
    as [<- _].
  rewrite Hp, Hp'. simpl. rewrite Hm.
  destruct (decide (p' ∈ virtualHashes hr nodeID)) as [Hin|Hnin]; [by right|left].
  assert (p' ∈ sortedHashes hr) as HinL.
  { destruct (proj1 (Hmem p')) as [?|?]; [by eapply list_elem_of_lookup_2|done|done]. }
  assert (p ∈ sortedHashes (AddNode nodeID hr)) as HinL'.
  { apply Hmem. left. by eapply list_elem_of_lookup_2. }
  assert (p ∈ sortedHashes hr) as HpL by (by eapply list_elem_of_lookup_2).
  do 3 f_equal.
  destruct Hcase as [(Hge & _ & Hleast)|(_ & Hall & Hleast)];
    destruct Hcase' as [(Hge' & _ & Hleast')|(_ & Hall' & Hleast')].
  - pose proof (Hleast p' HinL Hge'). pose proof (Hleast' p HinL' Hge). lia.
  - specialize (Hall' p HinL'). lia.
  - specialize (Hall p' HinL). lia.
  - pose proof (Hleast p' HinL). pose proof (Hleast' p HinL'). lia.
Qed.

End ring_more.

(** X1, witness. *)
Lemma GetNodes_distinct_bounded_witness :
  NoDup ["node1"; "node2"]%string ∧
  hashring.len ["node1"; "node2"]%string ≤ Z.max 0 2 ∧
  hashring.len ["node1"; "node2"]%string ≤ hashring.NodeCount scenario.ring3 ∧
  ∀ x, x ∈ ["node1"; "node2"]%string → x ∈ hashring.owners scenario.ring3.
Proof.
  apply (GetNodes_distinct_bounded scenario.ring3 scenario.hello_id 2).
  vm_compute. reflexivity.
Defined.

(** X2, witness. *)
Lemma GetNodes_on_consistent_ring_witness :
  ∃ l, hashring.GetNodes scenario.ring3 scenario.hello_id 2 = Ok l ∧ NoDup l ∧
       hashring.len l = Z.min 2 (hashring.NodeCount scenario.ring3) ∧
       (∀ x, x ∈ l → x ∈ dom (hashring.nodes scenario.ring3)) ∧
       (l ≠ [] →
        head l = Some (hashring.ownerAt scenario.ring3
                         (hashring.findNodeIndex scenario.ring3
                            (hashring.hashKey scenario.hello_id)))).
Proof.
  apply (GetNodes_on_consistent_ring scenario.ring3 scenario.hello_id 2).
  - unfold hashring.ring_ok. apply (bool_decide_unpack _). by vm_compute.
  - lia.
Defined.

(** X3, witness. *)
Lemma GetNodes_panics_without_positions_witness :
  hashring.sortedHashes (hashring.AddNode "node1" (hashring.NewHashRing 0)) = [] ∧
  hashring.NodeCount (hashring.AddNode "node1" (hashring.NewHashRing 0)) = 1 ∧
  hashring.GetNodes (hashring.AddNode "node1" (hashring.NewHashRing 0)) "test-key" 2
    = Panic "index out of range".
Proof.
  apply (GetNodes_panics_without_positions 0 "node1" "test-key" 2); lia.
Defined.

(** X6, witness. *)
Lemma findNodeIndex_successor_witness :
  let hr := scenario.ring3 in
  let keyHash := hashring.hashKey scenario.hello_id in
  0 ≤ hashring.findNodeIndex hr keyHash < hashring.len (hashring.sortedHashes hr) ∧
  ∃ p, hashring.sortedHashes hr !! Z.to_nat (hashring.findNodeIndex hr keyHash) = Some p ∧
       ((keyHash ≤ p ∧
         (∀ j q, (j < Z.to_nat (hashring.findNodeIndex hr keyHash))%nat →
                 hashring.sortedHashes hr !! j = Some q → q < keyHash) ∧
         (∀ q, q ∈ hashring.sortedHashes hr → keyHash ≤ q → p ≤ q)) ∨
        (hashring.findNodeIndex hr keyHash = 0 ∧
         (∀ q, q ∈ hashring.sortedHashes hr → q < keyHash) ∧
         (∀ q, q ∈ hashring.sortedHashes hr → p ≤ q))).
Proof.
  intros hr keyHash. apply (findNodeIndex_successor hr keyHash).
  - apply (bool_decide_unpack _). by vm_compute.
  - apply (bool_decide_unpack _). by vm_compute.
Defined.

(** X7, witness. *)
Lemma RemoveNode_forgets_witness :
  let hr := scenario.ring3 in
  hashring.nodes (hashring.RemoveNode "node2" hr) = delete "node2"%string (hashring.nodes hr) ∧
  (hashring.nodes hr !! "node2"%string = None → hashring.RemoveNode "node2" hr = hr) ∧
  hashring.ring_ok (hashring.RemoveNode "node2" hr) ∧
  NoDup (hashring.sortedHashes (hashring.RemoveNode "node2" hr)) ∧
  ∀ key count l,
    hashring.GetNodes (hashring.RemoveNode "node2" hr) key count = Ok l →
    "node2"%string ∉ l.
Proof.
  intros hr. apply (RemoveNode_forgets "node2" hr).
  - unfold hashring.ring_ok. apply (bool_decide_unpack _). by vm_compute.
  - apply (bool_decide_unpack _). by vm_compute.
Defined.

(** X8, witness. *)
Lemma RemoveNode_AddNode_witness :
  hashring.RemoveNode "node3" (hashring.AddNode "node3" scenario.ring2) = scenario.ring2.
Proof.
  apply (RemoveNode_AddNode "node3" scenario.ring2).
  - vm_compute. reflexivity.
  - unfold hashring.ring_ok. apply (bool_decide_unpack _). by vm_compute.
  - apply (bool_decide_unpack _). by vm_compute.
  - apply (bool_decide_unpack _). by vm_compute.
  - apply (bool_decide_unpack _). by vm_compute.
Defined.

(** X9, witness: the key ["k3"] moves from [node1] to [node3] when [node3]
    joins the ring of [node1] and [node2]. *)
Lemma AddNode_moves_keys_to_new_node_only_witness :
  head ["node3"%string] = head ["node1"%string] ∨ head ["node3"%string] = Some "node3"%string.
Proof.
  apply (AddNode_moves_keys_to_new_node_only "node3" scenario.ring2 "k3" 1
           ["node1"%string] ["node3"%string]).
  - vm_compute. reflexivity.
  - apply (bool_decide_unpack _). by vm_compute.
  - apply (bool_decide_unpack _). by vm_compute.
  - vm_compute. reflexivity.
  - done.
  - vm_compute. reflexivity.
  - done.
Defined.


(** ** The node store, operation by operation *)

Section node_more.
Import filepath os io storage.
Local Arguments blobPath : simpl never.
Local Arguments shardDir : simpl never.
Local Arguments Store : simpl never.

Lemma mkdirAll_keeps ch perm fs q i :
  lookup fs q = Some i → lookup (mkdirAll ch perm fs).2 q = Some i.
Proof.
  intros Hq. destruct (mkdirAll_frame ch perm fs) as (_ & _ & Hfr).
  destruct (Hfr q) as [->|(_ & ? & _)]; [done|congruence].
Qed.



Lemma Delete_unfold n id fs :
  (4 ≤ String.length id)%nat →
  Delete n id fs =
    match Remove (blobPath n id) fs with
    | (Some e, fs1) =>
        if negb (IsNotExist e) then (Err (ErrDelete e), fs1) else (Ok (), fs1)
    | (None, fs1) => (Ok (), fs1)
    end.
Proof. intros Hlen. unfold Delete. by rewrite objectPath_unfold. Qed.

(** X11. [Delete] is idempotent: where the object is a regular file or is not
    there, and the removal is not made to fail, it succeeds, the object
    is gone afterwards, the other paths are as before, and deleting again
    succeeds and changes nothing; deleting what is not there changes
    nothing in the first place. *)
Theorem Delete_idempotent n id fs :
  (4 ≤ String.length id)%nat →
  fault fs OpRemove (blobPath n id) = false →
  (∀ mode, lookup fs (blobPath n id) ≠ Some (Dir mode)) →
  ∃ fs',
    Delete n id fs = (Ok (), fs') ∧
    Exists n id fs' = Ok false ∧
    Delete n id fs' = (Ok (), fs') ∧
    (∀ q, q ≠ blobPath n id → lookup fs' q = lookup fs q) ∧
    (lookup fs (blobPath n id) = None → fs' = fs).
Proof.
  intros Hlen Hrm Hdir.
  assert (∀ fs0, fault fs0 OpRemove (blobPath n id) = false →
                 lookup fs0 (blobPath n id) = None →
                 Delete n id fs0 = (Ok (), fs0)) as Habsent.
  { intros fs0 Hf Hnone. rewrite Delete_unfold by done. unfold Remove.
    by rewrite Hf, Hnone. }
  destruct (lookup fs (blobPath n id)) as [[mode|mode d]|] eqn:Hl.
  - by destruct (Hdir mode).
  - destruct (Remove_file (blobPath n id) fs mode d Hrm Hl) as [Hr Hgone].
    exists (unlink fs (blobPath n id)). split.
    { rewrite Delete_unfold by done. by rewrite Hr. }
    split; [by apply Exists_absent|]. split; [by apply Habsent|].
    split; [|done]. intros q Hq. by apply lookup_unlink_ne.
  - exists fs. split; [by apply Habsent|]. split; [by apply Exists_absent|].
    split; [by apply Habsent|]. done.
Qed.

(** X12. An object that is not there: [Exists] says no, and [Retrieve] and
    [GetSize] answer "object not found" unless the call they make is made
    to fail.  [Exists] says no as well when the object is there and
    [os.Stat] fails: it cannot tell an error from an absence. *)
Theorem absent_object_reported n id fs :
  (4 ≤ String.length id)%nat →
  (lookup fs (blobPath n id) = None →
   Exists n id fs = Ok false ∧
   Retrieve n id fs =
     Err (if fault fs OpOpen (blobPath n id)
          then ErrOpenFile (PathError "open" (blobPath n id) EIO)
          else ErrObjectNotFound id) ∧
   GetSize n id fs =
     Err (if fault fs OpStat (blobPath n id)
          then ErrStat (PathError "stat" (blobPath n id) EIO)
          else ErrObjectNotFound id)) ∧
  (fault fs OpStat (blobPath n id) = true → Exists n id fs = Ok false).
Proof.
  intros Hlen. split.
  - intros Hnone. split; [by apply Exists_absent|]. split.
    + rewrite Retrieve_unfold by done. unfold Open.
      destruct (fault fs OpOpen _); [done|]. by rewrite Hnone.
    + unfold GetSize. rewrite objectPath_unfold by done. unfold Stat.
      destruct (fault fs OpStat _); [done|]. by rewrite Hnone.
  - intros Hf. rewrite Exists_unfold by done. unfold Stat. by rewrite Hf.
Qed.

Lemma lookup_entries fs p : isRoot p = false → lookup fs p = entries fs !! p.
Proof. intros Hr. unfold lookup. by rewrite Hr. Qed.

Lemma mkdirAll_present rp perm fs mode :
  lookup fs (rev rp) = Some (Dir mode) → mkdirAll (chainRev rp) perm fs = (None, fs).
Proof. intros Hd. destruct rp as [|c rp]; [done|]. simpl in *. by rewrite Hd. Qed.

(** X13. Once [Store] has succeeded, storing bytes under the same identifier
    succeeds again: the new bytes replace the old ones, the file keeps
    its mode, nothing else changes, and storing the bytes that are there
    already changes nothing at all. *)
Theorem Store_again n id data fs fs1 b :
  plain id = true → (4 ≤ String.length id)%nat →
  Store n id data fs = (Ok (), fs1) →
  ∃ fs2 mode old,
    Store n id (BytesReader b None) fs1 = (Ok (), fs2) ∧
    lookup fs1 (blobPath n id) = Some (File mode old) ∧
    lookup fs2 (blobPath n id) = Some (File mode b) ∧
    (∀ q, q ≠ blobPath n id → lookup fs2 q = lookup fs1 q) ∧
    (old = b → fs2 = fs1).
Proof.
  intros Hp Hlen Hst.
  destruct (Store_cases _ _ _ _ _ _ Hlen Hst)
    as (_ & Hf & _ & [md Hdir] & mode & fs0 & Hblob & _).
  pose proof Hst as Hst'. rewrite Store_unfold in Hst' by done.
  unfold MkdirAll in Hst'.
  destruct (mkdirAll (chain (shardDir n id)) (oct 7 5 5) fs) as [[e|] fsa] eqn:Hmk;
    [done|].
  destruct (Create (blobPath n id) fsa) as [[file|e] fsb] eqn:Hcr; [|done].
  destruct (Create_inv _ _ _ _ Hcr) as (_ & Hfb & _ & -> & Hroot & _).
  destruct (Copy (blobPath n id) data fsb) as [[e|] fsc] eqn:Hcp; [done|].
  destruct (Copy_inv _ _ _ _ _ Hcp) as (_ & Hfc & _ & _ & Hw).
  destruct (Hw eq_refl) as [_ Hwrite]. injection Hst' as <-.
  destruct (mkdirAll_frame (chain (shardDir n id)) (oct 7 5 5) fs) as (_ & Hfa & _).
  rewrite Hmk in Hfa. simpl in Hfa.
  assert (fault fsc OpCreate (blobPath n id) = false) as Hfc1.
  { unfold Create in Hcr. unfold fault in *. rewrite Hfc, Hfb.
    destruct (bool_decide _) eqn:Hbd; [|done]. by simplify_eq. }
  assert (fault fsc OpWrite (blobPath n id) = false) as Hfc2.
  { unfold fault in *. by rewrite Hfc. }
  exists (update (update fsc (blobPath n id) (File mode [])) (blobPath n id) (File mode b)),
    mode, (drain fs0 data).1.
  split.
  { rewrite Store_unfold by done. unfold MkdirAll, chain.
    rewrite (mkdirAll_present _ _ _ md) by (by rewrite rev_involutive).
    unfold Create. rewrite Hfc1, Hblob. unfold Copy. simpl.
    assert (fault (update fsc (blobPath n id) (File mode [])) OpWrite (blobPath n id)
            = false) as -> by done.
    by rewrite lookup_update_eq. }
  split; [done|]. split; [by rewrite lookup_update_eq|]. split.
  { intros q Hq. by rewrite !lookup_update_ne. }
  intros Hold. rewrite lookup_entries in Hblob by done.
  destruct fsc as [ents um fl]. unfold update. simpl in *. f_equal.
  rewrite insert_insert_eq. apply insert_id. by rewrite Hblob, Hold.
Qed.

(** X14. Among plain identifiers (no ['/'], no ['.']) of at least four
    characters, [Store] under one identifier leaves the blob of every
    other identifier on the node alone, whether it succeeds or fails.
    An identifier that is not plain can reach the blob of another one:
    [Store_climbing_id_overwrites]. *)
Theorem Store_leaves_other_objects n id id' data fs r fs' :
  plain id = true → (4 ≤ String.length id)%nat →
  plain id' = true → (4 ≤ String.length id')%nat →
  id' ≠ id →
  Store n id data fs = (r, fs') →
  lookup fs' (blobPath n id') = lookup fs (blobPath n id').
Proof.
  intros Hp Hlen Hp' Hlen' Hne Hst.
  apply (Store_other n id data fs r fs'); try done.
  rewrite chain_blobPath by done.
  destruct (blobPath_plain n id Hp Hlen) as [Hsd Hbp].
  destruct (blobPath_plain n id' Hp' Hlen') as [Hsd' Hbp'].
  intros [Heq|Hin]%elem_of_cons.
  - rewrite Hbp, Hbp' in Heq. by apply app_inj_tail in Heq as [_ ?].
  - apply chainRev_elem in Hin as (Hl & _). rewrite length_rev in Hl.
    rewrite Hbp', Hsd', Hsd in Hl. rewrite !length_app in Hl. simpl in Hl. lia.
Qed.

End node_more.


(** ** The manager: replication by hand, and the replica check *)

Section manager_more.
Import filepath os io storage.
Local Arguments blobPath : simpl never.
Local Arguments shardDir : simpl never.
Local Arguments Store : simpl never.
Local Arguments Exists : simpl never.
Local Arguments Retrieve : simpl never.
Local Arguments achieved : simpl never.
Local Arguments lastError : simpl never.

(** X15. [ReplicateObject] fails and touches nothing when no ring target
    yields the object to copy from ("failed to retrieve object for
    replication"), and when the target is not registered ("target node
    not found"). *)
Theorem ReplicateObject_refuses m id targets t fs :
  (4 ≤ String.length id)%nat →
  GetNodes (hashRing m) id (replication m) = Ok targets →
  (List.find (usable m id fs) targets = None →
   ReplicateObject m id t fs =
     (Err (ErrRetrieveForReplication (ErrNotFoundAny id)), fs)) ∧
  (is_Some (List.find (usable m id fs) targets) → nodes m !! t = None →
   ReplicateObject m id t fs = (Err (ErrTargetNotFound t), fs)).
Proof.
  intros Hlen Hg. unfold ReplicateObject.
  rewrite (RetrieveObject_find m id fs targets Hlen Hg). unfold firstUsable. split.
  - by intros ->.
  - intros [t1 Hfind] Hnone. rewrite Hfind.
    apply find_some in Hfind as [_ Hu].
    destruct (usable_inv m id fs t1 Hlen Hu) as (n1 & _ & _ & ->). by rewrite Hnone.
Qed.

(** X16. What a successful [ReplicateObject] leaves on the target: the bytes
    of the first usable ring target, when that is another place; the
    source is as before. *)
Theorem ReplicateObject_copies m id targets t n t1 n1 mode1 d fs fs' :
  plain id = true → (4 ≤ String.length id)%nat →
  GetNodes (hashRing m) id (replication m) = Ok targets →
  List.find (usable m id fs) targets = Some t1 →
  nodes m !! t1 = Some n1 →
  lookup fs (blobPath n1 id) = Some (File mode1 d) →
  nodes m !! t = Some n →
  blobPath n1 id ∉ chain (blobPath n id) →
  ReplicateObject m id t fs = (Ok (), fs') →
  holds n id d fs' ∧ holds n1 id d fs'.
Proof.
  intros Hp Hlen Hg Hfind Hn1 Hsrc Hn Hsep Hrep.
  pose proof Hfind as [_ Hu]%find_some.
  destruct (usable_inv m id fs t1 Hlen Hu) as (n1' & Hn1' & _ & Hreader).
  assert (n1' = n1) as -> by congruence.
  unfold ReplicateObject in Hrep.
  rewrite (RetrieveObject_find m id fs targets Hlen Hg) in Hrep.
  unfold firstUsable in Hrep. rewrite Hfind, Hreader, Hn in Hrep.
  destruct (Store n id (FileReader (blobPath n1 id)) fs) as [r fs1] eqn:Hst.
  destruct r as [[]|e|msg|]; try done. injection Hrep as <-.
  destruct (Store_cases _ _ _ _ _ _ Hlen Hst)
    as (_ & _ & _ & _ & mode & fs2 & Hblob & _ & _ & Hfs2 & _).
  assert (lookup fs1 (blobPath n1 id) = Some (File mode1 d)) as Hsrc1.
  { by rewrite (Store_other n id _ fs (Ok ()) fs1 (blobPath n1 id) Hp Hlen Hst Hsep). }
  assert (blobPath n1 id ≠ blobPath n id) as Hne.
  { intros Heq. apply Hsep. rewrite chain_blobPath by done. rewrite Heq. by left. }
  split; [|by exists mode1].
  exists mode. rewrite Hblob. simpl. by rewrite Hfs2, Hsrc1.
Qed.

(** X17. Replicating onto the node the object is read from destroys that
    copy: the source is opened, [Store] truncates the same file when it
    creates the destination, and what is then read and written back is
    nothing.  The call reports success. *)
Theorem ReplicateObject_onto_source_truncates m id targets t n fs fs' :
  (4 ≤ String.length id)%nat →
  GetNodes (hashRing m) id (replication m) = Ok targets →
  List.find (usable m id fs) targets = Some t →
  nodes m !! t = Some n →
  ReplicateObject m id t fs = (Ok (), fs') →
  holds n id [] fs'.
Proof.
  intros Hlen Hg Hfind Hn Hrep.
  pose proof Hfind as [_ Hu]%find_some.
  destruct (usable_inv m id fs t Hlen Hu) as (n' & Hn' & _ & Hreader).
  assert (n' = n) as -> by congruence.
  unfold ReplicateObject in Hrep.
  rewrite (RetrieveObject_find m id fs targets Hlen Hg) in Hrep.
  unfold firstUsable in Hrep. rewrite Hfind, Hreader, Hn in Hrep.
  destruct (Store n id (FileReader (blobPath n id)) fs) as [r fs1] eqn:Hst.
  destruct r as [[]|e|msg|]; try done. injection Hrep as <-.
  destruct (Store_cases _ _ _ _ _ _ Hlen Hst)
    as (_ & _ & _ & _ & mode & fs2 & Hblob & _ & Hempty & _).
  exists mode. rewrite Hblob. simpl. by rewrite Hempty.
Qed.

Lemma checkLoop_spec id (ns : list (string * Node)) acc fs :
  (4 ≤ String.length id)%nat →
  checkLoop id ns acc fs =
    Ok (acc ++ (filter (λ kv, match Exists kv.2 id fs with
                              | Ok true => true
                              | _ => false
                              end = true) ns).*1).
Proof.
  intros Hlen. revert acc. induction ns as [|[t n] ns IH]; intros acc; simpl.
  - by rewrite app_nil_r.
  - rewrite filter_cons. simpl.
    destruct (Exists_returns n id fs Hlen) as [[] Hex]; rewrite Hex.
    + rewrite decide_True by done. rewrite IH. simpl. by rewrite <- app_assoc.
    + rewrite decide_False by done. apply IH.
Qed.

Lemma NoDup_fst_filter {K V} (P : K * V → Prop) `{!∀ x, Decision (P x)}
      (l : list (K * V)) :
  NoDup l.*1 → NoDup (filter P l).*1.
Proof.
  induction l as [|[k v] l IH]; [done|]. rewrite filter_cons. simpl.
  intros [Hk Hnd]%NoDup_cons. destruct (decide (P (k, v))); [|by apply IH].
  simpl. apply NoDup_cons. split; [|by apply IH].
  intros [[k' v'] [-> [_ Hin]%list_elem_of_filter]]%list_elem_of_fmap.
  apply Hk. apply list_elem_of_fmap. by exists (k', v').
Qed.

(** X18. [CheckReplicas] never fails: it lists, once each, exactly the
    registered nodes on which [Exists] says yes, whether or not the ring
    counts them among the targets of the object. *)
Theorem CheckReplicas_lists_holders m id fs :
  (4 ≤ String.length id)%nat →
  ∃ l, CheckReplicas m id fs = Ok l ∧ NoDup l ∧
       len l ≤ Z.of_nat (size (nodes m)) ∧
       ∀ t, t ∈ l ↔ ∃ n, nodes m !! t = Some n ∧ Exists n id fs = Ok true.
Proof.
  intros Hlen. unfold CheckReplicas. rewrite checkLoop_spec by done. simpl.
  eexists. split; [done|]. split; [|split].
  - apply NoDup_fst_filter, NoDup_fst_map_to_list.
  - unfold len. rewrite length_fmap, <- length_map_to_list.
    apply inj_le, length_filter.
  - intros t. rewrite list_elem_of_fmap. split.
    + intros [[t' n] [-> [Hex Hin]%list_elem_of_filter]]. simpl in *.
      exists n. split; [by apply elem_of_map_to_list|].
      by destruct (Exists n id fs) as [[]| | |].
    + intros (n & Hn & Hex). exists (t, n). split; [done|].
      apply list_elem_of_filter. simpl. rewrite Hex.
      split; [done|]. by apply elem_of_map_to_list.
Qed.

Lemma achieved_sublist m id b targets fs :
  achieved (attempts m id b targets fs).1 `sublist_of` targets.
Proof.
  revert fs. induction targets as [|t rest IH]; intros fs; simpl; [done|].
  destruct (nodes m !! t) as [node|].
  - simpl. rewrite achieved_cons.
    destruct (Store node id (BytesReader b None) fs) as [[[]|e|msg|] fs1]; simpl;
      try (by apply sublist_cons); by apply sublist_skip.
  - by apply sublist_cons.
Qed.

Lemma attempts_env m id b targets fs :
  (4 ≤ String.length id)%nat →
  faults (attempts m id b targets fs).2 = faults fs ∧
  umask (attempts m id b targets fs).2 = umask fs.
Proof.
  intros Hlen. revert fs. induction targets as [|t rest IH]; intros fs; simpl; [done|].
  destruct (nodes m !! t) as [node|]; [|apply IH]. simpl.
  destruct (Store node id (BytesReader b None) fs) as [r fs1] eqn:Hst. simpl.
  destruct (Store_cases _ _ _ _ _ _ Hlen Hst) as (Hu & Hf & _).
  destruct (IH fs1) as [-> ->]. done.
Qed.

Lemma achieved_registered m id b targets fs t :
  t ∈ achieved (attempts m id b targets fs).1 → is_Some (nodes m !! t).
Proof.
  revert fs. induction targets as [|t' rest IH]; intros fs; simpl.
  { by intros ?%elem_of_nil. }
  destruct (nodes m !! t') as [node|] eqn:Hn; [|apply IH].
  simpl. rewrite achieved_cons.
  destruct (Store node id (BytesReader b None) fs) as [[[]|e|msg|] fs1]; simpl;
    try apply IH.
  intros [->|?]%elem_of_cons; [by eexists|by eapply IH].
Qed.

(** X19. The list a successful [StoreObject] returns is not empty and has the
    ring targets that took the object, in ring order: a sublist without
    repeats of what [GetNodes] returned, every node of which is
    registered. *)
Theorem StoreObject_replicas m hr id data size fs reps fs' :
  (4 ≤ String.length id)%nat →
  hashRing m = ringOf hr →
  StoreObject m id data size fs = (Ok reps, fs') →
  ∃ targets, hashring.GetNodes hr id (replication m) = Ok targets ∧
    reps ≠ [] ∧ reps `sublist_of` targets ∧ NoDup reps ∧
    (∀ t, t ∈ reps → is_Some (nodes m !! t)) ∧
    len reps ≤ Z.max 0 (replication m) ∧
    faults fs' = faults fs ∧ umask fs' = umask fs.
Proof.
  intros Hlen Hring Hstore.
  unfold StoreObject in Hstore. rewrite Hring in Hstore. simpl in Hstore.
  destruct (hashring.GetNodes hr id (replication m)) as [targets| | |] eqn:Hg;
    try done.
  destruct (len targets =? 0); [done|].
  destruct (ReadAll data fs) as [b|e]; [|done].
  rewrite storeLoop_attempts in Hstore by done. simpl in Hstore.
  destruct (Z.eqb_spec (len (achieved (attempts m id b targets fs).1)) 0) as [|Hnz];
    [done|].
  injection Hstore as <- <-. exists targets. split; [done|].
  pose proof (achieved_sublist m id b targets fs) as Hsub.
  pose proof (GetNodes_NoDup _ _ _ _ Hg) as Hnd.
  split; [by intros Heq; rewrite Heq in Hnz|]. split; [done|].
  split; [by eapply sublist_NoDup|]. split; [by apply achieved_registered|].
  split.
  { apply sublist_length in Hsub.
    destruct (GetNodes_owners _ _ _ _ Hg) as (Hle & _).
    unfold len, hashring.len in *. lia. }
  by apply attempts_env.
Qed.


(** *** The byte reader *)

Lemma ReadAt_inside data plen off :
  0 ≤ off < len data → (0 < plen)%nat → Z.of_nat plen ≤ len data - off →
  ReadAt data plen off = (take plen (drop (Z.to_nat off) data), None).
Proof.
  intros Hoff Hplen Hfit. unfold ReadAt.
  destruct (Z.ltb_spec off 0); [lia|].
  rewrite Z.geb_leb. destruct (Z.leb_spec (len data) off); [lia|].
  rewrite length_take, length_drop. unfold len in *.
  destruct (Nat.ltb_spec (plen `min` (length data - Z.to_nat off)) plen); [lia|done].
Qed.

Lemma readAllLoop_byteReader data room fuel b :
  (∀ n, 0 < room n)%nat →
  b ++ drop (length b) data = data →
  (length data - length b < fuel)%nat →
  readAllLoop fuel (ReadAt data) (len data) room (len b) b = Some (data, None).
Proof.
  intros Hroom. revert b. induction fuel as [|fuel IH]; intros b Hb Hfuel; [lia|].
  assert (length b ≤ length data)%nat as Hle.
  { apply (f_equal length) in Hb. rewrite length_app, length_drop in Hb. lia. }
  simpl. unfold sectionRead. rewrite Z.geb_leb.
  destruct (Z.leb_spec (len data) (len b)) as [Hend|Hmore].
  - rewrite app_nil_r. f_equal. f_equal.
    rewrite drop_ge in Hb by (unfold len in *; lia). by rewrite app_nil_r in Hb.
  - set (plen := if Z.of_nat (room (length b)) >? len data - len b
                 then Z.to_nat (len data - len b) else room (length b)).
    assert ((0 < plen)%nat ∧ Z.of_nat plen ≤ len data - len b) as [Hpos Hfit].
    { unfold plen. pose proof (Hroom (length b)).
      destruct (Z.gtb_spec (Z.of_nat (room (length b))) (len data - len b)); lia. }
    rewrite ReadAt_inside by (unfold len in *; lia). cbv beta iota.
    assert (Z.to_nat (len b) = length b) as -> by (unfold len; lia).
    assert (length (take plen (drop (length b) data)) = plen) as Hn.
    { rewrite length_take, length_drop. unfold len in *. lia. }
    rewrite Hn.
    assert (len b + Z.of_nat plen = len (b ++ take plen (drop (length b) data)))
      as ->.
    { unfold len. rewrite length_app, Hn. lia. }
    apply IH.
    + rewrite length_app, Hn, <- app_assoc.
      by rewrite <- drop_drop, take_drop.
    + rewrite length_app, Hn. unfold len in *. lia.
Qed.

(** X20. Reading the byte reader to its end gives the bytes back: what
    [io.ReadAll] collects from the section reader over [ReadAt], whatever
    the sizes of the buffers it reads into, is the data, without error;
    [length data + 1] rounds of the loop are enough.  This is the reader
    [StoreObject] hands to every node. *)
Theorem byteReader_reads_back data room fuel :
  (∀ n, 0 < room n)%nat → (length data < fuel)%nat →
  readAllLoop fuel (ReadAt data) (len data) room 0 [] = Some (data, None) ∧
  (∀ plen off, off < 0 → ReadAt data plen off = ([], Some (Failed "negative offset"))) ∧
  (∀ plen off, len data ≤ off → ReadAt data plen off = ([], Some EOF)) ∧
  (∀ plen off, (length (ReadAt data plen off).1 ≤ plen)%nat).
Proof.
  intros Hroom Hfuel. split; [|split; [|split]].
  - apply (readAllLoop_byteReader data room fuel []); [done|done|simpl; lia].
  - intros plen off Hoff. unfold ReadAt. by destruct (Z.ltb_spec off 0); [|lia].
  - intros plen off Hoff. unfold ReadAt. rewrite Z.geb_leb.
    destruct (Z.ltb_spec off 0); [unfold len in *; lia|].
    by destruct (Z.leb_spec (len data) off); [|lia].
  - intros plen off. unfold ReadAt.
    destruct (_ <? _); [simpl; lia|]. destruct (_ >=? _); [simpl; lia|].
    simpl. rewrite length_take. lia.
Qed.

End manager_more.


(** ** The handlers *)

Section handlers.
Import filepath os io storage.
Local Arguments blobPath : simpl never.
Local Arguments shardDir : simpl never.
Local Arguments Store : simpl never.
Local Arguments Exists : simpl never.
Local Arguments Retrieve : simpl never.
Local Arguments achieved : simpl never.
Local Arguments lastError : simpl never.
Local Arguments StoreObject : simpl never.
Local Arguments RetrieveObject : simpl never.
Local Arguments GenerateObjectID : simpl never.

(** X21. [UploadHandler] answers 405, 400, 500, 200 or 201.  It writes
    metadata and starts a self-heal only when it answers 201, and it
    changes the files only when it went as far as storing the object
    (201, or 500 after a failed store); a request that is not a POST is
    answered 405. *)
Theorem UploadHandler_answers s r now w h :
  api.UploadHandler s r now w = Ok h →
  api.StatusCode (api.response h) ∈ [200; 201; 400; 405; 500] ∧
  (api.StatusCode (api.response h) ≠ 201 →
   api.meta (api.world h) = api.meta w ∧ api.spawned h = None) ∧
  (api.StatusCode (api.response h) ≠ 201 → api.StatusCode (api.response h) ≠ 500 →
   api.world h = w) ∧
  (api.Method r ≠ "POST"%string → api.StatusCode (api.response h) = 405).
Proof.
  unfold api.UploadHandler.
  destruct (String.eqb_spec (api.Method r) "POST") as [Hm|Hm]; simpl.
  2:{ intros [= <-]. simpl. repeat split; try done. set_solver. }
  destruct (api.form r) as [| |file header].
  1,2: intros [= <-]; simpl; repeat split; try done; set_solver.
  destruct (ReadAll file (api.fs w)) as [data|e].
  2:{ intros [= <-]. simpl. repeat split; try done. set_solver. }
  destruct (if metadata.Exists _ _ then _ else None) as [existing|].
  { intros [= <-]. simpl. repeat split; try done. set_solver. }
  destruct (StoreObject _ _ _ _ _) as [[reps|e|msg|] fs1]; try done.
  - intros [= <-]. simpl. repeat split; try done. set_solver.
  - intros [= <-]. simpl. repeat split; try done. set_solver.
Qed.


Lemma UploadHandler_saved_201 s file header now w h :
  api.UploadHandler s (api.mkRequest "POST" "" (api.FormFile file header)) now w = Ok h →
  api.StatusCode (api.response h) = 201 →
  ∃ data replicas,
    ReadAll file (api.fs w) = Val data ∧
    StoreObject (api.storageManager s) (GenerateObjectID data) (BytesReader data None)
                (len data) (api.fs w) = (Ok replicas, api.fs (api.world h)) ∧
    api.response h =
      api.mkResponse 201 (api.Metadata
        (metadata.mkMeta (GenerateObjectID data) (len data)
           (if String.eqb header "" then "application/octet-stream"%string else header)
           now replicas)) ∧
    (metadata.readOnly (api.meta w) = false →
     metadata.Get (GenerateObjectID data) (api.meta (api.world h)) =
       Val (metadata.mkMeta (GenerateObjectID data) (len data)
              (if String.eqb header "" then "application/octet-stream"%string else header)
              now replicas)).
Proof.
  unfold api.UploadHandler. simpl.
  destruct (ReadAll file (api.fs w)) as [data|e]; [|by intros [= <-]].
  unfold metadata.Exists, metadata.Get.
  destruct (metadata.objects (api.meta w) !! GenerateObjectID data) as [m0|] eqn:Hm0.
  { rewrite bool_decide_eq_true_2 by (by eexists). by intros [= <-]. }
  rewrite bool_decide_eq_false_2 by (by intros [? ?]).
  destruct (StoreObject _ _ _ _ _) as [[reps|e|msg|] fs1] eqn:Hst; try done.
  2:{ by intros [= <-]. }
  intros [= <-] _. simpl. exists data, reps. split; [done|]. split; [done|].
  split; [done|].
  intros Hro. unfold metadata.Save. rewrite Hro. simpl. by rewrite lookup_insert_eq.
Qed.

(** X22. What an upload answered with 201 has done: the object is stored
    under the SHA-256 of the bytes on the nodes the response lists, the
    descriptor has their length, the content type of the part (or
    [application/octet-stream] when it has none) and the time of the
    request, the self-heal is started on it, and unless the metadata
    store refuses the write the descriptor is what [Get] returns
    afterwards. *)
Theorem UploadHandler_created s file header now w h :
  api.UploadHandler s (api.mkRequest "POST" "" (api.FormFile file header)) now w = Ok h →
  api.StatusCode (api.response h) = 201 →
  ∃ data replicas,
    let objectID := GenerateObjectID data in
    let m := metadata.mkMeta objectID (len data)
               (if String.eqb header "" then "application/octet-stream"%string
                else header) now replicas in
    ReadAll file (api.fs w) = Val data ∧
    StoreObject (api.storageManager s) objectID (BytesReader data None) (len data)
                (api.fs w) = (Ok replicas, api.fs (api.world h)) ∧
    api.response h = api.mkResponse 201 (api.Metadata m) ∧
    api.spawned h = Some (objectID, m) ∧
    metadata.Get objectID (api.meta w) = Fail (ErrMetadata "metadata not found") ∧
    (metadata.readOnly (api.meta w) = false →
     metadata.Get objectID (api.meta (api.world h)) = Val m).
Proof.
  unfold api.UploadHandler. simpl.
  destruct (ReadAll file (api.fs w)) as [data|e]; [|by intros [= <-]].
  unfold metadata.Exists, metadata.Get.
  destruct (metadata.objects (api.meta w) !! GenerateObjectID data) as [m0|] eqn:Hm0.
  { rewrite bool_decide_eq_true_2 by (by eexists). by intros [= <-]. }
  rewrite bool_decide_eq_false_2 by (by intros [? ?]).
  destruct (StoreObject _ _ _ _ _) as [[reps|e|msg|] fs1] eqn:Hst; try done.
  2:{ by intros [= <-]. }
  intros [= <-] _. simpl. exists data, reps. split; [done|]. split; [done|].
  split; [done|]. split; [done|]. split; [by rewrite Hm0|].
  intros Hro. unfold metadata.Save. rewrite Hro. simpl. by rewrite lookup_insert_eq.
Qed.

(** After a successful [StoreObject] under the identifier of the bytes
    the retrieval path delivers the bytes (the environment is that of the
    round-trip property). *)
Lemma StoreObject_read_back m hr b data size fs reps fs' :
  hashRing m = ringOf hr →
  ReadAll data fs = Val b →
  separated m (GenerateObjectID b) → intact m (GenerateObjectID b) b fs →
  noFault fs OpRemove → noFault fs OpStat → noFault fs OpOpen →
  StoreObject m (GenerateObjectID b) data size fs = (Ok reps, fs') →
  ∃ r, RetrieveObject m (GenerateObjectID b) fs' = Ok r ∧ ReadAll r fs' = Val b.
Proof.
  intros Hring Hread Hsep Hint Hrm Hstat Hopen Hstore.
  destruct (GenerateObjectID_wf b) as [Hlen Hp].
  set (id := GenerateObjectID b) in *.
  unfold StoreObject in Hstore. rewrite Hring in Hstore. simpl in Hstore.
  destruct (hashring.GetNodes hr id (replication m)) as [targets| | |] eqn:Hg;
    try done.
  destruct (len targets =? 0); [done|]. rewrite Hread in Hstore.
  destruct (storeLoop m id b targets [] None fs) as [[[reps' lastErr]| | |] fs1] eqn:Hloop;
    try done.
  destruct (Z.eqb_spec (len reps') 0) as [|Hnz]; [done|]. simplify_eq.
  apply (read_after_write m id b targets fs reps fs'); try done.
  - by rewrite Hring.
  - by eapply GetNodes_NoDup.
  - destruct lastErr as [e|]; [right; by exists e|by left].
  - intros ->. by apply Hnz.
Qed.

(** X23. Upload, then download: after an upload answered with 201,
    [GetObjectHandler] asked for the identifier in the response answers
    200 with the bytes uploaded, and with the content type of the upload
    when its metadata was written.  The environment is that of the
    round-trip property: nodes in separate places, no other content under
    the identifier, and no [Remove], [Stat] or [Open] made to fail. *)
Theorem upload_then_download s hr file header now w h data :
  hashRing (api.storageManager s) = ringOf hr →
  ReadAll file (api.fs w) = Val data →
  separated (api.storageManager s) (GenerateObjectID data) →
  intact (api.storageManager s) (GenerateObjectID data) data (api.fs w) →
  noFault (api.fs w) OpRemove → noFault (api.fs w) OpStat → noFault (api.fs w) OpOpen →
  api.UploadHandler s (api.mkRequest "POST" "" (api.FormFile file header)) now w = Ok h →
  api.StatusCode (api.response h) = 201 →
  ∃ sent,
    api.GetObjectHandler s (api.mkRequest "GET" (GenerateObjectID data) api.NoFile)
                         (api.world h)
      = Ok (api.mkServed (api.mkResponse 200 (api.Bytes data)) sent) ∧
    (metadata.readOnly (api.meta w) = false →
     sent = Some (if String.eqb header "" then "application/octet-stream"%string
                  else header)).
Proof.
  intros Hring Hread Hsep Hint Hrm Hstat Hopen Hup H201.
  destruct (UploadHandler_saved_201 s file header now w h Hup H201)
    as (data' & reps & Hread' & Hstore & _ & Hget).
  assert (data' = data) as -> by congruence.
  destruct (StoreObject_read_back (api.storageManager s) hr data
              (BytesReader data None) (len data) (api.fs w) reps
              (api.fs (api.world h)) Hring eq_refl Hsep Hint
              Hrm Hstat Hopen Hstore) as (r & Hret & Hall).
  destruct (GenerateObjectID_wf data) as [Hlen _].
  unfold api.GetObjectHandler. simpl.
  destruct (String.eqb_spec (GenerateObjectID data) "") as [Hempty|_].
  { rewrite Hempty in Hlen. simpl in Hlen. lia. }
  rewrite Hret. unfold ReadAll in Hall.
  destruct (drain (api.fs (api.world h)) r) as [bytes [e|]] eqn:Hdr; [done|].
  injection Hall as ->. eexists. split; [done|].
  intros Hro. rewrite (Hget Hro). simpl.
  destruct (String.eqb_spec header "") as [->|Hne]; [done|].
  by destruct (String.eqb_spec header "").
Qed.


Lemma Exists_short n id fs :
  (String.length id < 4)%nat → Exists n id fs = Panic "slice bounds out of range".
Proof. intros Hlen. unfold Exists. by rewrite objectPath_short. Qed.

Lemma retrieveLoop_short m id targets fs :
  (String.length id < 4)%nat →
  (∃ t, t ∈ targets ∧ is_Some (nodes m !! t)) →
  retrieveLoop m id targets fs = Panic "slice bounds out of range".
Proof.
  intros Hlen. induction targets as [|t rest IH]; intros (t0 & Hin & Hreg).
  { by apply elem_of_nil in Hin. }
  simpl. destruct (nodes m !! t) as [n|] eqn:Hn.
  - by rewrite Exists_short.
  - apply IH. apply elem_of_cons in Hin as [->|Hin].
    + rewrite Hn in Hreg. by destruct Hreg.
    + by exists t0.
Qed.

(** X24. A GET for an identifier of one to three characters makes the handler
    panic as soon as one ring target is registered: the node slices
    [objectID[2:4]] before it looks at the file system. *)
Theorem GetObjectHandler_short_id_panics s id targets w :
  id ≠ EmptyString → (String.length id < 4)%nat →
  GetNodes (hashRing (api.storageManager s)) id (replication (api.storageManager s))
    = Ok targets →
  (∃ t, t ∈ targets ∧ is_Some (nodes (api.storageManager s) !! t)) →
  api.GetObjectHandler s (api.mkRequest "GET" id api.NoFile) w =
    Panic "slice bounds out of range".
Proof.
  intros Hne Hlen Hg Hreg. unfold api.GetObjectHandler. simpl.
  destruct (String.eqb_spec id "") as [?|_]; [done|].
  unfold RetrieveObject. rewrite Hg. by rewrite retrieveLoop_short.
Qed.

(** X25. [GetObjectHandler] answers 405 to what is not a GET, 400 to an empty
    identifier, and 404 when no ring target yields the object, also when
    a node that is no target has it. *)
Theorem GetObjectHandler_rejects s r w :
  (api.Method r ≠ "GET"%string →
   api.GetObjectHandler s r w =
     Ok (api.mkServed (api.mkResponse 405 (api.Text "Method not allowed")) None)) ∧
  (api.Method r = "GET"%string → api.PathValue r = EmptyString →
   api.GetObjectHandler s r w =
     Ok (api.mkServed (api.mkResponse 400 (api.Text "Object ID is required")) None)) ∧
  (∀ targets,
     api.Method r = "GET"%string → (4 ≤ String.length (api.PathValue r))%nat →
     GetNodes (hashRing (api.storageManager s)) (api.PathValue r)
              (replication (api.storageManager s)) = Ok targets →
     List.find (usable (api.storageManager s) (api.PathValue r) (api.fs w)) targets
       = None →
     api.GetObjectHandler s r w =
       Ok (api.mkServed (api.mkResponse 404 (api.Text "Object not found")) None)).
Proof.
  unfold api.GetObjectHandler. split; [|split].
  - intros Hm. by destruct (String.eqb_spec (api.Method r) "GET").
  - intros -> ->. done.
  - intros targets -> Hlen Hg Hfind. simpl.
    destruct (String.eqb_spec (api.PathValue r) "") as [Heq|_].
    { rewrite Heq in Hlen. simpl in Hlen. lia. }
    rewrite (RetrieveObject_find _ _ _ targets Hlen Hg). unfold firstUsable.
    by rewrite Hfind.
Qed.

(** X26. [GetMetadataHandler] changes nothing.  It answers 404 when the
    store has no descriptor, and otherwise 200 with the stored descriptor
    in which the replica list is replaced by what [CheckReplicas] finds
    now; it starts a self-heal exactly when that list is shorter than the
    replication factor. *)
Theorem GetMetadataHandler_reports s id w :
  (4 ≤ String.length id)%nat →
  ∃ h, api.GetMetadataHandler s (api.mkRequest "GET" id api.NoFile) w = Ok h ∧
    api.world h = w ∧
    match metadata.objects (api.meta w) !! id with
    | None =>
        api.response h = api.mkResponse 404 (api.Text "Metadata not found") ∧
        api.spawned h = None
    | Some m =>
        ∃ l, CheckReplicas (api.storageManager s) id (api.fs w) = Ok l ∧
             api.response h = api.mkResponse 200 (api.Metadata (api.setReplicas m l)) ∧
             (len l < api.replication s →
              api.spawned h = Some (id, api.setReplicas m l)) ∧
             (api.replication s ≤ len l → api.spawned h = None)
    end.
Proof.
  intros Hlen. unfold api.GetMetadataHandler, metadata.Get. simpl.
  destruct (String.eqb_spec id "") as [Heq|_].
  { rewrite Heq in Hlen. simpl in Hlen. lia. }
  destruct (metadata.objects (api.meta w) !! id) as [m|]; [|by eexists].
  unfold CheckReplicas. rewrite checkLoop_spec by done. simpl.
  eexists. split; [done|]. split; [done|]. eexists. split; [done|]. split; [done|].
  split; intros Hl.
  - by rewrite (proj2 (Z.ltb_lt _ _) Hl).
  - by rewrite (proj2 (Z.ltb_ge _ _) Hl).
Qed.

Lemma healLoop_no_source s id targets available (availableSet : gset string) rest fs :
  (4 ≤ String.length id)%nat →
  GetNodes (hashRing (api.storageManager s)) id (replication (api.storageManager s))
    = Ok targets →
  List.find (usable (api.storageManager s) id fs) targets = None →
  api.healLoop s id available availableSet rest 0 fs = (Ok 0, fs).
Proof.
  intros Hlen Hg Hfind. induction rest as [|t rest IH]; simpl; [done|].
  destruct (decide (t ∈ availableSet)); [done|].
  unfold ReplicateObject. rewrite (RetrieveObject_find _ _ _ targets Hlen Hg).
  unfold firstUsable. by rewrite Hfind.
Qed.

(** X27. The self-heal copies from ring targets only: when no target yields
    the object it changes nothing, neither files nor metadata, however
    few replicas there are, and also when a node outside the target list
    still has a copy. *)
Theorem ensureReplication_needs_a_target_copy s id targets meta0 w :
  (4 ≤ String.length id)%nat →
  GetNodes (hashRing (api.storageManager s)) id (replication (api.storageManager s))
    = Ok targets →
  List.find (usable (api.storageManager s) id (api.fs w)) targets = None →
  api.ensureReplication s id meta0 w = (Ok meta0, w).
Proof.
  intros Hlen Hg Hfind. unfold api.ensureReplication, CheckReplicas.
  rewrite checkLoop_spec by done. simpl.
  destruct (_ >=? _); [done|]. unfold GetTargetNodes. rewrite Hg.
  rewrite (healLoop_no_source s id targets) by done. simpl. by destruct w.
Qed.

End handlers.


(** ** Start-up *)

Section startup.
Import filepath os io storage.
Local Arguments hashring.hashKey : simpl never.
Local Arguments hashring.virtualKey : simpl never.
Local Opaque hashring.hashKey hashring.virtualKey.

Lemma AddNode_inv nodeID hr :
  dom (hashring.nodes (hashring.AddNode nodeID hr)) = {[nodeID]} ∪ dom (hashring.nodes hr) ∧
  hashring.virtualNodes (hashring.AddNode nodeID hr) = hashring.virtualNodes hr ∧
  (Sorted Z.le (hashring.sortedHashes hr) →
   Sorted Z.le (hashring.sortedHashes (hashring.AddNode nodeID hr))).
Proof.
  destruct (hashring.nodes hr !! nodeID) as [n|] eqn:Hn.
  - unfold hashring.AddNode. rewrite Hn. split; [|done].
    apply elem_of_dom_2 in Hn. symmetry. apply subseteq_union_1_L.
    by apply singleton_subseteq_l.
  - destruct (AddNode_new nodeID hr Hn) as (-> & -> & -> & _).
    split; [by rewrite dom_insert_L|]. split; [done|]. intros _.
    apply (Sorted_merge_sort Z.le).
Qed.

Variable flags : main.Flags.

Lemma createNode_ready seen st i fs st' fs' :
  main.createNode flags st i fs = (Ok st', fs') → main.ready flags seen st fs →
  main.ready flags (seen ++ [i]) st' fs' ∧
  ∀ q e, lookup fs q = Some e → lookup fs' q = Some e.
Proof.
  unfold main.createNode, NewNode, MkdirAll, chain.
  set (nodeID := ("node" ++ fmt.itoa (i + 1))%string).
  set (base := show (Join [main.dataDir flags; nodeID])).
  destruct (mkdirAll _ _ _) as [[e|] fs1] eqn:Hmk; [done|].
  intros [= <- <-] (Hdom & Hv & Hs & Hnames & Hnodes).
  assert (∀ q e, lookup fs q = Some e → lookup fs1 q = Some e) as Hkeep.
  { intros q e Hq.
    pose proof (mkdirAll_keeps (chainRev (rev (Clean base))) (oct 7 5 5) fs q e Hq)
      as Hk. by rewrite Hmk in Hk. }
  split; [|done].
  destruct (AddNode_inv nodeID (main.ring st)) as (Hd & Hv' & Hs').
  unfold main.ready. simpl. split; [by rewrite dom_insert_L, Hd, Hdom|].
  split; [by rewrite Hv'|]. split; [by apply Hs'|]. split.
  - intros t. rewrite dom_insert_L, elem_of_union, elem_of_singleton, Hnames. split.
    + intros [->|(j & Hj & ->)].
      * exists i. split; [|done]. apply elem_of_app. right. by left.
      * exists j. split; [|done]. apply elem_of_app. by left.
    + intros (j & [Hj|Hj%list_elem_of_singleton]%elem_of_app & ->).
      * right. by exists j.
      * left. by rewrite Hj.
  - intros t n. destruct (decide (t = nodeID)) as [->|Hne].
    + rewrite lookup_insert_eq. intros [= <-]. simpl. split; [done|]. split; [done|].
      apply mkdirAll_ok in Hmk. by rewrite rev_involutive in Hmk.
    + rewrite lookup_insert_ne by done. intros Hn.
      destruct (Hnodes t n Hn) as (? & ? & mode & Hd'). split; [done|]. split; [done|].
      exists mode. by apply Hkeep.
Qed.

Lemma createNodes_ready ixs seen st fs st' fs' :
  main.createNodes flags st ixs fs = (Ok st', fs') → main.ready flags seen st fs →
  main.ready flags (seen ++ ixs) st' fs' ∧
  ∀ q e, lookup fs q = Some e → lookup fs' q = Some e.
Proof.
  revert seen st fs. induction ixs as [|i ixs IH]; intros seen st fs; simpl.
  - intros [= <- <-] Hr. by rewrite app_nil_r.
  - destruct (main.createNode flags st i fs) as [[st1|e|msg|] fs1] eqn:Hc; try done.
    intros Hrest Hr.
    destruct (createNode_ready seen st i fs st1 fs1 Hc Hr) as [Hr1 Hk1].
    destruct (IH (seen ++ [i]) st1 fs1 Hrest Hr1) as [Hr' Hk'].
    rewrite <- app_assoc in Hr'. split; [done|]. intros q e Hq. by apply Hk', Hk1.
Qed.

(** X29. What [main] has set up when its loop over the storage nodes ends
    without error: the nodes [node1] to [node<n>] are registered with the
    manager and with the ring alike, each with its base directory
    [<data-dir>/node<i>] in place; the manager reads the ring that has
    them and has the replication factor of the server; the positions of
    the ring are sorted; and no file that was there is gone. *)
Theorem main_registers_every_node fs st fs' :
  main.setup flags fs = (Ok st, fs') →
  dom (nodes (main.managerOf flags st)) = dom (hashring.nodes (main.ring st)) ∧
  hashRing (main.managerOf flags st) = ringOf (main.ring st) ∧
  api.replication (main.serverOf flags st) = replication (main.managerOf flags st) ∧
  api.storageManager (main.serverOf flags st) = main.managerOf flags st ∧
  hashring.virtualNodes (main.ring st) = main.virtualNodes flags ∧
  Sorted Z.le (hashring.sortedHashes (main.ring st)) ∧
  (∀ t, is_Some (nodes (main.managerOf flags st) !! t) ↔
        ∃ i, 0 ≤ i < main.nodeCount flags ∧ t = ("node" ++ fmt.itoa (i + 1))%string) ∧
  (∀ t n, nodes (main.managerOf flags st) !! t = Some n →
          ID n = t ∧ BasePath n = show (Join [main.dataDir flags; t]) ∧
          ∃ mode, lookup fs' (Clean (BasePath n)) = Some (Dir mode)) ∧
  (∀ q e, lookup fs q = Some e → lookup fs' q = Some e).
Proof.
  unfold main.setup. intros Hsetup.
  destruct (createNodes_ready _ [] _ _ _ _ Hsetup) as [(Hdom & Hv & Hs & Hnames & Hnodes) Hk].
  { unfold main.ready. simpl. split; [by rewrite !dom_empty_L|]. split; [done|].
    split; [constructor|]. split.
    - intros t. rewrite dom_empty_L. split; [by intros ?%elem_of_empty|].
      by intros (i & ?%elem_of_nil & _).
    - intros t n. by rewrite lookup_empty. }
  simpl in *. split; [done|]. split; [done|]. split; [done|]. split; [done|].
  split; [done|]. split; [done|]. split; [|done].
  intros t. rewrite <- elem_of_dom, Hnames. split.
  - intros (i & Hi%elem_of_seqZ & ->). exists i. split; [lia|done].
  - intros (i & Hi & ->). exists i. split; [|done]. apply elem_of_seqZ. lia.
Qed.

End startup.


(** X11, witness: deleting the object of the node tests. *)
Lemma Delete_idempotent_witness :
  let n := scenario.test_node in
  let id := scenario.test_id in
  let fs := scenario.test_fs in
  ∃ fs',
    storage.Delete n id fs = (Ok (), fs') ∧
    storage.Exists n id fs' = Ok false ∧
    storage.Delete n id fs' = (Ok (), fs') ∧
    (∀ q, q ≠ storage.blobPath n id → os.lookup fs' q = os.lookup fs q) ∧
    (os.lookup fs (storage.blobPath n id) = None → fs' = fs).
Proof.
  intros n id fs. apply (Delete_idempotent n id fs).
  - vm_compute. lia.
  - vm_compute. reflexivity.
  - intros mode. by vm_compute.
Defined.

(** X12, witness. *)
Lemma absent_object_reported_witness :
  let n := scenario.test_node in
  let id := scenario.test_id in
  let fs := scenario.empty_fs (oct 0 2 2) in
  (os.lookup fs (storage.blobPath n id) = None →
   storage.Exists n id fs = Ok false ∧
   storage.Retrieve n id fs =
     Err (if os.fault fs os.OpOpen (storage.blobPath n id)
          then ErrOpenFile (PathError "open" (storage.blobPath n id) EIO)
          else ErrObjectNotFound id) ∧
   storage.GetSize n id fs =
     Err (if os.fault fs os.OpStat (storage.blobPath n id)
          then ErrStat (PathError "stat" (storage.blobPath n id) EIO)
          else ErrObjectNotFound id)) ∧
  (os.fault fs os.OpStat (storage.blobPath n id) = true → storage.Exists n id fs = Ok false).
Proof.
  intros n id fs. apply (absent_object_reported n id fs). vm_compute. lia.
Defined.

(** X13, witness: the node test's object stored a second time with other
    bytes. *)
Lemma Store_again_witness :
  let n := scenario.test_node in
  let id := scenario.test_id in
  ∃ fs2 mode old,
    storage.Store n id (io.BytesReader scenario.hello_world None) scenario.test_fs
      = (Ok (), fs2) ∧
    os.lookup scenario.test_fs (storage.blobPath n id) = Some (os.File mode old) ∧
    os.lookup fs2 (storage.blobPath n id) = Some (os.File mode scenario.hello_world) ∧
    (∀ q, q ≠ storage.blobPath n id → os.lookup fs2 q = os.lookup scenario.test_fs q) ∧
    (old = scenario.hello_world → fs2 = scenario.test_fs).
Proof.
  intros n id.
  apply (Store_again n id (io.BytesReader scenario.test_data None)
           (scenario.empty_fs (oct 0 2 2)) scenario.test_fs scenario.hello_world).
  - vm_compute. reflexivity.
  - vm_compute. lia.
  - rewrite (surjective_pairing (storage.Store _ _ _ _)).
    apply f_equal2; [vm_compute; reflexivity|reflexivity].
Defined.

(** X14, witness: storing the object of S1 on the node of the node tests
    leaves the test object as it is. *)
Lemma Store_leaves_other_objects_witness :
  let n := scenario.test_node in
  let r := storage.Store n scenario.hello_id (io.BytesReader scenario.hello_world None)
             scenario.test_fs in
  os.lookup r.2 (storage.blobPath n scenario.test_id) =
  os.lookup scenario.test_fs (storage.blobPath n scenario.test_id).
Proof.
  intros n r.
  apply (Store_leaves_other_objects n scenario.hello_id scenario.test_id
           (io.BytesReader scenario.hello_world None) scenario.test_fs r.1 r.2).
  - vm_compute. reflexivity.
  - vm_compute. lia.
  - vm_compute. reflexivity.
  - vm_compute. lia.
  - intros Heq. vm_compute in Heq. discriminate.
  - apply surjective_pairing.
Defined.

(** Why X14 is for plain identifiers: [filepath.Join] cleans the path, so
    the identifier ["xxyy/../../../ab/cd/<id>"] names the blob of [<id>],
    and a [Store] under it replaces the bytes of that object. *)
Lemma Store_climbing_id_overwrites :
  let n := scenario.test_node in
  let r := storage.Store n scenario.climbing_id (io.BytesReader scenario.hello_world None)
             scenario.test_fs in
  filepath.plain scenario.climbing_id = false ∧
  scenario.climbing_id ≠ scenario.test_id ∧
  storage.blobPath n scenario.climbing_id = storage.blobPath n scenario.test_id ∧
  storage.holds n scenario.test_id scenario.test_data scenario.test_fs ∧
  r.1 = Ok () ∧
  storage.holds n scenario.test_id scenario.hello_world r.2.
Proof.
  intros n r. split; [vm_compute; reflexivity|]. split; [discriminate|].
  split; [vm_compute; reflexivity|].
  split; [exists (oct 6 4 4); vm_compute; reflexivity|].
  split; [vm_compute; reflexivity|]. exists (oct 6 4 4). vm_compute. reflexivity.
Qed.

(** X15, witness: with the object on [node3] only, no ring target yields it;
    with the object stored, ["node9"] is not registered. *)
Lemma ReplicateObject_refuses_witness :
  let m := scenario.manager3 in
  let id := scenario.hello_id in
  let targets := ["node1"; "node2"]%string in
  (List.find (storage.usable m id scenario.orphan_fs) targets = None →
   storage.ReplicateObject m id "node1" scenario.orphan_fs =
     (Err (ErrRetrieveForReplication (ErrNotFoundAny id)), scenario.orphan_fs)) ∧
  (is_Some (List.find (storage.usable m id scenario.orphan_fs) targets) →
   storage.nodes m !! "node1"%string = None →
   storage.ReplicateObject m id "node1" scenario.orphan_fs =
     (Err (ErrTargetNotFound "node1"), scenario.orphan_fs)).
Proof.
  intros m id targets.
  apply (ReplicateObject_refuses m id targets "node1" scenario.orphan_fs).
  - vm_compute. lia.
  - vm_compute. reflexivity.
Defined.

(** X16, witness: the copy of S1's object from [node1] to [node3]. *)
Lemma ReplicateObject_copies_witness :
  storage.holds scenario.node3 scenario.hello_id scenario.hello_world scenario.stale_fs ∧
  storage.holds scenario.node1 scenario.hello_id scenario.hello_world scenario.stale_fs.
Proof.
  apply (ReplicateObject_copies scenario.manager3 scenario.hello_id
           ["node1"; "node2"]%string "node3" scenario.node3 "node1" scenario.node1
           (oct 6 4 4) scenario.hello_world scenario.stored_fs scenario.stale_fs).
  - vm_compute. reflexivity.
  - vm_compute. lia.
  - vm_compute. reflexivity.
  - vm_compute. reflexivity.
  - vm_compute. reflexivity.
  - vm_compute. reflexivity.
  - vm_compute. reflexivity.
  - apply (bool_decide_unpack _). by vm_compute.
  - unfold scenario.stale_fs.
    rewrite (surjective_pairing (storage.ReplicateObject _ _ _ _)) at 1.
    apply f_equal2; [vm_compute; reflexivity|reflexivity].
Defined.

(** X17, witness: replicating S1's object onto [node1], its first target,
    which has it. *)
Lemma ReplicateObject_onto_source_truncates_witness :
  storage.holds scenario.node1 scenario.hello_id []
    (storage.ReplicateObject scenario.manager3 scenario.hello_id "node1"
       scenario.stored_fs).2.
Proof.
  apply (ReplicateObject_onto_source_truncates scenario.manager3 scenario.hello_id
           ["node1"; "node2"]%string "node1" scenario.node1 scenario.stored_fs).
  - vm_compute. lia.
  - vm_compute. reflexivity.
  - vm_compute. reflexivity.
  - vm_compute. reflexivity.
  - rewrite (surjective_pairing (storage.ReplicateObject _ _ _ _)) at 1.
    apply f_equal2; [vm_compute; reflexivity|reflexivity].
Defined.

(** X18, witness. *)
Lemma CheckReplicas_lists_holders_witness :
  let m := scenario.manager3 in
  let id := scenario.hello_id in
  let fs := scenario.stale_fs in
  ∃ l, storage.CheckReplicas m id fs = Ok l ∧ NoDup l ∧
       storage.len l ≤ Z.of_nat (size (storage.nodes m)) ∧
       ∀ t, t ∈ l ↔ ∃ n, storage.nodes m !! t = Some n ∧ storage.Exists n id fs = Ok true.
Proof.
  intros m id fs. apply (CheckReplicas_lists_holders m id fs). vm_compute. lia.
Defined.

(** X19, witness: S3, the upload that reaches [node1] only. *)
Lemma StoreObject_replicas_witness :
  let m := scenario.manager3 in
  ∃ targets,
    hashring.GetNodes scenario.ring3 scenario.hello_id (storage.replication m) = Ok targets ∧
    ["node1"%string] ≠ [] ∧ ["node1"%string] `sublist_of` targets ∧
    NoDup ["node1"%string] ∧
    (∀ t, t ∈ ["node1"%string] → is_Some (storage.nodes m !! t)) ∧
    storage.len ["node1"%string] ≤ Z.max 0 (storage.replication m) ∧
    os.faults scenario.partial_fs = os.faults scenario.degraded_fs ∧
    os.umask scenario.partial_fs = os.umask scenario.degraded_fs.
Proof.
  intros m.
  apply (StoreObject_replicas m scenario.ring3 scenario.hello_id
           (io.BytesReader scenario.hello_world None) 12 scenario.degraded_fs).
  - vm_compute. lia.
  - reflexivity.
  - rewrite (surjective_pairing (storage.StoreObject _ _ _ _ _)).
    apply f_equal2; [vm_compute; reflexivity|reflexivity].
Defined.

(** X20, witness: the bytes of S1 read through buffers of 5 bytes. *)
Lemma byteReader_reads_back_witness :
  let data := scenario.hello_world in
  io.readAllLoop 13 (storage.ReadAt data) (storage.len data) (λ _, 5%nat) 0 []
    = Some (data, None) ∧
  (∀ plen off, off < 0 →
     storage.ReadAt data plen off = ([], Some (io.Failed "negative offset"))) ∧
  (∀ plen off, storage.len data ≤ off → storage.ReadAt data plen off = ([], Some io.EOF)) ∧
  (∀ plen off, (length (storage.ReadAt data plen off).1 ≤ plen)%nat).
Proof.
  intros data. apply (byteReader_reads_back data (λ _, 5%nat) 13).
  - intros _. lia.
  - vm_compute. lia.
Defined.

(** X21, witness: the upload of S1. *)
Lemma UploadHandler_answers_witness :
  let r := api.mkRequest "POST" ""
             (api.FormFile (io.BytesReader scenario.hello_world None) "text/plain") in
  let w := scenario.world0 in
  let h := scenario.uploaded in
  api.StatusCode (api.response h) ∈ [200; 201; 400; 405; 500] ∧
  (api.StatusCode (api.response h) ≠ 201 →
   api.meta (api.world h) = api.meta w ∧ api.spawned h = None) ∧
  (api.StatusCode (api.response h) ≠ 201 → api.StatusCode (api.response h) ≠ 500 →
   api.world h = w) ∧
  (api.Method r ≠ "POST"%string → api.StatusCode (api.response h) = 405).
Proof.
  intros r w h. apply (UploadHandler_answers scenario.server3 r 1000 w h).
  apply (fromOk_eq scenario.unanswered). vm_compute. reflexivity.
Defined.

(** X22, witness. *)
Lemma UploadHandler_created_witness :
  let w := scenario.world0 in
  let h := scenario.uploaded in
  let s := scenario.server3 in
  ∃ data replicas,
    let objectID := storage.GenerateObjectID data in
    let m := metadata.mkMeta objectID (storage.len data)
               (if String.eqb "text/plain" "" then "application/octet-stream"%string
                else "text/plain"%string) 1000 replicas in
    io.ReadAll (io.BytesReader scenario.hello_world None) (api.fs w) = Val data ∧
    storage.StoreObject (api.storageManager s) objectID (io.BytesReader data None)
      (storage.len data) (api.fs w) = (Ok replicas, api.fs (api.world h)) ∧
    api.response h = api.mkResponse 201 (api.Metadata m) ∧
    api.spawned h = Some (objectID, m) ∧
    metadata.Get objectID (api.meta w) = Fail (ErrMetadata "metadata not found") ∧
    (metadata.readOnly (api.meta w) = false →
     metadata.Get objectID (api.meta (api.world h)) = Val m).
Proof.
  intros w h s.
  apply (UploadHandler_created s (io.BytesReader scenario.hello_world None)
           "text/plain" 1000 w h).
  - apply (fromOk_eq scenario.unanswered). vm_compute. reflexivity.
  - vm_compute. reflexivity.
Defined.

(** X23, witness: S1 uploaded and downloaded. *)
Lemma upload_then_download_witness :
  ∃ sent,
    api.GetObjectHandler scenario.server3
      (api.mkRequest "GET" (storage.GenerateObjectID scenario.hello_world) api.NoFile)
      (api.world scenario.uploaded)
      = Ok (api.mkServed (api.mkResponse 200 (api.Bytes scenario.hello_world)) sent) ∧
    (metadata.readOnly (api.meta scenario.world0) = false →
     sent = Some (if String.eqb "text/plain" "" then "application/octet-stream"%string
                  else "text/plain"%string)).
Proof.
  apply (upload_then_download scenario.server3 scenario.ring3
           (io.BytesReader scenario.hello_world None) "text/plain" 1000
           scenario.world0 scenario.uploaded scenario.hello_world).
  - reflexivity.
  - vm_compute. reflexivity.
  - apply (bool_decide_unpack _). by vm_compute.
  - apply (bool_decide_unpack _). by vm_compute.
  - apply (bool_decide_unpack _). by vm_compute.
  - apply (bool_decide_unpack _). by vm_compute.
  - apply (bool_decide_unpack _). by vm_compute.
  - apply (fromOk_eq scenario.unanswered). vm_compute. reflexivity.
  - vm_compute. reflexivity.
Defined.

(** X24, witness: [GET /object/abc] on the server of S1. *)
Lemma GetObjectHandler_short_id_panics_witness :
  api.GetObjectHandler scenario.server3 (api.mkRequest "GET" "abc" api.NoFile)
    scenario.world0 = Panic "slice bounds out of range".
Proof.
  apply (GetObjectHandler_short_id_panics scenario.server3 "abc"
           ["node2"; "node3"]%string scenario.world0).
  - done.
  - vm_compute. lia.
  - vm_compute. reflexivity.
  - exists "node2"%string. split; [by left|]. vm_compute. by eexists.
Defined.

(** X26, witness. *)
Lemma GetMetadataHandler_reports_witness :
  let s := scenario.server3 in
  let id := scenario.hello_id in
  let w := api.world scenario.uploaded in
  ∃ h, api.GetMetadataHandler s (api.mkRequest "GET" id api.NoFile) w = Ok h ∧
    api.world h = w ∧
    match metadata.objects (api.meta w) !! id with
    | None =>
        api.response h = api.mkResponse 404 (api.Text "Metadata not found") ∧
        api.spawned h = None
    | Some m =>
        ∃ l, storage.CheckReplicas (api.storageManager s) id (api.fs w) = Ok l ∧
             api.response h = api.mkResponse 200 (api.Metadata (api.setReplicas m l)) ∧
             (storage.len l < api.replication s →
              api.spawned h = Some (id, api.setReplicas m l)) ∧
             (api.replication s ≤ storage.len l → api.spawned h = None)
    end.
Proof.
  intros s id w. apply (GetMetadataHandler_reports s id w). vm_compute. lia.
Defined.

(** X27, witness: the object of S1 is left on [node3] only; one holder is
    fewer than two, and the self-heal does nothing. *)
Lemma ensureReplication_needs_a_target_copy_witness :
  api.ensureReplication scenario.server3 scenario.hello_id
    (scenario.descriptor ["node3"%string])
    (api.mkWorld scenario.orphan_fs scenario.store0)
  = (Ok (scenario.descriptor ["node3"%string]),
     api.mkWorld scenario.orphan_fs scenario.store0).
Proof.
  apply (ensureReplication_needs_a_target_copy scenario.server3 scenario.hello_id
           ["node1"; "node2"]%string).
  - vm_compute. lia.
  - vm_compute. reflexivity.
  - vm_compute. reflexivity.
Defined.

(** X29, witness: [main] with three nodes on an empty file system. *)
Lemma main_registers_every_node_witness :
  let flags := scenario.flags3 in
  let st := scenario.started in
  let fs := scenario.empty_fs (oct 0 2 2) in
  let fs' := scenario.started_fs in
  dom (storage.nodes (main.managerOf flags st)) = dom (hashring.nodes (main.ring st)) ∧
  storage.hashRing (main.managerOf flags st) = storage.ringOf (main.ring st) ∧
  api.replication (main.serverOf flags st) = storage.replication (main.managerOf flags st) ∧
  api.storageManager (main.serverOf flags st) = main.managerOf flags st ∧
  hashring.virtualNodes (main.ring st) = main.virtualNodes flags ∧
  Sorted Z.le (hashring.sortedHashes (main.ring st)) ∧
  (∀ t, is_Some (storage.nodes (main.managerOf flags st) !! t) ↔
        ∃ i, 0 ≤ i < main.nodeCount flags ∧ t = ("node" ++ fmt.itoa (i + 1))%string) ∧
  (∀ t n, storage.nodes (main.managerOf flags st) !! t = Some n →
          storage.ID n = t ∧
          storage.BasePath n = filepath.show (filepath.Join [main.dataDir flags; t]) ∧
          ∃ mode, os.lookup fs' (filepath.Clean (storage.BasePath n)) = Some (os.Dir mode)) ∧
  (∀ q e, os.lookup fs q = Some e → os.lookup fs' q = Some e).
Proof.
  intros flags st fs fs'. apply (main_registers_every_node flags fs st fs').
  rewrite (surjective_pairing (main.setup _ _)) at 1.
  apply f_equal2; [|reflexivity].
  apply (fromOk_eq (main.mkSetup (hashring.NewHashRing 0) ∅)). vm_compute. reflexivity.
Defined.

(** [main] builds the ring and the nodes of S1. *)
Example main_builds_S1 :
  main.ring scenario.started = scenario.ring3 ∧
  main.registered scenario.started = storage.nodes scenario.manager3.
Proof. split; vm_compute; reflexivity. Qed.
